(** * Real-time audio relay: WebSocket gateway, Deepgram client, input sanitising

    A shallow embedding of the relay subsystem of the transcription service:
    - [src/utils/security.js]      ([sanitizeInput]),
    - [src/utils/validation.js]    ([validateAudioStream]),
    - [src/services/deepgram-service.js] ([DeepgramService]),
    - [src/websocket/handler.js]   (the connection gateway),
    followed by the properties of the specification stated over it.

    Around it, the code that feeds or mirrors the relay:
    - [src/utils/security.js]      ([RateLimiter]),
    - [src/utils/validation.js]    (the validators of files, buffers and
      parameters),
    - [src/routes/transcription.js] ([parseFileSize]),
    - [src/middleware/error-handler.js] ([validateWebSocketParams],
      [sanitizeObjectRecursive], [validatePagination]),
    - [src/routes/slack.js], [src/services/slack-service.js] (the URL of a
      session),
    with further properties of the whole. *)

From Stdlib Require Import ZArith String Ascii Strings.Byte.
From stdpp Require Import gmap list fin_maps.

Local Open Scope Z_scope.

(* ===================================================================== *)
(** * JavaScript strings and regular expressions *)
(* ===================================================================== *)

Module Js.

(** A JavaScript string is a sequence of UTF-16 code units. *)
Definition jsstring := list Z.

(** String literals of the source, written as Rocq strings. *)
Definition js (s : string) : jsstring :=
  map (λ a, Z.of_nat (nat_of_ascii a)) (list_ascii_of_string s).

Definition between (lo hi c : Z) : bool := (lo <=? c) && (c <=? hi).

(** White space and line terminators of ECMAScript: what [trim] strips and
    what the class [\s] matches. *)
Definition isWhite (c : Z) : bool :=
  between 9 13 c || (c =? 32) || (c =? 160) || (c =? 5760)
  || between 8192 8202 c || (c =? 8232) || (c =? 8233) || (c =? 8239)
  || (c =? 8287) || (c =? 12288) || (c =? 65279).

Definition isLower (c : Z) : bool := between 97 122 c.
Definition isUpper (c : Z) : bool := between 65 90 c.
Definition isDigit (c : Z) : bool := between 48 57 c.

(** The class [\w]. *)
Definition isWord (c : Z) : bool :=
  isLower c || isUpper c || isDigit c || (c =? 95).

(** Canonicalisation of the [i] flag (without [u]): only ASCII letters are
    folded onto ASCII letters. *)
Definition upcase (c : Z) : Z := if isLower c then c - 32 else c.

Fixpoint trimStart (s : jsstring) : jsstring :=
  match s with
  | c :: s' => if isWhite c then trimStart s' else s
  | [] => []
  end.

Definition trimEnd (s : jsstring) : jsstring := rev (trimStart (rev s)).

Definition trim (s : jsstring) : jsstring := trimEnd (trimStart s).

(** [s.substring(0, n)]; a negative [n] counts as 0. *)
Definition substring0 (n : Z) (s : jsstring) : jsstring := take (Z.to_nat n) s.

(** [errors.join(sep)]. *)
Fixpoint join (sep : jsstring) (l : list jsstring) : jsstring :=
  match l with
  | [] => []
  | [x] => x
  | x :: l' => x ++ sep ++ join sep l'
  end.

(** ** Regular expressions

    The fragment of the regular-expression syntax that the source uses.
    Character classes, literals and negated classes are predicates on one
    code unit. *)
Inductive regex :=
| Eps
| Chr (p : Z → bool)
| Seq (r1 r2 : regex)
| Alt (r1 r2 : regex)            (* r1|r2, r1 is tried first *)
| Star (greedy : bool) (r : regex). (* r* and r*? *)

Definition Plus (r : regex) : regex := Seq r (Star true r).
Definition Opt (r : regex) : regex := Alt r Eps.

Definition only (c : Z) : Z → bool := λ x, x =? c.
Definition is_ci (c : Z) : Z → bool := λ x, upcase x =? upcase c.

(** A literal word under the [i] flag. *)
Definition LitCi (s : string) : regex :=
  foldr (λ c r, Seq (Chr (is_ci c)) r) Eps (js s).

(** The iterations of a star, [one] matching its body once. At most
    [length s] iterations can each consume something, which bounds [n]. An
    iteration that consumes nothing is rejected. A greedy star tries one more
    iteration first, a lazy one the continuation. *)
Fixpoint star (g : bool)
    (one : jsstring → (jsstring → option jsstring) → option jsstring)
    (k : jsstring → option jsstring) (n : nat) (s : jsstring) : option jsstring :=
  let more :=
    match n with
    | O => None
    | S n' =>
        one s (λ s', if (length s' <? length s)%nat then star g one k n' s' else None)
    end in
  if g then match more with Some x => Some x | None => k s end
  else match k s with Some x => Some x | None => more end.

(** Backtracking matcher in continuation-passing style, with the priorities
    of ECMAScript: the first alternative is tried first. The result is what
    the continuation returns: here, the rest of the input after the match. *)
Fixpoint rmatch (r : regex) (s : jsstring)
    (k : jsstring → option jsstring) : option jsstring :=
  match r with
  | Eps => k s
  | Chr p =>
      match s with
      | c :: s' => if p c then k s' else None
      | [] => None
      end
  | Seq r1 r2 => rmatch r1 s (λ s1, rmatch r2 s1 k)
  | Alt r1 r2 =>
      match rmatch r1 s k with
      | Some x => Some x
      | None => rmatch r2 s k
      end
  | Star g r1 => star g (rmatch r1) k (length s) s
  end.

(** The match of [r] at the head of [s]: the rest of the input after it. *)
Definition match_here (r : regex) (s : jsstring) : option jsstring :=
  rmatch r s Some.

(** [/^r$/]: the whole string matches. *)
Definition match_whole (r : regex) (s : jsstring) : bool :=
  match rmatch r s (λ rest, match rest with [] => Some [] | _ => None end) with
  | Some _ => true
  | None => false
  end.

(** Leftmost match: the text before it and the rest after it. *)
Fixpoint search (r : regex) (s : jsstring) : option (jsstring * jsstring) :=
  match match_here r s with
  | Some rest => Some ([], rest)
  | None =>
      match s with
      | [] => None
      | c :: s' =>
          match search r s' with
          | Some (pre, rest) => Some (c :: pre, rest)
          | None => None
          end
      end
  end.

(** [pattern.test(s)] for a pattern whose [lastIndex] is 0. *)
Definition test (r : regex) (s : jsstring) : bool :=
  match search r s with Some _ => true | None => false end.

(** [s.replace(pattern, rep)] without the [g] flag: the leftmost match only. *)
Definition replace_first (r : regex) (rep s : jsstring) : jsstring :=
  match search r s with
  | Some (pre, rest) => pre ++ rep ++ rest
  | None => s
  end.

(** [s.replace(pattern, rep)] with the [g] flag: every match, left to right,
    the search resuming after each match (one unit further after an empty
    one). *)
Fixpoint replace_all_from (n : nat) (r : regex) (rep s : jsstring) : jsstring :=
  match n with
  | O => s
  | S n' =>
      match match_here r s with
      | Some rest =>
          if (length rest <? length s)%nat
          then rep ++ replace_all_from n' r rep rest
          else match s with
               | [] => rep
               | c :: s' => rep ++ c :: replace_all_from n' r rep s'
               end
      | None =>
          match s with
          | [] => []
          | c :: s' => c :: replace_all_from n' r rep s'
          end
      end
  end.

Definition replace_all (r : regex) (rep s : jsstring) : jsstring :=
  replace_all_from (S (length s)) r rep s.

(** JavaScript values, as far as [typeof] and truthiness tell them apart. *)
Inductive JsValue :=
| JUndefined
| JNull
| JBool (b : bool)
| JNumber (n : Z)
| JString (s : jsstring)
| JObject.                       (* objects and arrays *)

Definition truthy (v : JsValue) : bool :=
  match v with
  | JUndefined | JNull => false
  | JBool b => b
  | JNumber n => negb (n =? 0)
  | JString s => match s with [] => false | _ => true end
  | JObject => true
  end.

Definition nonempty (s : jsstring) : bool :=
  match s with [] => false | _ => true end.

End Js.

Import Js.

(* ===================================================================== *)
(** * src/utils/security.js *)
(* ===================================================================== *)

Module Security.

(** The [options] argument of [sanitizeInput], after destructuring. *)
Record Options := {
  maxLength : Z;
  allowHtml : bool;
  allowSpecialChars : bool;
}.

(** The defaults of the destructuring pattern; a call site overrides
    [maxLength] only. *)
Definition withMaxLength (n : Z) : Options :=
  {| maxLength := n; allowHtml := false; allowSpecialChars := true |}.
Definition defaults : Options := withMaxLength 1000.

Definition typeofString (v : JsValue) : bool :=
  match v with JString _ => true | _ => false end.

(** The five escapes of the [!allowHtml] branch, in source order. *)
Definition escapeHtml (s : jsstring) : jsstring :=
  replace_all (Chr (only 47)) (js "&#x2F;")
    (replace_all (Chr (only 39)) (js "&#x27;")
      (replace_all (Chr (only 34)) (js "&quot;")
        (replace_all (Chr (only 62)) (js "&gt;")
          (replace_all (Chr (only 60)) (js "&lt;") s)))).

(** [/[^a-zA-Z0-9\s\-_@#.]/g] *)
Definition reSpecial : regex :=
  Chr (λ c, negb (isLower c || isUpper c || isDigit c || isWhite c
                  || (c =? 45) || (c =? 95) || (c =? 64) || (c =? 35)
                  || (c =? 46))).

(** [/[\x00-\x1F\x7F]/g] *)
Definition isControl (c : Z) : bool := between 0 31 c || (c =? 127).
Definition reControl : regex := Chr isControl.

(** The two members of [sqlPatterns], both with the [i] flag only: the
    alternation of the quote, two dashes, the semicolon, the bar (twice) and
    the star (twice); and
    [/(union|select|insert|update|delete|drop|create|alter|exec|execute)/i]. *)
Definition sqlPatterns : list regex :=
  [ Alt (LitCi "'") (Alt (LitCi "--") (Alt (LitCi ";")
      (Alt (Alt (LitCi "|") (LitCi "|")) (Alt (LitCi "*") (LitCi "*")))));
    Alt (LitCi "union") (Alt (LitCi "select") (Alt (LitCi "insert")
      (Alt (LitCi "update") (Alt (LitCi "delete") (Alt (LitCi "drop")
      (Alt (LitCi "create") (Alt (LitCi "alter") (Alt (LitCi "exec")
      (LitCi "execute"))))))))) ].

(** [/<script[^>]*>[\s\S]*?<\/script>/gi], [/javascript:/gi] and
    [/on\w+\s*=/gi] *)
Definition scriptPatterns : list regex :=
  [ Seq (LitCi "<script") (Seq (Star true (Chr (λ c, negb (c =? 62))))
      (Seq (Chr (is_ci 62)) (Seq (Star false (Chr (λ _, true)))
        (LitCi "</script>"))));
    LitCi "javascript:";
    Seq (LitCi "on") (Seq (Plus (Chr isWord))
      (Seq (Star true (Chr isWhite)) (Chr (is_ci 61)))) ].

(** [sanitizeInput(input, options)]. The two warnings it logs do not
    influence the result and are not part of the model. *)
Definition sanitizeInput (input : JsValue) (o : Options) : jsstring :=
  if negb (truthy input) || negb (typeofString input) then []
  else
    match input with
    | JString s =>
        let sanitized := trim s in
        let sanitized :=
          if Z.of_nat (length sanitized) >? maxLength o
          then substring0 (maxLength o) sanitized else sanitized in
        let sanitized :=
          if negb (allowHtml o) then escapeHtml sanitized else sanitized in
        let sanitized :=
          if negb (allowSpecialChars o)
          then replace_all reSpecial [] sanitized else sanitized in
        let sanitized := replace_all reControl [] sanitized in
        let sanitized :=
          fold_left (λ acc p, if test p acc then replace_first p [] acc else acc)
            sqlPatterns sanitized in
        let sanitized :=
          fold_left (λ acc p, if test p acc then replace_all p [] acc else acc)
            scriptPatterns sanitized in
        sanitized
    | _ => []
    end.

End Security.

(* ===================================================================== *)
(** * src/utils/validation.js *)
(* ===================================================================== *)

Module Validation.

(** The [chunk] argument: a [Buffer], or any other value. *)
Inductive Chunk :=
| Buffer (bytes : list byte)
| NotBuffer.

Definition isBuffer (chunk : Chunk) : bool :=
  match chunk with Buffer _ => true | NotBuffer => false end.

(** [chunk.length]. *)
Definition chunkLength (chunk : Chunk) : Z :=
  match chunk with Buffer b => Z.of_nat (length b) | NotBuffer => 0 end.

Record StreamOptions := {
  maxChunkSize : Z;
  minChunkSize : Z;
  allowEmpty : bool;
}.

Definition streamDefaults : StreamOptions :=
  {| maxChunkSize := 8192; minChunkSize := 160; allowEmpty := false |}.

(** The entries of [errors]; the template strings carry the two numbers. *)
Inductive ChunkError :=
| InvalidChunkFormat
| EmptyAudioChunk
| ChunkTooLarge (len max : Z)
| ChunkTooSmall (len min : Z).

Record Validated (E : Type) := { isValid : bool; errors : list E }.
Arguments isValid {E} _.
Arguments errors {E} _.

(** The return statement shared by the validators. *)
Definition result {E : Type} (errs : list E) : Validated E :=
  {| isValid := (length errs =? 0)%nat; errors := errs |}.

(** [validateAudioStream(chunk, options)]. The block that computes the
    silence ratio only writes a debug log and is left out. *)
Definition validateAudioStream (chunk : Chunk) (o : StreamOptions)
    : Validated ChunkError :=
  if negb (isBuffer chunk)
  then {| isValid := false; errors := [InvalidChunkFormat] |}
  else if (chunkLength chunk =? 0) && negb (allowEmpty o)
  then {| isValid := false; errors := [EmptyAudioChunk] |}
  else
    let errs := [] in
    let errs :=
      if chunkLength chunk >? maxChunkSize o
      then errs ++ [ChunkTooLarge (chunkLength chunk) (maxChunkSize o)]
      else errs in
    let errs :=
      if (chunkLength chunk <? minChunkSize o) && (chunkLength chunk >? 0)
      then errs ++ [ChunkTooSmall (chunkLength chunk) (minChunkSize o)]
      else errs in
    result errs.

End Validation.

Import Security Validation.

(* ===================================================================== *)
(** * src/services/deepgram-service.js *)
(* ===================================================================== *)

Module Deepgram.

(** A JavaScript number that the service only passes through (confidence,
    duration, offsets): an IEEE double, given by its bits. *)
Definition float64 := Z.

Record Word := {
  word : jsstring;
  w_start : float64;
  w_end : float64;
  w_confidence : float64;
}.

(** [data.channel.alternatives[i]] of a [transcript] event. *)
Record Alternative := {
  alt_transcript : jsstring;     (* the empty string when absent *)
  alt_confidence : float64;
  alt_words : list Word;         (* [transcript.words || []] *)
}.

(** The payload of a [transcript] event of the backend. [d_alternatives] is
    [None] when [data.channel] or its [alternatives] is undefined. *)
Record LiveData := {
  d_alternatives : option (list Alternative);
  d_is_final : JsValue;
  d_duration : float64;
  d_start : float64;
  d_channel_index : Z;
}.

(** The [result] object handed to [onTranscript]. *)
Record TranscriptResult := {
  r_sessionId : jsstring;
  r_conversationId : jsstring;
  r_transcript : jsstring;
  r_confidence : float64;
  r_is_final : JsValue;
  r_duration : float64;
  r_start : float64;
  r_channel : Z;
  r_words : list Word;
  r_timestamp : Z;
}.

(** The argument of [sendToSlack]. *)
Record SlackData := {
  s_channel : jsstring;
  s_transcript : jsstring;
  s_confidence : float64;
  s_sessionId : jsstring;
  s_conversationId : jsstring;
  s_duration : float64;
}.

(** Messages of the server to a client, before [JSON.stringify]. *)
Inductive ServerMsg :=
| MsgConnected (connectionId sessionId message : jsstring)
| MsgTranscript (data : TranscriptResult)
| MsgStatus (status message : jsstring)
| MsgError (error : jsstring).

Inductive Level := LInfo | LWarn | LError.

(** Calls on the outside world, in program order. Sockets and backend
    connections are named by their addresses. Debug-level logs are not
    traced. *)
Inductive Effect :=
| WsSend (sock : nat) (m : ServerMsg)               (* ws.send(JSON.stringify(m)) *)
| WsClose (sock : nat) (code : Z) (reason : jsstring) (* ws.close(code, reason) *)
| DgLive (conn : nat) (model language : jsstring) (tag : list jsstring)
                                                    (* deepgram.listen.live({...}) *)
| DgSend (conn : nat) (audio : list byte)           (* connection.send(audio) *)
| DgClose (conn : nat)                              (* connection.close() *)
| SlackSend (m : SlackData)                         (* slackService.sendMessage(message) *)
| Log (lvl : Level) (text : string).

(** How a call ends. *)
Inductive Completion := Normal | Throws.

Definition Run : Type := list Effect * Completion.

(** [readyState] of the client sockets, which the callbacks read. *)
Abbreviation Sockets := (gmap nat Z).

Definition OPEN : Z := 1.

(** The [options] of [createStreamingConnection]. The caller always passes
    [language] and [model], so their destructuring defaults never apply. *)
Record StreamingOptions := {
  sessionId : jsstring;
  slackChannel : jsstring;
  conversationId : jsstring;
  opt_language : jsstring;
  opt_model : jsstring;
  onTranscript : option (Sockets → TranscriptResult → Run);
  onError : option (Sockets → Run);
}.

(** A live connection of the Deepgram SDK: its [readyState], and the
    variables that the listeners attached by [createStreamingConnection]
    have captured. *)
Record Backend := {
  readyState : Z;
  captured : StreamingOptions;
}.

(** The values of [this.activeConnections]. *)
Record ConnectionData := {
  c_connection : nat;
  c_sessionId : jsstring;
  c_slackChannel : jsstring;
  c_conversationId : jsstring;
  c_createdAt : Z;
}.

(** The state of the [DeepgramService] singleton together with the live
    connections it has opened. *)
Record Service := {
  backends : gmap nat Backend;
  activeConnections : gmap jsstring ConnectionData;
}.

Definition emptyService : Service :=
  {| backends := ∅; activeConnections := ∅ |}.

(** Modelled from the spec: what [connection.close()] does to the
    [readyState] of the SDK's connection, the SDK being an external package.
    The states are those of the specification (Opening, Open, Closing,
    Closed), numbered 0 to 3 as the test [readyState === 1] of the source
    presumes: a connecting or open connection starts closing, otherwise
    nothing changes, so that closing is idempotent. *)
Definition closing (rs : Z) : Z :=
  if (rs =? 0) || (rs =? 1) then 2 else rs.

Definition setReadyState (rs : Z) (b : Backend) : Backend :=
  {| readyState := rs; captured := captured b |}.

(** ** The returned handle: [sendAudio], [close], [isConnected] *)

Definition isConnected (sv : Service) (h : nat) : bool :=
  match backends sv !! h with
  | Some b => readyState b =? 1
  | None => false
  end.

Definition sendAudio (sv : Service) (h : nat) (audio : list byte) : list Effect :=
  match backends sv !! h with
  | Some b => if readyState b =? 1 then [DgSend h audio] else []
  | None => []
  end.

Definition close (sv : Service) (h : nat) : Service * list Effect :=
  ({| backends := alter (λ b, setReadyState (closing (readyState b)) b) h (backends sv);
      activeConnections := activeConnections sv |},
   [DgClose h]).

(** ** [sendToSlack(data)]

    [ok] tells whether [slackService.sendMessage] resolves. When it rejects,
    [sendMessage] logs and rethrows, and the [catch] of [sendToSlack] logs
    again and returns. *)
Definition sendToSlack (data : SlackData) (ok : bool) : list Effect :=
  SlackSend data ::
  if ok then []
  else [Log LError "Failed to send Slack message:";
        Log LError "Failed to send transcription to Slack:"].

(** ** The listener of the [transcript] event *)

(** The [result] object built for the first alternative. *)
Definition transcriptResult (o : StreamingOptions) (data : LiveData)
    (transcript : Alternative) (now : Z) : TranscriptResult :=
  {| r_sessionId := sessionId o;
     r_conversationId := conversationId o;
     r_transcript := alt_transcript transcript;
     r_confidence := alt_confidence transcript;
     r_is_final := d_is_final data;
     r_duration := d_duration data;
     r_start := d_start data;
     r_channel := d_channel_index data;
     r_words := alt_words transcript;
     r_timestamp := now |}.

Definition onTranscriptEvent (o : StreamingOptions) (socks : Sockets)
    (now : Z) (slackOk : bool) (data : LiveData) : list Effect :=
  match d_alternatives data ≫= head with
  | None => []
  | Some transcript =>
      if negb (nonempty (alt_transcript transcript)) then []
      else
        let result := transcriptResult o data transcript now in
        let called :=
          match onTranscript o with
          | Some cb => cb socks result
          | None => ([], Normal)
          end in
        match called.2 with
        | Throws =>
            called.1 ++ [Log LError "Error processing transcript:"]
            ++ match onError o with Some cb => (cb socks).1 | None => [] end
        | Normal =>
            if truthy (d_is_final data) && nonempty (slackChannel o)
               && nonempty (trim (alt_transcript transcript))
            then
              called.1 ++
              sendToSlack
                {| s_channel := slackChannel o;
                   s_transcript := alt_transcript transcript;
                   s_confidence := alt_confidence transcript;
                   s_sessionId := sessionId o;
                   s_conversationId := conversationId o;
                   s_duration := d_duration data |} slackOk
            else called.1
        end
  end.

(** ** The listeners of [open], [close] and [error] *)

Definition onOpenEvent : list Effect :=
  [Log LInfo "Deepgram connection opened for session"].

Definition onCloseEvent (sv : Service) (o : StreamingOptions) : Service * list Effect :=
  ({| backends := backends sv;
      activeConnections := delete (sessionId o) (activeConnections sv) |},
   [Log LInfo "Deepgram connection closed for session"]).

Definition onErrorEvent (o : StreamingOptions) (socks : Sockets) : list Effect :=
  Log LError "Deepgram connection error for session" ::
  match onError o with Some cb => (cb socks).1 | None => [] end.

(** ** [createStreamingConnection(options)]

    [live] tells whether [this.deepgram.listen.live] returns a connection;
    when it throws, the error is logged and rethrown ([None]). A new
    connection gets a fresh address and starts connecting. *)
Definition createStreamingConnection (sv : Service) (o : StreamingOptions)
    (now : Z) (live : bool) : Service * option nat * list Effect :=
  if live then
    let connection := fresh (dom (backends sv)) in
    ({| backends :=
          <[connection := {| readyState := 0; captured := o |}]> (backends sv);
        activeConnections :=
          <[sessionId o :=
              {| c_connection := connection;
                 c_sessionId := sessionId o;
                 c_slackChannel := slackChannel o;
                 c_conversationId := conversationId o;
                 c_createdAt := now |}]> (activeConnections sv) |},
     Some connection,
     [DgLive connection (opt_model o) (opt_language o)
        (filter (λ t, nonempty t = true) [sessionId o; conversationId o])])
  else (sv, None, [Log LError "Failed to create Deepgram connection:"]).

(** ** [closeConnection(sessionId)] and [cleanupConnections()] *)

Definition closeConnection (sid : jsstring) (sv : Service) : Service * list Effect :=
  match activeConnections sv !! sid with
  | Some connectionData =>
      let closed := close sv (c_connection connectionData) in
      ({| backends := backends closed.1;
          activeConnections := delete sid (activeConnections closed.1) |},
       closed.2 ++ [Log LInfo "Closed connection for session"])
  | None => (sv, [])
  end.

Definition maxAge : Z := 30 * 60 * 1000.

(** The loop visits the entries that the map has when it starts, in the
    order of the model's map; an entry is read again when its turn comes. *)
Definition cleanupConnections (now : Z) (sv : Service) : Service * list Effect :=
  foldl
    (λ acc sid,
       match activeConnections acc.1 !! sid with
       | Some connectionData =>
           if now - c_createdAt connectionData >? maxAge
           then
             let r := closeConnection sid acc.1 in
             (r.1, acc.2 ++ [Log LInfo "Cleaning up inactive connection"] ++ r.2)
           else acc
       | None => acc
       end)
    (sv, []) (map_to_list (activeConnections sv)).*1.

End Deepgram.

Import Deepgram.

(* ===================================================================== *)
(** * src/websocket/handler.js *)
(* ===================================================================== *)

Module Handler.

(** The query object of [url.parse(req.url, true)], at the six keys read. *)
Record Query := {
  q_channel : JsValue;
  q_session : JsValue;
  q_conversation : JsValue;
  q_user : JsValue;
  q_language : JsValue;
  q_model : JsValue;
}.

Record Params := {
  channel : jsstring;
  session : jsstring;
  conversation : jsstring;
  user : jsstring;
  language : jsstring;
  model : jsstring;
}.

Definition sanitizeConnectionParams (params : Query) : Params :=
  {| channel := sanitizeInput (q_channel params) (withMaxLength 100);
     session := sanitizeInput (q_session params) (withMaxLength 100);
     conversation := sanitizeInput (q_conversation params) (withMaxLength 100);
     user := sanitizeInput (q_user params) (withMaxLength 100);
     language := sanitizeInput (q_language params) (withMaxLength 10);
     model := sanitizeInput (q_model params) (withMaxLength 50) |}.

(** [/^[#@]?[a-zA-Z0-9_-]+$/] *)
Definition reChannel : regex :=
  Seq (Opt (Chr (λ c, (c =? 35) || (c =? 64))))
      (Plus (Chr (λ c, isLower c || isUpper c || isDigit c
                       || (c =? 95) || (c =? 45)))).

(** [/^[a-z]{2}(-[A-Z]{2})?$/] *)
Definition reLanguage : regex :=
  Seq (Chr isLower) (Seq (Chr isLower)
    (Opt (Seq (Chr (only 45)) (Seq (Chr isUpper) (Chr isUpper))))).

Definition validModels : list jsstring :=
  [js "nova-2"; js "nova"; js "enhanced"; js "base"].

Definition validateConnectionParams (params : Params) : Validated jsstring :=
  let errs := [] in
  let errs :=
    if negb (nonempty (channel params))
    then errs ++ [js "channel parameter is required"] else errs in
  let errs :=
    if negb (nonempty (session params))
    then errs ++ [js "session parameter is required"] else errs in
  let errs :=
    if nonempty (channel params) && negb (match_whole reChannel (channel params))
    then errs ++ [js "invalid channel format"] else errs in
  let errs :=
    if nonempty (language params)
       && negb (match_whole reLanguage (language params))
    then errs ++ [js "invalid language format"] else errs in
  let errs :=
    if nonempty (model params)
       && negb (bool_decide (model params ∈ validModels))
    then errs ++ [js "invalid model specified"] else errs in
  result errs.

(** The [connectionState] object. [ws] is the address of the client socket,
    [deepgramConnection] is [null] or the handle of a backend connection.
    The counters are integers far below 2^53, where the arithmetic of
    JavaScript numbers is exact. *)
Record ConnectionState := {
  id : jsstring;
  ws : nat;
  params : Params;
  deepgramConnection : option nat;
  isActive : bool;
  startTime : Z;
  audioChunks : Z;
  totalBytes : Z;
}.

(** What JSON.parse makes of a text frame, as far as the handler looks. *)
Inductive Parsed :=
| Malformed                 (* JSON.parse throws, or yields null *)
| Typed (type : JsValue).   (* the value of message.type *)

(** The [data] that [handleWebSocketMessage] tells apart: a string, a
    [Buffer], or something else (an [ArrayBuffer], a list of buffers). *)
Inductive Incoming :=
| AsString (parsed : Parsed)
| AsBuffer (audio : list byte)
| Other.

(** A frame that a client sends, with its payload. The ws package (version
    8, as package.json declares it) hands the payload of every frame, text
    or binary, to the listeners of [message] as a [Buffer], with a second
    argument [isBinary] that the listener of the gateway does not take: the
    [data] of the listener is a [Buffer] for both kinds. *)
Inductive Frame :=
| Text (payload : list byte)
| Binary (payload : list byte).

Definition received (frame : Frame) : Incoming :=
  match frame with
  | Text payload => AsBuffer payload
  | Binary payload => AsBuffer payload
  end.

Definition isType (t : string) (v : JsValue) : bool :=
  match v with JString x => bool_decide (x = js t) | _ => false end.

(** [connectionState.audioChunks++; connectionState.totalBytes += data.length] *)
Definition countChunk (st : ConnectionState) (len : Z) : ConnectionState :=
  {| id := id st; ws := ws st; params := params st;
     deepgramConnection := deepgramConnection st;
     isActive := isActive st; startTime := startTime st;
     audioChunks := audioChunks st + 1;
     totalBytes := totalBytes st + len |}.

(** [handleWebSocketMessage(connectionState, data)]: the new contents of the
    object, the new state of the service, the calls made, and whether the
    function throws (its [catch] logs and rethrows). *)
Definition handleWebSocketMessage (sv : Service) (st : ConnectionState)
    (data : Incoming) : ConnectionState * Service * Run :=
  match data with
  | AsString Malformed =>
      (st, sv, ([Log LError "Error processing message for connection"], Throws))
  | AsString (Typed type) =>
      if isType "start" type then
        (st, sv,
         ([Log LInfo "Starting transcription for connection";
           WsSend (ws st) (MsgStatus (js "started") (js "Transcription started"))],
          Normal))
      else if isType "stop" type then
        let closed :=
          match deepgramConnection st with
          | Some h => close sv h
          | None => (sv, [])
          end in
        (st, closed.1,
         ([Log LInfo "Stopping transcription for connection"] ++ closed.2 ++
          [WsSend (ws st) (MsgStatus (js "stopped") (js "Transcription stopped"))],
          Normal))
      else if isType "config" type then (st, sv, ([], Normal))
      else (st, sv, ([Log LWarn "Unknown message type"], Normal))
  | AsBuffer audio =>
      let audioValidation :=
        validateAudioStream (Buffer audio)
          {| maxChunkSize := 8192; minChunkSize := 160; allowEmpty := false |} in
      if negb (isValid audioValidation)
      then (st, sv, ([Log LWarn "Invalid audio data"], Normal))
      else
        let st' := countChunk st (Z.of_nat (length audio)) in
        match deepgramConnection st with
        | Some h =>
            if isConnected sv h
            then (st', sv, (sendAudio sv h audio, Normal))
            else (st', sv, ([Log LWarn "Deepgram connection not ready"], Normal))
        | None => (st', sv, ([Log LWarn "Deepgram connection not ready"], Normal))
        end
  | Other => (st, sv, ([], Normal))
  end.

(** The listener of the [message] event of a client socket. *)
Definition onMessage (sv : Service) (st : ConnectionState) (data : Incoming)
    : ConnectionState * Service * list Effect :=
  let r := handleWebSocketMessage sv st data in
  match r.2.2 with
  | Normal => (r.1.1, r.1.2, r.2.1)
  | Throws =>
      (r.1.1, r.1.2,
       r.2.1 ++ [Log LError "Error handling WebSocket message";
                 WsSend (ws st) (MsgError (js "Failed to process audio data"))])
  end.

(** The two callbacks that the gateway passes to the service for the client
    socket [sock]. *)
Definition transcriptCallback (sock : nat) (socks : Sockets)
    (result : TranscriptResult) : Run :=
  if bool_decide (socks !! sock = Some OPEN)
  then ([WsSend sock (MsgTranscript result)], Normal)
  else ([], Normal).

Definition errorCallback (sock : nat) (socks : Sockets) : Run :=
  (Log LError "Deepgram error for connection" ::
   (if bool_decide (socks !! sock = Some OPEN)
    then [WsSend sock (MsgError (js "Transcription service error"))]
    else []),
   Normal).

(** ** The state of the process

    [heap] holds the [connectionState] objects by address: the map
    [activeStreams] and the listeners of a client socket refer to the same
    object. [listeners] gives, for a client socket on which the [message],
    [close] and [error] listeners are registered, the object they captured. *)
Record World := {
  heap : gmap nat ConnectionState;
  activeStreams : gmap jsstring nat;
  listeners : gmap nat nat;
  clients : gmap nat Z;
  service : Service;
}.

Definition emptyWorld : World :=
  {| heap := ∅; activeStreams := ∅; listeners := ∅; clients := ∅;
     service := emptyService |}.

Definition setHeap (h : gmap nat ConnectionState) (w : World) : World :=
  {| heap := h; activeStreams := activeStreams w; listeners := listeners w;
     clients := clients w; service := service w |}.
Definition setActiveStreams (m : gmap jsstring nat) (w : World) : World :=
  {| heap := heap w; activeStreams := m; listeners := listeners w;
     clients := clients w; service := service w |}.
Definition setListeners (l : gmap nat nat) (w : World) : World :=
  {| heap := heap w; activeStreams := activeStreams w; listeners := l;
     clients := clients w; service := service w |}.
Definition setClients (c : gmap nat Z) (w : World) : World :=
  {| heap := heap w; activeStreams := activeStreams w; listeners := listeners w;
     clients := c; service := service w |}.
Definition setService (sv : Service) (w : World) : World :=
  {| heap := heap w; activeStreams := activeStreams w; listeners := listeners w;
     clients := clients w; service := sv |}.

Definition setDeepgramConnection (h : option nat) (st : ConnectionState)
    : ConnectionState :=
  {| id := id st; ws := ws st; params := params st; deepgramConnection := h;
     isActive := isActive st; startTime := startTime st;
     audioChunks := audioChunks st; totalBytes := totalBytes st |}.
Definition setIsActive (b : bool) (st : ConnectionState) : ConnectionState :=
  {| id := id st; ws := ws st; params := params st;
     deepgramConnection := deepgramConnection st;
     isActive := b; startTime := startTime st;
     audioChunks := audioChunks st; totalBytes := totalBytes st |}.

(** [a || b] on strings. *)
Definition orElse (a : jsstring) (b : string) : jsstring :=
  if nonempty a then a else js b.

(** [Buffer.byteLength(s)]: the length of [s] in UTF-8. A code unit below
    128 takes one byte, one below 2048 two, a surrogate pair four, any other
    unit three (a lone surrogate is written as U+FFFD). *)
Fixpoint byteLength (s : jsstring) : Z :=
  match s with
  | [] => 0
  | c :: s' =>
      if c <? 128 then 1 + byteLength s'
      else if c <? 2048 then 2 + byteLength s'
      else if between 55296 56319 c then
        match s' with
        | d :: s'' =>
            if between 56320 57343 d then 4 + byteLength s''
            else 3 + byteLength s'
        | [] => 3
        end
      else 3 + byteLength s'
  end.

(** [ws.close(code, reason)] of the ws package, on a socket of the server
    and with one of the two codes of the source. On a socket that is not
    open (it is closing or closed) the call returns at once. On an open
    socket, the socket starts closing; then the close frame is made, which
    throws a RangeError when the reason is longer than 123 bytes, and is
    sent otherwise. [WsClose] stands for the frame that is sent. *)
Definition wsClose (sock : nat) (code : Z) (reason : jsstring) (w : World)
    : World * Run :=
  if bool_decide (clients w !! sock = Some OPEN) then
    if byteLength reason >? 123
    then (setClients (<[sock := 2]> (clients w)) w, ([], Throws))
    else (setClients (<[sock := 2]> (clients w)) w,
          ([WsClose sock code reason], Normal))
  else (w, ([], Normal)).

(** The [catch] of the listener of [connection]. *)
Definition setupFailed (sock : nat) (w : World) : World * list Effect :=
  let closed := wsClose sock 1011 (js "Internal server error") w in
  (closed.1, [Log LError "Error setting up WebSocket connection:"] ++ closed.2.1).

(** ** The listener of [connection] on the server *)

(** The initial [connectionState] object. *)
Definition newConnectionState (connectionId : jsstring) (sock : nat)
    (params : Params) (now : Z) : ConnectionState :=
  {| id := connectionId; ws := sock; params := params;
     deepgramConnection := None; isActive := true;
     startTime := now; audioChunks := 0; totalBytes := 0 |}.

(** The object passed to [createStreamingConnection]. *)
Definition streamingOptions (sock : nat) (params : Params) : StreamingOptions :=
  {| sessionId := session params;
     slackChannel := channel params;
     conversationId := conversation params;
     opt_language := orElse (language params) "en-US";
     opt_model := orElse (model params) "nova-2";
     onTranscript := Some (transcriptCallback sock);
     onError := Some (errorCallback sock) |}.

(** [connectionId] is what [uuidv4()] returns, [now] the clock, [live] whether
    the SDK hands out a connection. The new object gets a fresh address. The
    body is in a [try]: when the first [ws.close] or the service throws, the
    [catch] runs. *)
Definition onConnection (sock : nat) (connectionId : jsstring) (query : Query)
    (now : Z) (live : bool) (w : World) : World * list Effect :=
  let params := sanitizeConnectionParams query in
  let validation := validateConnectionParams params in
  if negb (isValid validation) then
    let closed :=
      wsClose sock 1008
        (js "Invalid parameters: " ++ join (js ", ") (errors validation)) w in
    match closed.2.2 with
    | Normal => (closed.1, closed.2.1)
    | Throws =>
        let failed := setupFailed sock closed.1 in
        (failed.1, closed.2.1 ++ failed.2)
    end
  else
    let connectionState := fresh (dom (heap w)) in
    let w :=
      setHeap (<[connectionState := newConnectionState connectionId sock params now]>
                 (heap w)) w in
    let w := setActiveStreams (<[connectionId := connectionState]> (activeStreams w)) w in
    let created :=
      createStreamingConnection (service w) (streamingOptions sock params) now live in
    let w := setService created.1.1 w in
    match created.1.2 with
    | None =>
        let failed := setupFailed sock w in
        (failed.1,
         [Log LInfo "New WebSocket connection"] ++ created.2 ++ failed.2)
    | Some deepgramConnection =>
        let w :=
          setHeap (alter (setDeepgramConnection (Some deepgramConnection))
                     connectionState (heap w)) w in
        let w := setListeners (<[sock := connectionState]> (listeners w)) w in
        (w,
         [Log LInfo "New WebSocket connection"] ++ created.2 ++
         [WsSend sock
            (MsgConnected connectionId (session params)
               (js "Connected to transcription service"))])
    end.

(** ** [cleanup(connectionId, activeStreams)] *)
Definition cleanup (connectionId : jsstring) (w : World) : World * list Effect :=
  match activeStreams w !! connectionId with
  | Some connectionState =>
      let closed :=
        match heap w !! connectionState ≫= deepgramConnection with
        | Some h => close (service w) h
        | None => (service w, [])
        end in
      let w := setService closed.1 w in
      let w := setHeap (alter (setIsActive false) connectionState (heap w)) w in
      let w := setActiveStreams (delete connectionId (activeStreams w)) w in
      (w, closed.2 ++ [Log LInfo "Cleaned up connection"])
  | None => (w, [])
  end.

(** ** [cleanupInactiveConnections(activeStreams)]

    [maxAge] is the constant of the function body. The loop visits the
    entries that the map has when it starts (the body deletes the entry under
    visit only); the object of an entry is read when its turn comes. The
    source visits them in insertion order, the model in the order of its
    map: the resulting state is the same, the calls may come in another
    order. *)
Definition maxAge : Z := 30 * 60 * 1000.

(** The body of the loop. *)
Definition visit (now : Z) (acc : World * list Effect) (entry : jsstring * nat)
    : World * list Effect :=
  match heap acc.1 !! entry.2 with
  | Some connectionState =>
      let age := now - startTime connectionState in
      if negb (isActive connectionState) || (age >? maxAge)
      then
        let r := cleanup entry.1 acc.1 in
        (r.1, acc.2 ++ [Log LInfo "Cleaning up inactive connection"] ++ r.2)
      else acc
  | None => acc
  end.

Definition cleanupInactiveConnections (now : Z) (w : World) : World * list Effect :=
  foldl (visit now) (w, []) (map_to_list (activeStreams w)).

(** ** [setupWebSocket(wss)]

    [process.env], the variables of the environment by name, is there for
    every function of the process to read. *)
Definition Env := gmap jsstring jsstring.



(** ** Events of the process and its runs

    The keepalive ping and the [pong] listener change nothing and are left
    out. The backend connections change state as in the specification: a
    connecting one opens, any one that is not closed closes. *)
Inductive Event :=
| Connection (sock : nat) (connectionId : jsstring) (query : Query)
    (now : Z) (live : bool)       (* [connection] on the server *)
| Message (sock : nat) (frame : Frame) (* [message] of a client socket *)
| Closed (sock : nat)             (* [close] of a client socket *)
| Failed (sock : nat)             (* [error] of a client socket *)
| Sweep (now : Z)                 (* the timer of [cleanupInactiveConnections] *)
| BackendOpen (conn : nat)
| BackendTranscript (conn : nat) (data : LiveData) (now : Z) (slackOk : bool)
| BackendClosed (conn : nat)
| BackendError (conn : nat)
| ServiceSweep (now : Z).         (* the timer of [cleanupConnections] *)

(** The object captured by the listeners of a client socket. *)
Definition listening (w : World) (sock : nat) : option (nat * ConnectionState) :=
  l ← listeners w !! sock; st ← heap w !! l; Some (l, st).

Definition setBackend (conn : nat) (rs : Z) (w : World) : World :=
  setService
    {| backends := alter (setReadyState rs) conn (backends (service w));
       activeConnections := activeConnections (service w) |} w.

Definition step (w : World) (e : Event) : World * list Effect :=
  match e with
  | Connection sock connectionId query now live =>
      onConnection sock connectionId query now live
        (setClients (<[sock := OPEN]> (clients w)) w)
  | Message sock frame =>
      match listening w sock with
      | Some (l, st) =>
          let r := onMessage (service w) st (received frame) in
          (setService r.1.2 (setHeap (<[l := r.1.1]> (heap w)) w), r.2)
      | None => (w, [])
      end
  | Closed sock =>
      let w := setClients (<[sock := 3]> (clients w)) w in
      match listening w sock with
      | Some (l, st) =>
          let r := cleanup (id st) w in
          (r.1, Log LInfo "WebSocket connection closed" :: r.2)
      | None => (w, [])
      end
  | Failed sock =>
      match listening w sock with
      | Some (l, st) =>
          let r := cleanup (id st) w in
          (r.1, Log LError "WebSocket error" :: r.2)
      | None => (w, [])
      end
  | Sweep now => cleanupInactiveConnections now w
  | BackendOpen conn =>
      match backends (service w) !! conn with
      | Some b =>
          if readyState b =? 0 then (setBackend conn OPEN w, onOpenEvent)
          else (w, [])
      | None => (w, [])
      end
  | BackendTranscript conn data now slackOk =>
      match backends (service w) !! conn with
      | Some b => (w, onTranscriptEvent (captured b) (clients w) now slackOk data)
      | None => (w, [])
      end
  | BackendClosed conn =>
      match backends (service w) !! conn with
      | Some b =>
          if readyState b =? 3 then (w, [])
          else
            let w := setBackend conn 3 w in
            let r := onCloseEvent (service w) (captured b) in
            (setService r.1 w, r.2)
      | None => (w, [])
      end
  | BackendError conn =>
      match backends (service w) !! conn with
      | Some b => (w, onErrorEvent (captured b) (clients w))
      | None => (w, [])
      end
  | ServiceSweep now =>
      let r := cleanupConnections now (service w) in
      (setService r.1 w, r.2)
  end.

Fixpoint run (w : World) (events : list Event) : World * list Effect :=
  match events with
  | [] => (w, [])
  | e :: events' =>
      let r := step w e in
      let r' := run r.1 events' in
      (r'.1, r.2 ++ r'.2)
  end.

Definition reachable (w : World) : Prop :=
  ∃ events, (run emptyWorld events).1 = w.

End Handler.

Import Handler.

(* ===================================================================== *)
(** * Notions used by the statements *)
(* ===================================================================== *)

(** No ['<'], ['>'], double quote or ASCII control character (0x00-0x1F,
    0x7F) occurs in [s]. *)
Definition restricted (s : jsstring) : Prop :=
  ∀ c, c ∈ s → c ≠ 60 ∧ c ≠ 62 ∧ c ≠ 34 ∧ ¬ (0 ≤ c ≤ 31) ∧ c ≠ 127.

(** What a trace of calls contains. *)
Definition isForward (e : Effect) : bool :=
  match e with DgSend _ _ => true | _ => false end.
Definition isClientSend (e : Effect) : bool :=
  match e with WsSend _ _ => true | _ => false end.
Definition isClientClose (e : Effect) : bool :=
  match e with WsClose _ _ _ => true | _ => false end.
Definition isSlackSend (e : Effect) : bool :=
  match e with SlackSend _ => true | _ => false end.

(** Some frame is handed to a backend connection. *)
Definition forwarded (t : list Effect) : bool := existsb isForward t.

(** The size bounds that the gateway passes to [validateAudioStream]. *)
Definition inBounds (audio : list byte) : Prop :=
  160 ≤ Z.of_nat (length audio) ≤ 8192.

(** A backend connection that is neither connecting nor open. *)
Definition settled (rs : Z) : Prop := rs ≠ 0 ∧ rs ≠ 1.

(** Options whose callbacks are the two that the gateway passes. *)
Definition fromGateway (o : StreamingOptions) : Prop :=
  ∃ sock, onTranscript o = Some (transcriptCallback sock)
          ∧ onError o = Some (errorCallback sock).

(** How the set of backend connections changes over time: a connection
    stays, keeps what its listeners captured and, once settled, stays
    settled; a new connection has been opened for the gateway. *)
Definition evolves (B B' : gmap nat Backend) : Prop :=
  (∀ c b, B !! c = Some b →
     ∃ b', B' !! c = Some b' ∧ captured b' = captured b
           ∧ (settled (readyState b) → settled (readyState b')))
  ∧ (∀ c b', B !! c = None → B' !! c = Some b' → fromGateway (captured b')).

(** Well-formed states of the process: every backend connection was opened
    for the gateway; a handle stored in a [connectionState] refers to a
    backend connection; the entries of [activeStreams] refer to distinct
    objects that are marked active; the listeners of a client socket hold
    the object made for that socket, which has its handle. *)
Record wf (w : World) : Prop := {
  wf_callbacks :
    ∀ c b, backends (service w) !! c = Some b → fromGateway (captured b);
  wf_handles :
    ∀ l st h, heap w !! l = Some st → deepgramConnection st = Some h →
              is_Some (backends (service w) !! h);
  wf_streams :
    ∀ k l, activeStreams w !! k = Some l →
           ∃ st, heap w !! l = Some st ∧ isActive st = true;
  wf_inj :
    ∀ k1 k2 l, activeStreams w !! k1 = Some l → activeStreams w !! k2 = Some l →
               k1 = k2;
  wf_listeners :
    ∀ sock l, listeners w !! sock = Some l →
              ∃ st, heap w !! l = Some st ∧ ws st = sock
                    ∧ is_Some (deepgramConnection st);
}.

(** The test of the sweep on the object at address [l]. *)
Definition expired (now : Z) (w : World) (l : nat) : bool :=
  match heap w !! l with
  | Some st => negb (isActive st) || (now - startTime st >? Handler.maxAge)
  | None => false
  end.

(** ** Scenarios

    The state after one client has connected with [channel=#test] and
    [session=abc-123] at time 1000 and its backend connection has opened; the
    [connectionState] of that client; and a transcript event as the gateway's
    session receives it. *)
Definition frameQuery : Query :=
  {| q_channel := JString (js "#test"); q_session := JString (js "abc-123");
     q_conversation := JUndefined; q_user := JUndefined;
     q_language := JUndefined; q_model := JUndefined |}.

Definition frameWorld : World :=
  (run emptyWorld [Connection 7 (js "c1") frameQuery 1000 true; BackendOpen 0]).1.

Definition frameState : ConnectionState :=
  {| id := js "c1"; ws := 7;
     params := {| channel := js "#test"; session := js "abc-123";
                  conversation := []; user := []; language := []; model := [] |};
     deepgramConnection := Some 0%nat; isActive := true; startTime := 1000;
     audioChunks := 0; totalBytes := 0 |}.

Definition finalData (text : string) : LiveData :=
  {| d_alternatives :=
       Some [{| alt_transcript := js text; alt_confidence := 0; alt_words := [] |}];
     d_is_final := JBool true; d_duration := 0; d_start := 0;
     d_channel_index := 0 |}.

Definition gatewayOptions (sock : nat) : StreamingOptions :=
  {| sessionId := js "abc-123"; slackChannel := js "#test"; conversationId := [];
     opt_language := js "en-US"; opt_model := js "nova-2";
     onTranscript := Some (transcriptCallback sock);
     onError := Some (errorCallback sock) |}.

(* ===================================================================== *)
(** * src/utils/security.js: the rate limiter *)
(* ===================================================================== *)

Module RateLimiter.

(** A value of [this.clients]. [blockedAt] is undefined until the client is
    blocked for the first time. *)
Record Client := {
  requests : list Z;
  blocked : bool;
  blockedAt : option Z;
}.

(** [{ requests: [], blocked: false }] *)
Definition newClient : Client :=
  {| requests := []; blocked := false; blockedAt := None |}.

(** [isRateLimited(clientId, maxRequests, windowMs)] when the clock shows
    [now]: the new [this.clients] and the verdict. The object read from the
    map is changed in place, so the filtered [requests] stay in the map also
    when the function returns early. The warning it logs is left out. *)
Definition isRateLimited (clientId : jsstring) (maxRequests windowMs now : Z)
    (clients : gmap jsstring Client) : gmap jsstring Client * bool :=
  let client := default newClient (clients !! clientId) in
  let recent := filter (λ time, now - time < windowMs) (requests client) in
  if blocked client
     && match blockedAt client with
        | Some t => now - t <? windowMs * 2
        | None => false
        end
  then
    (alter (λ c, {| requests := recent; blocked := blocked c;
                    blockedAt := blockedAt c |}) clientId clients,
     true)
  else if Z.of_nat (length recent) >=? maxRequests then
    (<[clientId := {| requests := recent; blocked := true;
                      blockedAt := Some now |}]> clients,
     true)
  else
    (<[clientId := {| requests := recent ++ [now]; blocked := false;
                      blockedAt := blockedAt client |}]> clients,
     false).

(** The body of the timer set up by [cleanup()]. *)
Definition maxAge : Z := 2 * 60 * 60 * 1000.

(** [Math.max(...client.requests, client.blockedAt || 0)] *)
Definition lastRequest (client : Client) : Z :=
  foldr Z.max (default 0 (blockedAt client)) (requests client).

Definition cleanup (now : Z) (clients : gmap jsstring Client)
    : gmap jsstring Client :=
  foldl
    (λ acc entry,
       if now - lastRequest entry.2 >? maxAge then delete entry.1 acc else acc)
    clients (map_to_list clients).

(** The state that a series of calls for one client leaves, made when the
    clock shows the successive [times]. *)
Fixpoint served (clientId : jsstring) (maxRequests windowMs : Z)
    (times : list Z) (clients : gmap jsstring Client) : gmap jsstring Client :=
  match times with
  | [] => clients
  | now :: times' =>
      served clientId maxRequests windowMs times'
        (isRateLimited clientId maxRequests windowMs now clients).1
  end.

(** The verdicts of such a series of calls. *)
Fixpoint verdicts (clientId : jsstring) (maxRequests windowMs : Z)
    (times : list Z) (clients : gmap jsstring Client) : list bool :=
  match times with
  | [] => []
  | now :: times' =>
      (isRateLimited clientId maxRequests windowMs now clients).2
      :: verdicts clientId maxRequests windowMs times'
           (isRateLimited clientId maxRequests windowMs now clients).1
  end.

End RateLimiter.

(* ===================================================================== *)
(** * src/services/deepgram-service.js and src/websocket/handler.js: queries *)
(* ===================================================================== *)

Module Queries.

(** [getConnection(sessionId)]: the entry, or [null]. *)
Definition getConnection (sid : jsstring) (sv : Service) : option ConnectionData :=
  activeConnections sv !! sid.

(** An element of [stats.connections]. *)
Record Summary := {
  s_id : jsstring;
  s_isActive : bool;
  s_startTime : Z;
  s_audioChunks : Z;
  s_totalBytes : Z;
  s_sessionId : jsstring;
  s_channel : jsstring;
}.

(** The [stats] object of [getConnectionStats(activeStreams)] of the
    gateway. *)
Record Stats := {
  totalConnections : nat;
  activeConnections : Z;
  totalAudioChunks : Z;
  totalBytes : Z;
  connections : list Summary;
}.

(** The body of the loop of [getConnectionStats], for the entry
    [connectionId] whose object is [st]. *)
Definition account (stats : Stats) (connectionId : jsstring)
    (st : ConnectionState) : Stats :=
  {| totalConnections := totalConnections stats;
     activeConnections :=
       if isActive st then activeConnections stats + 1
       else activeConnections stats;
     totalAudioChunks := totalAudioChunks stats + audioChunks st;
     totalBytes := totalBytes stats + Handler.totalBytes st;
     connections :=
       connections stats ++
       [{| s_id := connectionId; s_isActive := isActive st;
           s_startTime := startTime st; s_audioChunks := audioChunks st;
           s_totalBytes := Handler.totalBytes st;
           s_sessionId := session (params st);
           s_channel := channel (params st) |}] |}.

(** [getConnectionStats(activeStreams)]. The entries are visited in the
    order of the model's map; an entry whose object is missing from the heap
    (which no run produces) is passed over. *)
Definition getConnectionStats (w : World) : Stats :=
  foldl
    (λ stats entry,
       match heap w !! entry.2 with
       | Some st => account stats entry.1 st
       | None => stats
       end)
    {| totalConnections := size (activeStreams w); activeConnections := 0;
       totalAudioChunks := 0; totalBytes := 0; connections := [] |}
    (map_to_list (activeStreams w)).

End Queries.

(** Calls on a backend connection. *)
Definition isBackendCall (e : Effect) : bool :=
  match e with
  | DgLive _ _ _ _ | DgSend _ _ | DgClose _ => true
  | _ => false
  end.

(** The state after two clients have connected with the same session. *)
Definition twinWorld : World :=
  (run frameWorld [Connection 8 (js "c2") frameQuery 2000 true; BackendOpen 1]).1.

(** The sum of [g] over the objects of the entries [entries]. *)
Definition tally (g : ConnectionState → Z) (h : gmap nat ConnectionState)
    (entries : list (jsstring * nat)) : Z :=
  foldr (λ entry acc,
           match h !! entry.2 with Some st => g st + acc | None => acc end)
        0 entries.

(* ===================================================================== *)
(** * Functions of the standard library used by the validators *)
(* ===================================================================== *)

Module Std.

(** The value of a code unit as a digit of the radix, if it is one. *)
Definition digitValue (radix c : Z) : option Z :=
  let v := if isDigit c then Some (c - 48)
           else if isLower c then Some (c - 87)
           else if isUpper c then Some (c - 55)
           else None in
  match v with
  | Some d => if d <? radix then Some d else None
  | None => None
  end.

(** The value of the longest prefix of digits; [acc] is the value read so
    far, [None] when no digit has been read. *)
Fixpoint digits (radix : Z) (acc : option Z) (s : jsstring) : option Z :=
  match s with
  | c :: s' =>
      match digitValue radix c with
      | Some d => digits radix (Some (radix * default 0 acc + d)) s'
      | None => acc
      end
  | [] => acc
  end.

(** ** Numbers

    A Number that is an integer or infinite is written as an integer:
    [infinity], which is 2^1024 and above every finite Number, stands for
    Infinity and its opposite for -Infinity, so that the order of the
    integers is the order of the Numbers; both zeros are 0. NaN is [None]
    where it can occur. *)
Definition infinity : Z := 2 ^ 1024.

(** The integer with at most 53 significant bits that is nearest to [n], the
    even one of two that are equally near. *)
Definition nearest (n : Z) : Z :=
  let m := Z.abs n in
  let e := Z.log2 m - 52 in
  if e <=? 0 then n
  else
    let q := m / 2 ^ e in
    let r := m mod 2 ^ e in
    let half := 2 ^ (e - 1) in
    let q := if (r >? half) || ((r =? half) && Z.odd q) then q + 1 else q in
    Z.sgn n * (q * 2 ^ e).

(** The Number value of the integer [n]: the nearest double, which is
    infinite from 2^1024 - 2^970 on. *)
Definition double (n : Z) : Z :=
  let r := nearest n in
  if infinity <=? Z.abs r then Z.sgn n * infinity else r.

(** [parseInt(s)] without a radix: leading white space is skipped, a sign is
    read, a prefix [0x] or [0X] selects radix 16, and the longest prefix of
    digits is read. [None] is [NaN]. The result is the Number value of the
    integer that the digits denote, as V8 computes it: it is that integer
    when it is below 2^53, and the nearest double otherwise. *)
Definition parseInt (s : jsstring) : option Z :=
  let s := trimStart s in
  let '(sign, s) :=
    match s with
    | 45 :: s' => (-1, s')
    | 43 :: s' => (1, s')
    | _ => (1, s)
    end in
  let '(radix, s) :=
    match s with
    | 48 :: x :: s' => if (x =? 120) || (x =? 88) then (16, s') else (10, s)
    | _ => (10, s)
    end in
  option_map (λ n, double (sign * n)) (digits radix None s).

(** [Math.round(n / d)] for an integer Number [n] and a power of two [d]:
    the division is exact and ties go up; an infinite [n] stays as it is. *)
Definition roundDiv (n d : Z) : Z :=
  if infinity <=? Z.abs n then n else (2 * n + d) / (2 * d).

(** [s.split(sep)] for a separator of one code unit. *)
Fixpoint split (sep : Z) (s : jsstring) : list jsstring :=
  match s with
  | [] => [[]]
  | c :: s' =>
      if c =? sep then [] :: split sep s'
      else match split sep s' with
           | x :: l => (c :: x) :: l
           | [] => [[c]]
           end
  end.

(** [s.toLowerCase()] on the ASCII letters. The source compares the result
    with words of the letters a, c, f, g, l, m, o, p, v, w and digits only,
    and no other character is mapped onto one of these letters, so that the
    comparisons are the same as with the full mapping. *)
Definition toLowerCase (s : jsstring) : jsstring :=
  map (λ c, if isUpper c then c + 32 else c) s.

(** The longest prefix of code units of a class, and the rest. *)
Fixpoint span (p : Z → bool) (s : jsstring) : jsstring * jsstring :=
  match s with
  | c :: s' => if p c then let '(a, b) := span p s' in (c :: a, b) else ([], s)
  | [] => ([], [])
  end.

End Std.

(* ===================================================================== *)
(** * src/utils/validation.js: audio files *)
(* ===================================================================== *)

Module AudioFiles.

Import Std.

(** ** [validateAudioBuffer(buffer)] *)

Inductive BufferError :=
| InvalidAudioBuffer
| EmptyAudioBuffer
| InvalidHeader.

(** The values of [headers], in the order of [Object.entries]: wav, mp3,
    mp3_alt, flac, ogg. *)
Definition headers : list (list byte) :=
  [ [x52; x49; x46; x46];
    [xff; xfb];
    [xff; xfa];
    [x66; x4c; x61; x43];
    [x4f; x67; x67; x53] ].

(** [header.every((byte, index) => buffer[index] === byte)] *)
Definition every (buffer header : list byte) : bool :=
  forallb (λ b : bool, b)
    (imap (λ index b,
             match buffer !! index with
             | Some x => Byte.eqb x b
             | None => false
             end) header).

(** The loop over [headers], which stops at the first match. *)
Definition knownHeader (buffer : list byte) : bool :=
  existsb (λ header, (length header <=? length buffer)%nat && every buffer header)
    headers.

(** [buffer.slice(start, end).toString('ascii')], for [end] within the
    buffer: decoding as ['ascii'] unsets the highest bit of every byte. *)
Definition asciiSlice (start end_ : nat) (buffer : list byte) : jsstring :=
  map (λ b, Z.land (Z.of_N (Byte.to_N b)) 127)
    (take (end_ - start) (drop start buffer)).

Definition validateAudioBuffer (buffer : Chunk) : Validated BufferError :=
  match buffer with
  | NotBuffer => {| isValid := false; errors := [InvalidAudioBuffer] |}
  | Buffer bytes =>
      if (length bytes =? 0)%nat
      then {| isValid := false; errors := [EmptyAudioBuffer] |}
      else
        let validHeader := knownHeader bytes in
        let validHeader :=
          if negb validHeader && (8 <=? length bytes)%nat
          then if bool_decide (asciiSlice 4 8 bytes = js "ftyp")
               then true else validHeader
          else validHeader in
        result (if negb validHeader then [InvalidHeader] else [])
  end.

(** ** [validateAudioFile(file)] *)

(** The two variables of [process.env] that the function reads; [None] is
    an unset variable. *)
Record Env := {
  MAX_FILE_SIZE : option jsstring;
  SUPPORTED_FORMATS : option jsstring;
}.

(** The file object that multer passes; [size] is a count of bytes, a
    finite integer Number; [buffer] is [None] when it is undefined. *)
Record File := {
  size : Z;
  mimetype : jsstring;
  originalname : jsstring;
  buffer : option Chunk;
}.

(** The entries of [errors]; the template strings carry the rounded sizes,
    the MIME type and the joined list. *)
Inductive FileError :=
| NoFile
| FileTooLarge (sizeMB maxMB : Z)
| FileTooSmall
| UnsupportedFormat (mimetype supported : jsstring)
| InvalidFilename
| InvalidFilenameFormat
| BufferProblem (e : BufferError).

(** [parseInt(process.env.MAX_FILE_SIZE) || 50 * 1024 * 1024], a Number; an
    unset variable is read as the string [undefined]. *)
Definition maxSize (env : Env) : Z :=
  match parseInt (default (js "undefined") (MAX_FILE_SIZE env)) with
  | Some n => if n =? 0 then 50 * 1024 * 1024 else n
  | None => 50 * 1024 * 1024
  end.

(** [(process.env.SUPPORTED_FORMATS || 'wav,mp3,m4a,flac').split(',')] *)
Definition supportedFormats (env : Env) : list jsstring :=
  split 44
    (match SUPPORTED_FORMATS env with
     | Some (c :: s) => c :: s
     | _ => js "wav,mp3,m4a,flac"
     end).

(** The [switch] of the [map] callback. *)
Definition mimeType (format : jsstring) : jsstring :=
  let lower := toLowerCase format in
  if bool_decide (lower = js "wav") then js "audio/wav"
  else if bool_decide (lower = js "mp3") then js "audio/mpeg"
  else if bool_decide (lower = js "m4a") then js "audio/m4a"
  else if bool_decide (lower = js "flac") then js "audio/flac"
  else if bool_decide (lower = js "ogg") then js "audio/ogg"
  else js "audio/" ++ format.

Definition allowedMimeTypes (env : Env) : list jsstring :=
  map mimeType (supportedFormats env).

(** The three members of [dangerousPatterns], as tests of a string: two
    dots before a slash or a backslash; one of the characters less-than,
    greater-than, colon, double quote, bar, question mark, star; a dot at
    the start or at the end. *)
Definition dangerousPatterns : list (jsstring → bool) :=
  [ test (Seq (Chr (only 46)) (Seq (Chr (only 46))
            (Chr (λ c, (c =? 47) || (c =? 92)))));
    test (Chr (λ c, (c =? 60) || (c =? 62) || (c =? 58) || (c =? 34)
                    || (c =? 124) || (c =? 63) || (c =? 42)));
    λ s, match s with 46 :: _ => true | _ => false end
         || match last s with Some 46 => true | _ => false end ].

Definition validateAudioFile (env : Env) (file : option File)
    : Validated FileError :=
  match file with
  | None => {| isValid := false; errors := [NoFile] |}
  | Some file =>
      let errs := [] in
      let errs :=
        if size file >? maxSize env
        then errs ++ [FileTooLarge (roundDiv (size file) (1024 * 1024))
                        (roundDiv (maxSize env) (1024 * 1024))]
        else errs in
      let errs := if size file <? 1024 then errs ++ [FileTooSmall] else errs in
      let errs :=
        if negb (bool_decide (mimetype file ∈ allowedMimeTypes env))
        then errs ++ [UnsupportedFormat (mimetype file)
                        (join (js ", ") (allowedMimeTypes env))]
        else errs in
      let errs :=
        if negb (nonempty (originalname file))
           || (Z.of_nat (length (originalname file)) >? 255)
        then errs ++ [InvalidFilename] else errs in
      let errs :=
        if existsb (λ pattern, pattern (originalname file)) dangerousPatterns
        then errs ++ [InvalidFilenameFormat] else errs in
      let errs :=
        match buffer file with
        | Some b =>
            let validation := validateAudioBuffer b in
            if negb (isValid validation)
            then errs ++ map BufferProblem (errors validation) else errs
        | None => errs
        end in
      result errs
  end.

End AudioFiles.

(* ===================================================================== *)
(** * src/routes/transcription.js: the size limit of uploads *)
(* ===================================================================== *)

Module Upload.

Import Std.

(** [units[unit] || 1] *)
Definition unitFactor (unit : jsstring) : Z :=
  if bool_decide (unit = js "B") then 1
  else if bool_decide (unit = js "KB") then 1024
  else if bool_decide (unit = js "MB") then 1024 ^ 2
  else if bool_decide (unit = js "GB") then 1024 ^ 3
  else 1.

(** [sizeStr.match(/^(\d+)([A-Z]{1,2})$/)]: the two groups. The digits of
    the first group are all the leading digits, since a letter must follow
    them. *)
Definition sizeMatch (sizeStr : jsstring) : option (jsstring * jsstring) :=
  let '(size, unit) := span isDigit sizeStr in
  if nonempty size && ((length unit =? 1)%nat || (length unit =? 2)%nat)
     && forallb isUpper unit
  then Some (size, unit) else None.

(** The pattern without its groups, for the matcher of the model. *)
Definition reSize : regex :=
  Seq (Plus (Chr isDigit)) (Seq (Chr isUpper) (Opt (Chr isUpper))).

(** [parseFileSize(sizeStr)]; [None] is [NaN]. The product is a Number. *)
Definition parseFileSize (sizeStr : jsstring) : option Z :=
  match sizeMatch sizeStr with
  | None => Some (50 * 1024 * 1024)
  | Some (size, unit) =>
      option_map (λ n, double (n * unitFactor unit)) (parseInt size)
  end.

End Upload.

(* ===================================================================== *)
(** * src/utils/validation.js: parameters *)
(* ===================================================================== *)

Module Params.

(** The properties of [params] that the validators read. *)
Record Raw := {
  language : JsValue;
  model : JsValue;
  channel : JsValue;
  session : JsValue;
  conversation : JsValue;
}.

(** The entries of [errors]; the two template strings carry the value. *)
Inductive ParamError :=
| ChannelRequired
| SessionRequired
| UnsupportedLanguage (v : JsValue)
| UnsupportedModel (v : JsValue)
| ChannelNotString
| InvalidChannelFormat
| SessionNotString
| SessionLength
| SessionChars
| ConversationNotString
| ConversationTooLong
| ConversationChars.

Definition validLanguages : list jsstring :=
  map js
    [ "en-US"; "en-GB"; "en-AU"; "en-CA"; "en-IN"; "en-NZ"; "en-ZA";
      "es-ES"; "es-MX"; "es-AR"; "es-CL"; "es-CO"; "es-PE"; "es-VE";
      "fr-FR"; "fr-CA";
      "de-DE"; "de-AT"; "de-CH";
      "it-IT";
      "pt-BR"; "pt-PT";
      "nl-NL"; "nl-BE";
      "ja-JP";
      "ko-KR";
      "zh-CN"; "zh-TW";
      "ru-RU";
      "ar-SA";
      "hi-IN";
      "tr-TR";
      "sv-SE";
      "da-DK";
      "no-NO";
      "fi-FI";
      "pl-PL";
      "cs-CZ";
      "sk-SK";
      "hu-HU";
      "ro-RO";
      "bg-BG";
      "hr-HR";
      "sl-SI";
      "et-EE";
      "lv-LV";
      "lt-LT";
      "mt-MT";
      "el-GR";
      "cy-GB";
      "ga-IE" ]%string.

Definition validModels : list jsstring :=
  [js "nova-2"; js "nova"; js "enhanced"; js "base"; js "whisper"].

(** [list.includes(v)]: only a string can be equal to a member. *)
Definition includes (l : list jsstring) (v : JsValue) : bool :=
  match v with
  | JString s => bool_decide (s ∈ l)
  | _ => false
  end.

(** [/^[a-zA-Z0-9_-]+$/] *)
Definition reId : regex :=
  Plus (Chr (λ c, isLower c || isUpper c || isDigit c || (c =? 95) || (c =? 45))).

(** [validateTranscriptionParams(params)]. The channel pattern is the one
    of the gateway. *)
Definition validateTranscriptionParams (params : Raw) : Validated ParamError :=
  let errs := [] in
  let errs :=
    if truthy (language params) && negb (includes validLanguages (language params))
    then errs ++ [UnsupportedLanguage (language params)] else errs in
  let errs :=
    if truthy (model params) && negb (includes validModels (model params))
    then errs ++ [UnsupportedModel (model params)] else errs in
  let errs :=
    if truthy (channel params) then
      match channel params with
      | JString s =>
          if negb (match_whole reChannel s)
          then errs ++ [InvalidChannelFormat] else errs
      | _ => errs ++ [ChannelNotString]
      end
    else errs in
  let errs :=
    if truthy (session params) then
      match session params with
      | JString s =>
          if (Z.of_nat (length s) >? 100) || (Z.of_nat (length s) <? 3)
          then errs ++ [SessionLength]
          else if negb (match_whole reId s) then errs ++ [SessionChars]
          else errs
      | _ => errs ++ [SessionNotString]
      end
    else errs in
  let errs :=
    if truthy (conversation params) then
      match conversation params with
      | JString s =>
          if Z.of_nat (length s) >? 100 then errs ++ [ConversationTooLong]
          else if negb (match_whole reId s) then errs ++ [ConversationChars]
          else errs
      | _ => errs ++ [ConversationNotString]
      end
    else errs in
  result errs.

(** [validateWebSocketParams(params)] of validation.js. *)
Definition validateWebSocketParams (params : Raw) : Validated ParamError :=
  let errs := [] in
  let errs :=
    if negb (truthy (channel params)) then errs ++ [ChannelRequired] else errs in
  let errs :=
    if negb (truthy (session params)) then errs ++ [SessionRequired] else errs in
  let transcriptionValidation := validateTranscriptionParams params in
  let errs :=
    if negb (isValid transcriptionValidation)
    then errs ++ errors transcriptionValidation else errs in
  result errs.

(** The sanitised parameters of the gateway, as a [params] object. *)
Definition ofParams (p : Handler.Params) : Raw :=
  {| language := JString (Handler.language p);
     model := JString (Handler.model p);
     channel := JString (Handler.channel p);
     session := JString (Handler.session p);
     conversation := JString (Handler.conversation p) |}.

End Params.

(* ===================================================================== *)
(** * src/middleware/error-handler.js: parameters of a WebSocket *)
(* ===================================================================== *)

Module Middleware.

(** The object [sanitized]; [None] is a property that was not set. *)
Record Sanitized := {
  channel : option jsstring;
  session : option jsstring;
  conversation : option jsstring;
  user : option jsstring;
  language : option jsstring;
  model : option jsstring;
}.

Inductive ParamError :=
| MissingRequired (param : jsstring)
| InvalidChannelFormat
| InvalidSessionFormat
| InvalidLanguageFormat
| InvalidModel.

Record Checked := {
  isValid : bool;
  errors : list ParamError;
  sanitized : Sanitized;
}.

(** What the two loops store for the property whose value is [v]. *)
Definition store (v : JsValue) : option jsstring :=
  if truthy v then Some (sanitizeInput v (withMaxLength 100)) else None.

(** [sanitized.x && !test(sanitized.x)] *)
Definition fails (x : option jsstring) (ok : jsstring → bool) : bool :=
  match x with
  | Some s => nonempty s && negb (ok s)
  | None => false
  end.

(** [validateWebSocketParams(params)] of the middleware. The patterns and
    the models are those of the gateway. *)
Definition validateWebSocketParams (params : Query) : Checked :=
  let errs := [] in
  let errs :=
    if negb (truthy (q_channel params))
    then errs ++ [MissingRequired (js "channel")] else errs in
  let errs :=
    if negb (truthy (q_session params))
    then errs ++ [MissingRequired (js "session")] else errs in
  let sanitized :=
    {| channel := store (q_channel params);
       session := store (q_session params);
       conversation := store (q_conversation params);
       user := store (q_user params);
       language := store (q_language params);
       model := store (q_model params) |} in
  let errs :=
    if fails (channel sanitized) (match_whole reChannel)
    then errs ++ [InvalidChannelFormat] else errs in
  let errs :=
    if fails (session sanitized) (match_whole Params.reId)
    then errs ++ [InvalidSessionFormat] else errs in
  let errs :=
    if fails (language sanitized) (match_whole reLanguage)
    then errs ++ [InvalidLanguageFormat] else errs in
  let errs :=
    if fails (model sanitized) (λ s, bool_decide (s ∈ Handler.validModels))
    then errs ++ [InvalidModel] else errs in
  {| isValid := (length errs =? 0)%nat; errors := errs; sanitized := sanitized |}.

(** ** [sanitizeObjectRecursive(obj, depth)]

    A parsed request body is a tree: no value is shared, so that the
    assignments in place amount to building the tree again. *)
#[warnings="-register-all"]
Inductive Json :=
| JStr (s : jsstring)
| JObj (entries : list (jsstring * Json))
| JArr (items : list Json)
| JOther (v : JsValue).          (* a number, a boolean, null *)

(** The function is called on objects and, for an array inside an array,
    on arrays, whose entries are then those of [Object.entries]. [visit] is
    the body of the [for] loop for one value, the inner function the
    callback of [forEach]. *)
Fixpoint sanitizeObjectRecursive (obj : Json) (depth : Z) {struct obj} : Json :=
  if depth >? 10 then obj
  else
    let visit (value : Json) : Json :=
      match value with
      | JStr s => JStr (sanitizeInput (JString s) (withMaxLength 10000))
      | JObj _ => sanitizeObjectRecursive value (depth + 1)
      | JArr items =>
          JArr (map (λ item,
                       match item with
                       | JStr s =>
                           JStr (sanitizeInput (JString s) (withMaxLength 1000))
                       | JObj _ | JArr _ => sanitizeObjectRecursive item (depth + 1)
                       | JOther _ => item
                       end) items)
      | JOther _ => value
      end in
    match obj with
    | JObj entries =>
        JObj (map (λ entry, match entry with (key, value) => (key, visit value) end)
                entries)
    | JArr items => JArr (map visit items)
    | _ => obj
    end.

(** The object [obj] under the keys [path], each object having one
    property. *)
Fixpoint nest (path : list jsstring) (obj : Json) : Json :=
  match path with
  | [] => obj
  | key :: path' => JObj [(key, nest path' obj)]
  end.

(** ** [validatePagination(options)] *)

Record PageOptions := { maxLimit : Z; defaultLimit : Z }.

(** The three properties of [req.query] that the middleware reads, each a
    string or undefined. *)
Record PageQuery := {
  limit : option jsstring;
  offset : option jsstring;
  page : option jsstring;
}.

(** What it stores in [req.query], three Numbers; [paged_page] is [None]
    when the property [page] is left as it was. The options are finite
    integer Numbers. *)
Record Paged := { paged_limit : Z; paged_offset : Z; paged_page : option Z }.

(** [parseInt(v) || d] *)
Definition parseIntOr (v : option jsstring) (d : Z) : Z :=
  match Std.parseInt (default (js "undefined") v) with
  | Some n => if n =? 0 then d else n
  | None => d
  end.

Definition validatePagination (o : PageOptions) (query : PageQuery) : Paged :=
  let limit_ := parseIntOr (limit query) (defaultLimit o) in
  let limit_ := if limit_ >? maxLimit o then maxLimit o else limit_ in
  let limit_ := if limit_ <? 1 then 1 else limit_ in
  let offset_ := parseIntOr (offset query) 0 in
  let offset_ := if offset_ <? 0 then 0 else offset_ in
  match page query with
  | Some (c :: s) =>
      let page_ := parseIntOr (Some (c :: s)) 1 in
      let page_ := if page_ <? 1 then 1 else page_ in
      {| paged_limit := limit_;
         paged_offset := Std.double (Std.double (page_ - 1) * limit_);
         paged_page := Some page_ |}
  | _ => {| paged_limit := limit_; paged_offset := offset_; paged_page := None |}
  end.

End Middleware.

(* ===================================================================== *)
(** * src/routes/slack.js and src/services/slack-service.js: the URL of a
      transcription session *)
(* ===================================================================== *)

Module Slack.

(** [parseCommandParams(text)]: the own properties of [params]. Assigning a
    string to the key [__proto__] of an object literal sets no property. *)
Definition parseCommandParams (text : jsstring) : gmap jsstring jsstring :=
  if negb (nonempty text) then ∅
  else
    foldl (λ params pair,
             match Std.split 61 pair with
             | key :: value :: _ =>
                 if nonempty key && nonempty value
                 then if bool_decide (key = js "__proto__") then params
                      else <[key := value]> params
                 else params
             | _ => params
             end)
      ∅ (Std.split 32 text).

(** A property value of the object given to [URLSearchParams]. *)
Inductive Field :=
| Text (s : jsstring)
| Undefined
| Null.

(** [params.x] *)
Definition prop (params : gmap jsstring jsstring) (x : string) : Field :=
  match params !! js x with Some s => Text s | None => Undefined end.

(** [params.x || other] *)
Definition propOr (params : gmap jsstring jsstring) (x : string) (other : Field)
    : Field :=
  match params !! js x with Some (c :: s) => Text (c :: s) | _ => other end.

(** The argument of [generateWebSocketUrl] in [handleTranscribeSlashCommand]
    of routes/slack.js; [generated] is the session name made from the clock
    and a random number. *)
Definition slashCommandUrlParams (text channelId userId generated : jsstring)
    : gmap jsstring Field :=
  let params := parseCommandParams text in
  let sessionId := propOr params "session" (Text generated) in
  {[ js "channel" := Text channelId;
     js "session" := sessionId;
     js "conversation" := prop params "conversation";
     js "user" := Text userId;
     js "language" := prop params "language";
     js "model" := prop params "model" ]}.

(** The argument of [generateWebSocketUrl] in [handleTranscribeCommand] of
    slack-service.js: four properties, then the spread of [params]. *)
Definition commandUrlParams (text channelId userId generated : jsstring)
    : gmap jsstring Field :=
  let params := parseCommandParams text in
  let sessionId := propOr params "session" (Text generated) in
  let conversationId := propOr params "conversation" Null in
  (Text <$> params)
  ∪ {[ js "channel" := Text channelId;
       js "session" := sessionId;
       js "conversation" := conversationId;
       js "user" := Text userId ]}.

(** The text that [URLSearchParams] makes of a value. *)
Definition toText (f : Field) : jsstring :=
  match f with
  | Text s => s
  | Undefined => js "undefined"
  | Null => js "null"
  end.

(** The query that the gateway reads from the URL that [generateWebSocketUrl]
    makes of [params]: [URLSearchParams] lists every own property with the
    text of its value, percent-encoded, and [url.parse(req.url, true).query]
    decodes these texts and gives them back under their names (texts of
    well-formed Unicode come back unchanged). A name that is absent reads as
    undefined. *)
Definition queryValue (params : gmap jsstring Field) (x : string) : JsValue :=
  match params !! js x with
  | Some f => JString (toText f)
  | None => JUndefined
  end.

Definition gatewayQuery (params : gmap jsstring Field) : Query :=
  {| q_channel := queryValue params "channel";
     q_session := queryValue params "session";
     q_conversation := queryValue params "conversation";
     q_user := queryValue params "user";
     q_language := queryValue params "language";
     q_model := queryValue params "model" |}.

End Slack.

(** The reason that the gateway gives when it refuses the parameters. *)
Definition refusal (p : Params) : jsstring :=
  js "Invalid parameters: " ++ join (js ", ") (errors (validateConnectionParams p)).

(** Channel and session are missing and language and model are refused:
    the four errors that can come together. *)
Definition fourErrors (p : Params) : bool :=
  negb (nonempty (channel p)) && negb (nonempty (session p))
  && (nonempty (language p) && negb (match_whole reLanguage (language p)))
  && (nonempty (model p) && negb (bool_decide (model p ∈ validModels))).

(** A query without channel and session, with a language and a model that
    the gateway refuses. *)
Definition fourErrorQuery : Query :=
  {| q_channel := JUndefined; q_session := JUndefined;
     q_conversation := JUndefined; q_user := JUndefined;
     q_language := JString (js "english"); q_model := JString (js "gpt") |}.

(** The text frame of a [stop] message: an opening brace, the quoted word
    type, a colon, the quoted word stop, a closing brace. *)
Definition stopFrame : Frame :=
  Text [x7b; x22; x74; x79; x70; x65; x22; x3a; x22; x73; x74; x6f; x70; x22; x7d].


(* ===================================================================== *)
(** * Sanity checks of the string functions *)
(* ===================================================================== *)

Example trim_ex : trim (js "  a b ") = js "a b".
Proof. reflexivity. Qed.
Example re_ex1 : replace_all (Seq (LitCi "on") (Seq (Plus (Chr isWord)) (Seq (Star true (Chr isWhite)) (Chr (only 61))))) [] (js "x onClick = 1 ONload=2") = js "x  1 2".
Proof. vm_compute. reflexivity. Qed.

Example sanitize_ex1 :
  sanitizeInput (JString (js " <b>Drop; it's</b> ")) (withMaxLength 100)
  = js "&ltb&gt;; it&#x27;s&lt;&#x2F;b&gt;".
Proof. vm_compute. reflexivity. Qed.

(* ===================================================================== *)
(** * Properties of the regular-expression functions *)
(* ===================================================================== *)

Section Matching.

Implicit Types (r : regex) (s rest rep : jsstring) (P : Z → Prop).

(** Whatever the matcher returns was returned by its continuation, called
    on a suffix of the input. *)
Lemma rmatch_suffix r : ∀ s k x,
  rmatch r s k = Some x → ∃ s', s' `suffix_of` s ∧ k s' = Some x.
Proof.
  induction r as [|p|r1 IH1 r2 IH2|r1 IH1 r2 IH2|g r1 IH1]; intros s k x H; simpl in H.
  - by exists s.
  - destruct s as [|c s0]; [done|]. destruct (p c); [|done].
    exists s0. split; [|done]. by apply suffix_cons_r.
  - apply IH1 in H as (s1 & Hs1 & H). apply IH2 in H as (s2 & Hs2 & H).
    exists s2. split; [|done]. by etrans.
  - destruct (rmatch r1 s k) eqn:E.
    + inversion H; subst. by apply IH1 in E.
    + by apply IH2 in H.
  - revert H. generalize (length s). intros n. revert s x.
    induction n as [|n IHn]; intros s x H.
    + exists s. split; [done|]. simpl in H. destruct g; [done|]. by destruct (k s).
    + assert (Hmore : ∀ y,
        rmatch r1 s (λ s', if (length s' <? length s)%nat
                           then star g (rmatch r1) k n s' else None) = Some y →
        ∃ s', s' `suffix_of` s ∧ k s' = Some y).
      { intros y Hy. apply IH1 in Hy as (s1 & Hs1 & Hy).
        destruct (length s1 <? length s)%nat; [|done].
        apply IHn in Hy as (s2 & Hs2 & Hy). exists s2. split; [by etrans|done]. }
      simpl in H. destruct g.
      * destruct (rmatch r1 s _) eqn:E in H.
        -- inversion H; subst. by apply Hmore.
        -- by exists s.
      * destruct (k s) eqn:E.
        -- inversion H; subst. by exists s.
        -- by apply Hmore.
Qed.

Lemma match_here_suffix r s rest :
  match_here r s = Some rest → rest `suffix_of` s.
Proof.
  intros H. apply rmatch_suffix in H as (s' & Hs & H). by inversion H; subst.
Qed.

Lemma Forall_suffix P s rest : rest `suffix_of` s → Forall P s → Forall P rest.
Proof. intros [pre ->] H. by apply Forall_app in H as [_ H]. Qed.

Lemma search_Forall P r s pre rest :
  search r s = Some (pre, rest) → Forall P s → Forall P pre ∧ Forall P rest.
Proof.
  revert pre rest. induction s as [|c s IH]; intros pre rest H Hs; simpl in H.
  - destruct (match_here r []) eqn:E; [|done]. inversion H; subst.
    split; [done|]. eapply Forall_suffix; [exact (match_here_suffix _ _ _ E)|done].
  - destruct (match_here r (c :: s)) eqn:E.
    + inversion H; subst. split; [done|].
      eapply Forall_suffix; [exact (match_here_suffix _ _ _ E)|done].
    + destruct (search r s) as [[pre' rest']|] eqn:E'; [|done].
      inversion H; subst. inversion Hs; subst.
      destruct (IH pre' rest eq_refl) as [? ?]; [done|]. split; [by constructor|done].
Qed.

(** Replacing keeps every property of the code units that the replacement
    text has too. *)
Lemma replace_first_Forall P r rep s :
  Forall P rep → Forall P s → Forall P (replace_first r rep s).
Proof.
  intros Hrep Hs. unfold replace_first.
  destruct (search r s) as [[pre rest]|] eqn:E; [|done].
  destruct (search_Forall P r s pre rest E Hs) as [? ?].
  by repeat (apply Forall_app; split).
Qed.

Lemma replace_all_from_Forall P r rep n : ∀ s,
  Forall P rep → Forall P s → Forall P (replace_all_from n r rep s).
Proof.
  induction n as [|n IH]; intros s Hrep Hs; simpl; [done|].
  destruct (match_here r s) as [rest|] eqn:E.
  - destruct (length rest <? length s)%nat.
    + apply Forall_app; split; [done|]. apply IH; [done|].
      eapply Forall_suffix; [exact (match_here_suffix _ _ _ E)|done].
    + destruct s as [|c s]; [done|]. inversion Hs; subst.
      apply Forall_app; split; [done|]. constructor; [done|]. by apply IH.
  - destruct s as [|c s]; [done|]. inversion Hs; subst. constructor; [done|].
    by apply IH.
Qed.

Lemma replace_all_Forall P r rep s :
  Forall P rep → Forall P s → Forall P (replace_all r rep s).
Proof. apply replace_all_from_Forall. Qed.

(** Replacing every code unit of a class by a text without any leaves none. *)
Lemma replace_all_from_Chr (p : Z → bool) rep n : ∀ s,
  (length s < n)%nat →
  Forall (λ c, p c = false) rep →
  Forall (λ c, p c = false) (replace_all_from n (Chr p) rep s).
Proof.
  induction n as [|n IH]; intros s Hn Hrep; [lia|]. simpl.
  destruct s as [|c s]; unfold match_here; simpl; [done|].
  destruct (p c) eqn:E; simpl.
  - replace (length s <? S (length s))%nat with true
      by (symmetry; apply Nat.ltb_lt; lia).
    apply Forall_app; split; [done|]. apply IH; [simpl in Hn; lia|done].
  - constructor; [done|]. apply IH; [simpl in Hn; lia|done].
Qed.

Lemma replace_all_Chr (p : Z → bool) rep s :
  Forall (λ c, p c = false) rep →
  Forall (λ c, p c = false) (replace_all (Chr p) rep s).
Proof. apply replace_all_from_Chr. lia. Qed.

End Matching.

(* ===================================================================== *)
(** * sanitizeInput *)
(* ===================================================================== *)

Section Sanitizing.

Implicit Types (s : jsstring) (P : Z → Prop).

Local Ltac literal := vm_compute; repeat constructor.

Lemma escapeHtml_clean s (c : Z) :
  c = 60 ∨ c = 62 ∨ c = 34 →
  Forall (λ x, only c x = false) (escapeHtml s).
Proof.
  intros Hc. unfold escapeHtml.
  destruct Hc as [->|[->| ->]].
  - do 4 (apply replace_all_Forall; [literal|]). apply replace_all_Chr. literal.
  - do 3 (apply replace_all_Forall; [literal|]). apply replace_all_Chr. literal.
  - do 2 (apply replace_all_Forall; [literal|]). apply replace_all_Chr. literal.
Qed.

Lemma sqlPatterns_Forall P (pats : list regex) : ∀ s,
  Forall P s →
  Forall P (fold_left (λ acc p, if test p acc then replace_first p [] acc else acc)
              pats s).
Proof.
  induction pats as [|p pats IH]; intros s Hs; simpl; [done|].
  apply IH. destruct (test p s); [|done]. by apply replace_first_Forall.
Qed.

Lemma scriptPatterns_Forall P (pats : list regex) : ∀ s,
  Forall P s →
  Forall P (fold_left (λ acc p, if test p acc then replace_all p [] acc else acc)
              pats s).
Proof.
  induction pats as [|p pats IH]; intros s Hs; simpl; [done|].
  apply IH. destruct (test p s); [|done]. by apply replace_all_Forall.
Qed.

Lemma restricted_intro s :
  Forall (λ x, only 60 x = false) s →
  Forall (λ x, only 62 x = false) s →
  Forall (λ x, only 34 x = false) s →
  Forall (λ x, isControl x = false) s →
  restricted s.
Proof.
  rewrite !Forall_forall. intros H1 H2 H3 H4 c Hc.
  specialize (H1 c Hc). specialize (H2 c Hc). specialize (H3 c Hc).
  specialize (H4 c Hc). unfold only, isControl, between in *. lia.
Qed.

Lemma restricted_nil : restricted [].
Proof. intros c Hc. by apply elem_of_nil in Hc. Qed.

Lemma sanitizeInput_noHtml input o :
  allowHtml o = false → restricted (sanitizeInput input o).
Proof.
  intros Hhtml. unfold sanitizeInput.
  destruct (negb (truthy input) || negb (typeofString input));
    [apply restricted_nil|].
  destruct input as [| | | |s|]; try apply restricted_nil.
  rewrite Hhtml. simpl negb. cbv zeta.
  set (s2 := if _ >? _ then _ else _).
  apply restricted_intro;
    apply scriptPatterns_Forall, sqlPatterns_Forall.
  1-3: apply replace_all_Forall; [done|];
       destruct (negb (allowSpecialChars o));
       [apply replace_all_Forall; [done|]|]; apply escapeHtml_clean; auto.
  by apply replace_all_Chr.
Qed.

Lemma sanitizeInput_nonString input o :
  truthy input = false ∨ typeofString input = false → sanitizeInput input o = [].
Proof.
  intros [H|H]; unfold sanitizeInput; rewrite H; simpl; [done|].
  by rewrite orb_true_r.
Qed.

End Sanitizing.

(** C9. With [allowHtml] false, [sanitizeInput] returns a string without
    ['<'], ['>'], double quote and ASCII control characters; it returns the
    empty string for every falsy or non-string input; hence each of the six
    connection parameters, sanitised with the default [allowHtml], obeys the
    same restrictions. *)
Theorem sanitizeInput_restricted :
  (∀ input o, allowHtml o = false → restricted (sanitizeInput input o))
  ∧ (∀ input o, truthy input = false ∨ typeofString input = false →
       sanitizeInput input o = [])
  ∧ (∀ query,
       let p := sanitizeConnectionParams query in
       restricted (channel p) ∧ restricted (session p)
       ∧ restricted (conversation p) ∧ restricted (user p)
       ∧ restricted (language p) ∧ restricted (model p)).
Proof.
  split; [exact sanitizeInput_noHtml|]. split; [exact sanitizeInput_nonString|].
  intros query p. subst p. unfold sanitizeConnectionParams. simpl.
  repeat apply conj; by apply sanitizeInput_noHtml.
Qed.

Lemma sanitizeInput_restricted_witness :
  restricted (sanitizeInput (JString (js "<b>Drop; it's</b>")) (withMaxLength 100))
  ∧ sanitizeInput (JNumber 7) (withMaxLength 100) = [].
Proof.
  split.
  - apply (proj1 sanitizeInput_restricted). reflexivity.
  - apply (proj1 (proj2 sanitizeInput_restricted)). right. reflexivity.
Defined.

(* ===================================================================== *)
(** * Audio frames *)
(* ===================================================================== *)

Section Frames.

Lemma listening_Some w sock l st :
  listening w sock = Some (l, st) ↔
  listeners w !! sock = Some l ∧ heap w !! l = Some st.
Proof.
  unfold listening. split.
  - intros H. destruct (listeners w !! sock) as [l'|]; simpl in H; [|done].
    destruct (heap w !! l') as [st'|] eqn:E; simpl in H; [|done].
    by inversion H; subst.
  - intros [-> H]. simpl. by rewrite H.
Qed.

(** The gateway's call of [validateAudioStream] accepts a buffer exactly
    when its length is within 160 and 8192, both included. *)
Lemma validateAudioStream_bounds audio :
  isValid (validateAudioStream (Buffer audio)
             {| maxChunkSize := 8192; minChunkSize := 160; allowEmpty := false |})
  = true ↔ inBounds audio.
Proof.
  unfold validateAudioStream, inBounds, result. simpl.
  set (len := Z.of_nat (length audio)).
  destruct (len =? 0) eqn:E0; simpl.
  - apply Z.eqb_eq in E0. split; [done|lia].
  - apply Z.eqb_neq in E0.
    destruct (len >? 8192) eqn:E1; destruct (len <? 160) eqn:E2;
      destruct (len >? 0) eqn:E3; simpl; split; try done; lia.
Qed.

Lemma setHeap_id w l st :
  heap w !! l = Some st → setService (service w) (setHeap (<[l := st]> (heap w)) w) = w.
Proof. intros H. destruct w. unfold setService, setHeap. simpl in *. by rewrite insert_id. Qed.

(** The step taken for a frame outside the bounds. *)
Lemma step_frame_rejected w sock l st audio :
  listening w sock = Some (l, st) → ¬ inBounds audio →
  step w (Message sock (Binary audio)) = (w, [Log LWarn "Invalid audio data"]).
Proof.
  intros Hl Hb. apply listening_Some in Hl as Hl'. destruct Hl' as [_ Hh].
  simpl. rewrite Hl. unfold onMessage, handleWebSocketMessage.
  cbv zeta.
  destruct (isValid _) eqn:E; [by apply validateAudioStream_bounds in E|].
  simpl. by rewrite setHeap_id.
Qed.

(** The step taken for a frame within the bounds. *)
Lemma step_frame_accepted w sock l st audio :
  listening w sock = Some (l, st) → inBounds audio →
  step w (Message sock (Binary audio)) =
    (setHeap (<[l := countChunk st (Z.of_nat (length audio))]> (heap w)) w,
     match deepgramConnection st with
     | Some h =>
         if isConnected (service w) h then [DgSend h audio]
         else [Log LWarn "Deepgram connection not ready"]
     | None => [Log LWarn "Deepgram connection not ready"]
     end).
Proof.
  intros Hl Hb. apply validateAudioStream_bounds in Hb.
  simpl. rewrite Hl. unfold onMessage, handleWebSocketMessage.
  cbv zeta. rewrite Hb. simpl negb. cbv iota.
  assert (Hset : ∀ h, setService (service w) (setHeap h w) = setHeap h w)
    by (intros; by destruct w).
  destruct (deepgramConnection st) as [h|]; simpl; [|by rewrite Hset].
  unfold sendAudio, isConnected.
  destruct (backends (service w) !! h) as [b|]; simpl; [|by rewrite Hset].
  destruct (readyState b =? 1); simpl; by rewrite Hset.
Qed.

End Frames.

(** C2. On a connection whose listeners are registered (an Active
    connection), a binary frame within the bounds (160 to 8192 bytes, both
    included) is forwarded if and only if the handle is connected at that
    moment, and then it is the only call made; a frame outside the bounds is
    not forwarded whatever the state, nothing is sent to the client, the
    client socket is not closed and the connection keeps its listeners. *)
Theorem frame_forwarding w sock l st audio :
  listening w sock = Some (l, st) →
  let r := step w (Message sock (Binary audio)) in
  (inBounds audio →
     (forwarded r.2 = true ↔
        ∃ h, deepgramConnection st = Some h ∧ isConnected (service w) h = true)
     ∧ (∀ h, deepgramConnection st = Some h → isConnected (service w) h = true →
          r.2 = [DgSend h audio]))
  ∧ (¬ inBounds audio →
       forwarded r.2 = false
       ∧ existsb isClientSend r.2 = false
       ∧ existsb isClientClose r.2 = false
       ∧ clients r.1 = clients w
       ∧ listening r.1 sock = Some (l, st)).
Proof.
  intros Hl r. subst r. split; intros Hb.
  - rewrite (step_frame_accepted w sock l st audio Hl Hb). simpl.
    destruct (deepgramConnection st) as [h|]; simpl.
    + destruct (isConnected (service w) h) eqn:E; simpl.
      * split; [|by intros ? [= <-] _]. split; [|done]. intros _. by exists h.
      * split; [|by intros ? [= <-]; congruence].
        split; [done|]. intros (h' & [= <-] & ?). congruence.
    + split; [|done]. split; [done|]. by intros (h' & ? & _).
  - by rewrite (step_frame_rejected w sock l st audio Hl Hb).
Qed.

Lemma frame_forwarding_witness :
  forwarded (step frameWorld (Message 7 (Binary (repeat x01 50)))).2 = false
  ∧ (step frameWorld (Message 7 (Binary (repeat x01 160)))).2
    = [DgSend 0 (repeat x01 160)].
Proof.
  assert (Hl : ∃ st, listening frameWorld 7 = Some (0%nat, st)
                     ∧ deepgramConnection st = Some 0%nat)
    by (eexists; split; vm_compute; reflexivity).
  destruct Hl as (st & Hl & Hh).
  split.
  - apply (frame_forwarding frameWorld 7 0%nat st (repeat x01 50) Hl).
    unfold inBounds. vm_compute. intros [H _]. by apply H.
  - apply (proj1 (frame_forwarding frameWorld 7 0%nat st (repeat x01 160) Hl)).
    + unfold inBounds. vm_compute. split; discriminate.
    + exact Hh.
    + vm_compute. reflexivity.
Defined.

(** C10. A frame within the bounds adds 1 to [audioChunks] and its length to
    [totalBytes] of the connection's object and leaves the other fields as
    they were, whether or not the handle is connected; a frame outside the
    bounds leaves the object, and the whole state, unchanged. *)
Theorem frame_counters w sock l st audio :
  listening w sock = Some (l, st) →
  let r := step w (Message sock (Binary audio)) in
  (inBounds audio →
     ∃ st', heap r.1 !! l = Some st'
       ∧ audioChunks st' = audioChunks st + 1
       ∧ totalBytes st' = totalBytes st + Z.of_nat (length audio)
       ∧ id st' = id st ∧ ws st' = ws st ∧ params st' = params st
       ∧ deepgramConnection st' = deepgramConnection st
       ∧ isActive st' = isActive st ∧ startTime st' = startTime st)
  ∧ (¬ inBounds audio → heap r.1 !! l = Some st ∧ r.1 = w).
Proof.
  intros Hl r. subst r. split; intros Hb.
  - rewrite (step_frame_accepted w sock l st audio Hl Hb). simpl.
    exists (countChunk st (Z.of_nat (length audio))).
    by rewrite lookup_insert_eq.
  - rewrite (step_frame_rejected w sock l st audio Hl Hb). simpl.
    by apply listening_Some in Hl as [_ ?].
Qed.

Lemma frame_counters_witness :
  ∃ st', heap (step frameWorld (Message 7 (Binary (repeat x01 200)))).1
           !! 0%nat = Some st'
    ∧ audioChunks st' = audioChunks frameState + 1
    ∧ totalBytes st' = totalBytes frameState + Z.of_nat (length (repeat x01 200)).
Proof.
  assert (Hl : listening frameWorld 7 = Some (0%nat, frameState))
    by (vm_compute; reflexivity).
  destruct (proj1 (frame_counters frameWorld 7 0%nat frameState (repeat x01 200) Hl))
    as (st' & H1 & H2 & H3 & _).
  - unfold inBounds. vm_compute. split; discriminate.
  - exists st'. exact (conj H1 (conj H2 H3)).
Defined.

(* ===================================================================== *)
(** * Connection parameters *)
(* ===================================================================== *)

Example reChannel_ex :
  map (match_whole reChannel) [js "#test"; js "@bob_1"; js "a-b"; js "##x"; js "a b"; js "#"; js ""]
  = [true; true; true; false; false; false; false].
Proof. vm_compute. reflexivity. Qed.

Example reLanguage_ex :
  map (match_whole reLanguage) [js "en-US"; js "fr"; js "en-us"; js "eng"; js "en-"; js "EN"]
  = [true; true; false; false; false; false].
Proof. vm_compute. reflexivity. Qed.

Section Parameters.

(** Which parameter sets [validateConnectionParams] rejects. *)
Lemma nonempty_false (s : jsstring) : nonempty s = false ↔ s = [].
Proof. by destruct s. Qed.

Lemma nonempty_true (s : jsstring) : nonempty s = true ↔ s ≠ [].
Proof. by destruct s. Qed.

(** The verdict is the negation of the disjunction of the five tests. *)
Lemma validateConnectionParams_isValid p :
  isValid (validateConnectionParams p) =
  negb (negb (nonempty (channel p))
        || negb (nonempty (session p))
        || nonempty (channel p) && negb (match_whole reChannel (channel p))
        || nonempty (language p) && negb (match_whole reLanguage (language p))
        || nonempty (model p) && negb (bool_decide (model p ∈ validModels))).
Proof.
  unfold validateConnectionParams, result.
  generalize (negb (nonempty (channel p))) as c1.
  generalize (negb (nonempty (session p))) as c2.
  generalize (nonempty (channel p) && negb (match_whole reChannel (channel p))) as c3.
  generalize (nonempty (language p) && negb (match_whole reLanguage (language p))) as c4.
  generalize (nonempty (model p) && negb (bool_decide (model p ∈ validModels))) as c5.
  by intros [] [] [] [] [].
Qed.

Lemma validateConnectionParams_invalid p :
  isValid (validateConnectionParams p) = false ↔
  channel p = [] ∨ session p = []
  ∨ match_whole reChannel (channel p) = false
  ∨ (language p ≠ [] ∧ match_whole reLanguage (language p) = false)
  ∨ (model p ≠ [] ∧ model p ∉ validModels).
Proof.
  rewrite validateConnectionParams_isValid, negb_false_iff, !orb_true_iff,
    !andb_true_iff, !negb_true_iff, !nonempty_false, !nonempty_true,
    bool_decide_eq_false.
  split; [tauto|]. intros [H|[H|[H|[H|H]]]]; try tauto.
  destruct (channel p) as [|c s] eqn:E; [tauto|]. left. left. right. done.
Qed.

Lemma result_invalid {E} (errs : list E) :
  isValid (result errs) = false → errors (result errs) ≠ [].
Proof. by destruct errs. Qed.

Lemma validateConnectionParams_errors p :
  isValid (validateConnectionParams p) = false → errors (validateConnectionParams p) ≠ [].
Proof. unfold validateConnectionParams. cbv zeta. apply result_invalid. Qed.

(** The reason is longer than 123 bytes exactly when the four errors come
    together: it is then 130 bytes long, and at most 123 otherwise. *)
Lemma refusal_length p : (byteLength (refusal p) >? 123) = fourErrors p.
Proof.
  unfold refusal, fourErrors, validateConnectionParams, result.
  cbn [errors].
  generalize (nonempty (language p) && negb (match_whole reLanguage (language p)))
    as c4.
  generalize (nonempty (model p) && negb (bool_decide (model p ∈ validModels)))
    as c5.
  generalize (negb (match_whole reChannel (channel p))) as c3.
  destruct (nonempty (channel p)); destruct (nonempty (session p));
    intros [] [] []; vm_compute; reflexivity.
Qed.

(** What [ws.close] does on an open socket, and on one that is closing. *)
Lemma wsClose_open sock code reason w :
  clients w !! sock = Some OPEN →
  wsClose sock code reason w =
  (setClients (<[sock := 2]> (clients w)) w,
   if byteLength reason >? 123 then ([], Throws)
   else ([WsClose sock code reason], Normal)).
Proof.
  intros H. unfold wsClose. rewrite bool_decide_eq_true_2 by done.
  by destruct (byteLength reason >? 123).
Qed.

Lemma wsClose_closing sock code reason w :
  clients w !! sock = Some 2 → wsClose sock code reason w = (w, ([], Normal)).
Proof.
  intros H. unfold wsClose. rewrite bool_decide_eq_false_2; [done|].
  rewrite H. by intros [=].
Qed.

(** What the [catch] of the connection handler does. *)
Lemma setupFailed_eq sock w :
  setupFailed sock w =
    if bool_decide (clients w !! sock = Some OPEN) then
      (setClients (<[sock := 2]> (clients w)) w,
       [Log LError "Error setting up WebSocket connection:";
        WsClose sock 1011 (js "Internal server error")])
    else (w, [Log LError "Error setting up WebSocket connection:"]).
Proof.
  unfold setupFailed, wsClose.
  replace (byteLength (js "Internal server error") >? 123) with false
    by (vm_compute; reflexivity).
  by case_bool_decide.
Qed.

(** A connection with parameters that the gateway refuses. *)
Lemma onConnection_refused sock connectionId query now live w :
  isValid (validateConnectionParams (sanitizeConnectionParams query)) = false →
  onConnection sock connectionId query now live w =
    if bool_decide (clients w !! sock = Some OPEN) then
      (setClients (<[sock := 2]> (clients w)) w,
       if fourErrors (sanitizeConnectionParams query)
       then [Log LError "Error setting up WebSocket connection:"]
       else [WsClose sock 1008 (refusal (sanitizeConnectionParams query))])
    else (w, []).
Proof.
  intros Hv. unfold onConnection. cbv zeta. rewrite Hv. cbn [negb].
  fold (refusal (sanitizeConnectionParams query)).
  case_bool_decide as Ho.
  - rewrite (wsClose_open _ _ _ _ Ho), refusal_length.
    destruct (fourErrors (sanitizeConnectionParams query)); cbn [fst snd]; [|done].
    unfold setupFailed. rewrite wsClose_closing; [done|].
    destruct w. cbn. by rewrite lookup_insert_eq.
  - unfold wsClose. by rewrite bool_decide_eq_false_2.
Qed.

End Parameters.

(** X30. A connection whose sanitised parameters fail validation (channel or
    session missing, channel or language not of the required form, model
    outside the list) creates and registers no [connectionState], opens no
    backend connection and gets no listeners, and its socket is left
    closing. It is closed with code 1008 and a reason that lists the
    errors, unless the four errors come together: the reason is then too
    long for a close frame, [ws.close] throws, the [catch] logs the error
    and its own [ws.close] finds the socket closing already, so that no
    close frame is sent at all. *)
Theorem invalid_connection_rejected w sock connectionId query now live :
  channel (sanitizeConnectionParams query) = []
  ∨ session (sanitizeConnectionParams query) = []
  ∨ match_whole reChannel (channel (sanitizeConnectionParams query)) = false
  ∨ (language (sanitizeConnectionParams query) ≠ []
     ∧ match_whole reLanguage (language (sanitizeConnectionParams query)) = false)
  ∨ (model (sanitizeConnectionParams query) ≠ []
     ∧ model (sanitizeConnectionParams query) ∉ validModels) →
  (step w (Connection sock connectionId query now live)).2
  = (if fourErrors (sanitizeConnectionParams query)
     then [Log LError "Error setting up WebSocket connection:"]
     else [WsClose sock 1008 (refusal (sanitizeConnectionParams query))])
  ∧ errors (validateConnectionParams (sanitizeConnectionParams query)) ≠ []
  ∧ clients (step w (Connection sock connectionId query now live)).1 !! sock
    = Some 2
  ∧ heap (step w (Connection sock connectionId query now live)).1 = heap w
  ∧ activeStreams (step w (Connection sock connectionId query now live)).1
    = activeStreams w
  ∧ listeners (step w (Connection sock connectionId query now live)).1
    = listeners w
  ∧ service (step w (Connection sock connectionId query now live)).1 = service w.
Proof.
  intros H. apply validateConnectionParams_invalid in H.
  unfold step. rewrite (onConnection_refused _ _ _ _ _ _ H).
  rewrite bool_decide_eq_true_2 by apply lookup_insert_eq.
  cbn [fst snd]. split; [done|].
  split; [by apply validateConnectionParams_errors|].
  destruct w. cbn. by rewrite lookup_insert_eq.
Qed.

Lemma invalid_connection_rejected_witness :
  (step frameWorld
     (Connection 9 (js "c9")
        {| q_channel := JString (js "#test"); q_session := JUndefined;
           q_conversation := JUndefined; q_user := JUndefined;
           q_language := JUndefined; q_model := JUndefined |} 5000 true)).2
  = [WsClose 9 1008 (js "Invalid parameters: session parameter is required")].
Proof.
  refine (proj1 (invalid_connection_rejected frameWorld 9 (js "c9") _ 5000 true _)).
  right. left. vm_compute. reflexivity.
Defined.

(** C3, at the input where the code fails it. A connection without channel
    and session, with the language [english] and the model [gpt], is not
    closed with code 1008: the reason of 130 bytes makes [ws.close] throw,
    and no close frame is sent. Nothing is registered. *)
Lemma long_reason_not_closed :
  byteLength (refusal (sanitizeConnectionParams fourErrorQuery)) = 130
  ∧ step emptyWorld (Connection 7 (js "c1") fourErrorQuery 1000 true)
    = (setClients {[ 7%nat := 2 ]} emptyWorld,
       [Log LError "Error setting up WebSocket connection:"]).
Proof. split; vm_compute; reflexivity. Qed.

(* ===================================================================== *)
(** * Transcript events *)
(* ===================================================================== *)

Section Transcripts.

Lemma existsb_app_false {A} (f : A → bool) (l1 l2 : list A) :
  existsb f l1 = false → existsb f l2 = false → existsb f (l1 ++ l2) = false.
Proof. intros H1 H2. by rewrite existsb_app, H1, H2. Qed.

Lemma transcriptCallback_quiet sock socks result :
  existsb isSlackSend (transcriptCallback sock socks result).1 = false.
Proof. unfold transcriptCallback. by case_bool_decide. Qed.

Lemma errorCallback_quiet sock socks :
  existsb isSlackSend (errorCallback sock socks).1 = false.
Proof. unfold errorCallback. by case_bool_decide. Qed.

End Transcripts.

(** C5. Let the callbacks of the client send nothing to Slack themselves.
    The [transcript] listener delivers to Slack only when [is_final] is true,
    a channel is set and the trimmed text is not empty. A delivery that fails
    adds its two error logs to the trace and changes nothing else in it, so
    what is sent to the client is the same; and the event leaves the state of
    the process as it was, whatever the outcome. *)
Theorem notification_delivery o socks now data :
  (∀ cb r, onTranscript o = Some cb → existsb isSlackSend (cb socks r).1 = false) →
  (∀ cb, onError o = Some cb → existsb isSlackSend (cb socks).1 = false) →
  let t ok := onTranscriptEvent o socks now ok data in
  (∀ ok, existsb isSlackSend (t ok) = true →
     truthy (d_is_final data) = true
     ∧ nonempty (slackChannel o) = true
     ∧ ∃ alt, d_alternatives data ≫= head = Some alt
         ∧ nonempty (trim (alt_transcript alt)) = true)
  ∧ (if existsb isSlackSend (t false)
     then t false = t true ++ [Log LError "Failed to send Slack message:";
                               Log LError "Failed to send transcription to Slack:"]
     else t false = t true)
  ∧ (∀ w conn ok, (step w (BackendTranscript conn data now ok)).1 = w).
Proof.
  intros Hcb Herr t.
  assert (Hstate : ∀ w conn ok, (step w (BackendTranscript conn data now ok)).1 = w).
  { intros w conn ok. simpl. by destruct (backends (service w) !! conn). }
  split; [|split; [|done]]; subst t; unfold onTranscriptEvent.
  - intros ok.
    destruct (d_alternatives data ≫= head) as [alt|] eqn:Ealt; [|done].
    destruct (nonempty (alt_transcript alt)) eqn:Ene; simpl; [|done].
    set (result := transcriptResult o data alt now).
    set (called := match onTranscript o with Some cb => _ | None => _ end).
    assert (Hq : existsb isSlackSend called.1 = false).
    { subst called. destruct (onTranscript o) as [cb|] eqn:E; [by eapply Hcb|done]. }
    destruct (called.2).
    + destruct (truthy (d_is_final data)); simpl; [|by rewrite Hq].
      destruct (nonempty (slackChannel o)); simpl; [|by rewrite Hq].
      destruct (nonempty (trim (alt_transcript alt))) eqn:E3; simpl; [|by rewrite Hq].
      intros _. repeat split. by exists alt.
    + rewrite existsb_app_false; [done|done|]. simpl.
      destruct (onError o) as [cb|] eqn:E; [by eapply Herr|done].
  - destruct (d_alternatives data ≫= head) as [alt|] eqn:Ealt; [|done].
    destruct (nonempty (alt_transcript alt)) eqn:Ene; simpl; [|done].
    set (result := transcriptResult o data alt now).
    set (called := match onTranscript o with Some cb => _ | None => _ end).
    assert (Hq : existsb isSlackSend called.1 = false).
    { subst called. destruct (onTranscript o) as [cb|] eqn:E; [by eapply Hcb|done]. }
    destruct (called.2).
    + destruct (truthy (d_is_final data)); simpl; [|by rewrite Hq].
      destruct (nonempty (slackChannel o)); simpl; [|by rewrite Hq].
      destruct (nonempty (trim (alt_transcript alt))) eqn:E3; simpl; [|by rewrite Hq].
      rewrite existsb_app, Hq. simpl. by rewrite <- app_assoc.
    + rewrite existsb_app_false; [done|done|]. simpl.
      destruct (onError o) as [cb|] eqn:E; [by eapply Herr|done].
Qed.

Lemma notification_delivery_witness :
  if existsb isSlackSend
       (onTranscriptEvent (gatewayOptions 7) {[7%nat := OPEN]} 0 false (finalData "hello"))
  then onTranscriptEvent (gatewayOptions 7) {[7%nat := OPEN]} 0 false (finalData "hello")
       = onTranscriptEvent (gatewayOptions 7) {[7%nat := OPEN]} 0 true (finalData "hello")
         ++ [Log LError "Failed to send Slack message:";
             Log LError "Failed to send transcription to Slack:"]
  else onTranscriptEvent (gatewayOptions 7) {[7%nat := OPEN]} 0 false (finalData "hello")
       = onTranscriptEvent (gatewayOptions 7) {[7%nat := OPEN]} 0 true (finalData "hello").
Proof.
  refine (proj1 (proj2 (notification_delivery (gatewayOptions 7) {[7%nat := OPEN]} 0
                          (finalData "hello") _ _))).
  - intros cb r [= <-]. apply transcriptCallback_quiet.
  - intros cb [= <-]. apply errorCallback_quiet.
Defined.

(** C6, as stated, fails: a result whose first alternative has an empty
    text is dropped before the callback is called. With the gateway's
    callback and an open client socket, the callback called with the event
    would send the transcript to the client, and the listener does nothing. *)
Lemma silent_result_not_delivered :
  ¬ (∀ o cb socks now ok data alt,
       onTranscript o = Some cb →
       d_alternatives data ≫= head = Some alt →
       ∃ rest, onTranscriptEvent o socks now ok data
               = (cb socks (transcriptResult o data alt now)).1 ++ rest).
Proof.
  intros H.
  destruct (H (gatewayOptions 7) (transcriptCallback 7) {[7%nat := OPEN]} 0 true
              (finalData "")
              {| alt_transcript := []; alt_confidence := 0; alt_words := [] |}
              eq_refl eq_refl) as [rest Hrest].
  vm_compute in Hrest. discriminate.
Qed.

(** C6, amended. For every result of the backend stream whose first
    alternative carries a non-empty text, interim or final, the [onTranscript]
    callback given at open time is called with the [result] object built from
    it: the trace of the listener starts with the calls of the callback. A
    result without alternative, or whose first alternative has an empty
    text, is dropped: the listener makes no call at all, that of the
    callback included. *)
Theorem onTranscript_invoked o cb socks now ok data :
  onTranscript o = Some cb →
  (∀ alt, d_alternatives data ≫= head = Some alt → alt_transcript alt ≠ [] →
     ∃ rest, onTranscriptEvent o socks now ok data
             = (cb socks (transcriptResult o data alt now)).1 ++ rest)
  ∧ (d_alternatives data ≫= head = None →
     onTranscriptEvent o socks now ok data = [])
  ∧ (∀ alt, d_alternatives data ≫= head = Some alt → alt_transcript alt = [] →
     onTranscriptEvent o socks now ok data = []).
Proof.
  intros Hcb. unfold onTranscriptEvent. split; [|split].
  - intros alt Halt Hne. rewrite Halt, Hcb.
    apply nonempty_true in Hne. rewrite Hne. simpl.
    destruct (cb socks (transcriptResult o data alt now)).2.
    + destruct (_ && _); eexists; [done|]. by rewrite app_nil_r.
    + by eexists.
  - by intros ->.
  - intros alt -> Hempty. by rewrite Hempty.
Qed.

Lemma onTranscript_invoked_witness :
  (∃ rest, onTranscriptEvent (gatewayOptions 7) {[7%nat := OPEN]} 5 true
             {| d_alternatives :=
                  Some [{| alt_transcript := js "hi"; alt_confidence := 0;
                           alt_words := [] |}];
                d_is_final := JBool false; d_duration := 0; d_start := 0;
                d_channel_index := 0 |}
           = (transcriptCallback 7 {[7%nat := OPEN]}
                (transcriptResult (gatewayOptions 7)
                   {| d_alternatives :=
                        Some [{| alt_transcript := js "hi"; alt_confidence := 0;
                                 alt_words := [] |}];
                      d_is_final := JBool false; d_duration := 0; d_start := 0;
                      d_channel_index := 0 |}
                   {| alt_transcript := js "hi"; alt_confidence := 0; alt_words := [] |}
                   5)).1 ++ rest)
  ∧ onTranscriptEvent (gatewayOptions 7) {[7%nat := OPEN]} 5 true
      {| d_alternatives := None; d_is_final := JBool true; d_duration := 0;
         d_start := 0; d_channel_index := 0 |} = []
  ∧ onTranscriptEvent (gatewayOptions 7) {[7%nat := OPEN]} 5 true
      {| d_alternatives :=
           Some [{| alt_transcript := []; alt_confidence := 0; alt_words := [] |}];
         d_is_final := JBool true; d_duration := 0; d_start := 0;
         d_channel_index := 0 |} = [].
Proof.
  split; [|split].
  - apply (proj1 (onTranscript_invoked (gatewayOptions 7) (transcriptCallback 7)
                    {[7%nat := OPEN]} 5 true _ eq_refl)).
    + reflexivity.
    + discriminate.
  - apply (proj1 (proj2 (onTranscript_invoked (gatewayOptions 7)
                           (transcriptCallback 7) {[7%nat := OPEN]} 5 true _
                           eq_refl))).
    reflexivity.
  - apply (proj2 (proj2 (onTranscript_invoked (gatewayOptions 7)
                           (transcriptCallback 7) {[7%nat := OPEN]} 5 true _
                           eq_refl))
             {| alt_transcript := []; alt_confidence := 0; alt_words := [] |}).
    + reflexivity.
    + reflexivity.
Defined.

(* ===================================================================== *)
(** * Removal *)
(* ===================================================================== *)

Section Removal.

Lemma cleanup_absent id w : activeStreams w !! id = None → cleanup id w = (w, []).
Proof. intros H. unfold cleanup. by rewrite H. Qed.

Lemma cleanup_removes id w : activeStreams (cleanup id w).1 !! id = None.
Proof.
  unfold cleanup. destruct (activeStreams w !! id) eqn:E; simpl; [|done].
  apply lookup_delete_eq.
Qed.

Lemma closeConnection_absent sid sv :
  activeConnections sv !! sid = None → closeConnection sid sv = (sv, []).
Proof. intros H. unfold closeConnection. by rewrite H. Qed.

Lemma closeConnection_removes sid sv :
  activeConnections (closeConnection sid sv).1 !! sid = None.
Proof.
  unfold closeConnection. destruct (activeConnections sv !! sid) eqn:E; simpl; [|done].
  apply lookup_delete_eq.
Qed.

Lemma closing_idempotent rs : closing (closing rs) = closing rs.
Proof.
  unfold closing. destruct ((rs =? 0) || (rs =? 1)) eqn:E; [done|]. by rewrite E.
Qed.

End Removal.

(** C8. Removing an identifier that is not registered changes nothing and
    makes no call, in the gateway ([cleanup]) and in the service
    ([closeConnection]); running either a second time for the same
    identifier changes nothing and makes no call, so twice is the same as
    once; and closing a backend connection twice leaves it in the state of
    closing it once. *)
Theorem removal_idempotent :
  (∀ id w, activeStreams w !! id = None → cleanup id w = (w, []))
  ∧ (∀ id w, cleanup id (cleanup id w).1 = ((cleanup id w).1, []))
  ∧ (∀ sid sv, activeConnections sv !! sid = None → closeConnection sid sv = (sv, []))
  ∧ (∀ sid sv, closeConnection sid (closeConnection sid sv).1
               = ((closeConnection sid sv).1, []))
  ∧ (∀ sv h, (close (close sv h).1 h).1 = (close sv h).1).
Proof.
  split; [exact cleanup_absent|].
  split; [intros; apply cleanup_absent, cleanup_removes|].
  split; [exact closeConnection_absent|].
  split; [intros; apply closeConnection_absent, closeConnection_removes|].
  intros sv h. unfold close. simpl. f_equal.
  apply map_eq. intros c. rewrite !lookup_alter.
  repeat case_decide; try done. destruct (backends sv !! h) as [b|]; [|done].
  simpl. unfold setReadyState. simpl. by rewrite closing_idempotent.
Qed.

Lemma removal_idempotent_witness :
  cleanup (js "nobody") frameWorld = (frameWorld, []).
Proof.
  apply (proj1 removal_idempotent). vm_compute. reflexivity.
Defined.

(* ===================================================================== *)
(** * Invariants of the runs *)
(* ===================================================================== *)

Section Evolution.

Implicit Types (B : gmap nat Backend) (sv : Service) (w : World).

Lemma evolves_refl B : evolves B B.
Proof. split; [|congruence]. intros c b H. by exists b. Qed.

Lemma evolves_trans B1 B2 B3 : evolves B1 B2 → evolves B2 B3 → evolves B1 B3.
Proof.
  intros [H1 N1] [H2 N2]. split.
  - intros c b Hb. destruct (H1 c b Hb) as (b2 & Hb2 & Hc2 & Hs2).
    destruct (H2 c b2 Hb2) as (b3 & Hb3 & Hc3 & Hs3).
    exists b3. split; [done|]. split; [congruence|auto].
  - intros c b3 Hn Hb3. destruct (B2 !! c) as [b2|] eqn:E2.
    + destruct (H2 c b2 E2) as (b3' & Hb3' & Hc3 & _).
      assert (b3' = b3) as -> by congruence. rewrite Hc3. by eapply N1.
    + by eapply N2.
Qed.

(** Changing the [readyState] of one connection, a settled one staying
    settled. *)
Lemma evolves_alter B h (f : Z → Z) :
  (∀ b, B !! h = Some b → settled (readyState b) → settled (f (readyState b))) →
  evolves B (alter (λ b, setReadyState (f (readyState b)) b) h B).
Proof.
  intros Hf. split.
  - intros c b Hb. rewrite lookup_alter. case_decide as E; [subst c|].
    + rewrite Hb. simpl. eexists. split; [done|]. split; [done|]. simpl. by apply Hf.
    + by exists b.
  - intros c b' Hn. rewrite lookup_alter. case_decide; [subst c|]; by rewrite Hn.
Qed.

Lemma evolves_insert B c b :
  B !! c = None → fromGateway (captured b) → evolves B (<[c := b]> B).
Proof.
  intros Hn Hg. split.
  - intros c' b' Hb'. exists b'. rewrite lookup_insert_ne by congruence. done.
  - intros c' b' Hn'. rewrite lookup_insert. case_decide; [|congruence].
    by intros [= <-].
Qed.

Lemma settled_closing rs : settled (closing rs).
Proof.
  unfold settled, closing.
  destruct (rs =? 0) eqn:E0; destruct (rs =? 1) eqn:E1; simpl; lia.
Qed.

Lemma close_evolves sv h : evolves (backends sv) (backends (close sv h).1).
Proof. apply (evolves_alter _ h closing). intros. apply settled_closing. Qed.

(** After [close] the connection is settled. *)
Lemma close_settled sv h b :
  backends sv !! h = Some b →
  ∃ b', backends (close sv h).1 !! h = Some b' ∧ settled (readyState b').
Proof.
  intros Hb. simpl. rewrite lookup_alter. case_decide; [|done]. rewrite Hb. simpl.
  eexists. split; [done|]. apply settled_closing.
Qed.

Lemma closeConnection_evolves sid sv :
  evolves (backends sv) (backends (closeConnection sid sv).1).
Proof.
  unfold closeConnection. destruct (activeConnections sv !! sid) as [cd|];
    [apply close_evolves|apply evolves_refl].
Qed.

(** What holds initially and is kept by every step of a loop holds after
    the loop. *)
Lemma foldl_invariant {A X} (Q : A → Prop) (f : A → X → A) (xs : list X) :
  (∀ acc x, Q acc → Q (f acc x)) → ∀ acc, Q acc → Q (foldl f acc xs).
Proof. intros Hf. induction xs as [|x xs IH]; intros acc H; simpl; auto. Qed.

Lemma cleanupConnections_invariant (Q : Service → list Effect → Prop) now sv :
  Q sv [] →
  (∀ sid sv' t, Q sv' t →
     Q (closeConnection sid sv').1
       (t ++ [Log LInfo "Cleaning up inactive connection"] ++ (closeConnection sid sv').2)) →
  Q (cleanupConnections now sv).1 (cleanupConnections now sv).2.
Proof.
  intros H0 Hstep. unfold cleanupConnections.
  apply (foldl_invariant (λ acc, Q acc.1 acc.2)); [|done].
  intros [sv' t] sid H. simpl in *.
  destruct (activeConnections sv' !! sid) as [cd|]; [|done].
  destruct (_ >? _); [|done]. by apply Hstep.
Qed.

Lemma cleanupConnections_evolves now sv :
  evolves (backends sv) (backends (cleanupConnections now sv).1).
Proof.
  apply (cleanupConnections_invariant (λ sv' _, evolves (backends sv) (backends sv')));
    [apply evolves_refl|].
  intros sid sv' _ H. eapply evolves_trans; [done|apply closeConnection_evolves].
Qed.

Lemma createStreamingConnection_evolves sv o now live :
  fromGateway o →
  evolves (backends sv) (backends (createStreamingConnection sv o now live).1.1).
Proof.
  intros Hg. unfold createStreamingConnection. destruct live; [|apply evolves_refl].
  simpl. apply evolves_insert; [|done].
  apply not_elem_of_dom, is_fresh.
Qed.

End Evolution.

Section Gateway.

Implicit Types (w : World) (sv : Service) (t : list Effect).

Lemma cleanupInactiveConnections_invariant (Q : World → list Effect → Prop) now w :
  Q w [] →
  (∀ k w' t, Q w' t →
     Q (cleanup k w').1
       (t ++ [Log LInfo "Cleaning up inactive connection"] ++ (cleanup k w').2)) →
  Q (cleanupInactiveConnections now w).1 (cleanupInactiveConnections now w).2.
Proof.
  intros H0 Hstep. unfold cleanupInactiveConnections.
  apply (foldl_invariant (λ acc, Q acc.1 acc.2)); [|done].
  intros [w' t] [k l] H. unfold visit. simpl in *.
  destruct (heap w' !! l) as [st|]; [|done].
  destruct (_ || _); [|done]. by apply Hstep.
Qed.

(** ** What [cleanup] changes *)

Lemma cleanup_evolves k w :
  evolves (backends (service w)) (backends (service (cleanup k w).1)).
Proof.
  unfold cleanup. destruct (activeStreams w !! k) as [l|]; [|apply evolves_refl].
  simpl. destruct (heap w !! l ≫= deepgramConnection) as [h|];
    [apply close_evolves|apply evolves_refl].
Qed.

Lemma cleanup_heap k w l' :
  heap (cleanup k w).1 !! l' = heap w !! l'
  ∨ (∃ st, heap w !! l' = Some st ∧ activeStreams w !! k = Some l'
           ∧ heap (cleanup k w).1 !! l' = Some (setIsActive false st)).
Proof.
  unfold cleanup. destruct (activeStreams w !! k) as [l|] eqn:E; [|by left].
  simpl. rewrite lookup_alter. case_decide; [subst l'|by left].
  destruct (heap w !! l) as [st|] eqn:Eh; [|by left]. right. by exists st.
Qed.

Lemma cleanup_activeStreams k w :
  activeStreams (cleanup k w).1 = delete k (activeStreams w).
Proof.
  unfold cleanup. destruct (activeStreams w !! k) as [l|] eqn:E; [done|].
  simpl. by rewrite delete_id.
Qed.

Lemma cleanup_listeners k w : listeners (cleanup k w).1 = listeners w.
Proof. unfold cleanup. by destruct (activeStreams w !! k). Qed.

Lemma cleanup_noForward k w : forwarded (cleanup k w).2 = false.
Proof.
  unfold cleanup. destruct (activeStreams w !! k) as [l|]; [|done]. simpl.
  by destruct (heap w !! l ≫= deepgramConnection).
Qed.

Lemma cleanup_wf k w : wf w → wf (cleanup k w).1.
Proof.
  intros [Hc Hh Hs Hi HL]. pose proof (cleanup_evolves k w) as [He Hn]. split.
  - intros c b' Hb'. destruct (backends (service w) !! c) as [b|] eqn:E.
    + destruct (He c b E) as (b2 & Hb2 & Hcap & _).
      assert (b2 = b') as -> by congruence. rewrite Hcap. by eapply Hc.
    + by eapply Hn.
  - intros l st h Hl Hd.
    assert (∃ st0, heap w !! l = Some st0 ∧ deepgramConnection st0 = Some h)
      as (st0 & Hl0 & Hd0).
    { destruct (cleanup_heap k w l) as [Heq|(st0 & H0 & _ & H1)].
      - exists st. by rewrite <- Heq.
      - exists st0. split; [done|]. rewrite H1 in Hl. by inversion Hl; subst. }
    destruct (Hh l st0 h Hl0 Hd0) as [b Hb].
    destruct (He h b Hb) as (b' & Hb' & _). by exists b'.
  - intros k' l. rewrite cleanup_activeStreams, lookup_delete.
    case_decide as E; [done|]. intros Hk'.
    destruct (Hs k' l Hk') as (st & Hl & Ha). exists st. split; [|done].
    destruct (cleanup_heap k w l) as [Heq|(st0 & _ & Hk & _)]; [by rewrite Heq|].
    destruct E. by eapply Hi.
  - intros k1 k2 l. rewrite cleanup_activeStreams, !lookup_delete.
    repeat case_decide; try done. apply Hi.
  - intros sock l Hl. rewrite cleanup_listeners in Hl.
    destruct (HL sock l Hl) as (st & Hst & Hws & Hd).
    destruct (cleanup_heap k w l) as [Heq|(st0 & H0 & _ & H1)].
    + exists st. by rewrite Heq.
    + exists (setIsActive false st0). split; [done|].
      assert (st0 = st) as -> by congruence. done.
Qed.

Lemma cleanupInactiveConnections_wf now w :
  wf w → wf (cleanupInactiveConnections now w).1.
Proof.
  intros H. apply (cleanupInactiveConnections_invariant (λ w' _, wf w')); [done|].
  intros k w' _. apply cleanup_wf.
Qed.

Lemma cleanupInactiveConnections_evolves now w :
  evolves (backends (service w))
          (backends (service (cleanupInactiveConnections now w).1)).
Proof.
  apply (cleanupInactiveConnections_invariant
           (λ w' _, evolves (backends (service w)) (backends (service w'))));
    [apply evolves_refl|].
  intros k w' _ H. eapply evolves_trans; [done|apply cleanup_evolves].
Qed.

Lemma cleanupInactiveConnections_noForward now w :
  forwarded (cleanupInactiveConnections now w).2 = false.
Proof.
  apply (cleanupInactiveConnections_invariant (λ _ t, forwarded t = false)); [done|].
  intros k w' t H. unfold forwarded in *. rewrite !existsb_app, H. simpl.
  apply cleanup_noForward.
Qed.

Lemma cleanupConnections_noForward now sv :
  forwarded (cleanupConnections now sv).2 = false.
Proof.
  apply (cleanupConnections_invariant (λ _ t, forwarded t = false)); [done|].
  intros sid sv' t H. unfold forwarded in *. rewrite !existsb_app, H. simpl.
  unfold closeConnection. by destruct (activeConnections sv' !! sid).
Qed.

(** ** What a new connection changes *)

(** An accepted connection for which the SDK hands out a backend
    connection. *)
Lemma onConnection_accepted sock connectionId query now w :
  let p := sanitizeConnectionParams query in
  let l : nat := fresh (dom (heap w)) in
  let c : nat := fresh (dom (backends (service w))) in
  isValid (validateConnectionParams p) = true →
  onConnection sock connectionId query now true w =
    ({| heap :=
          <[l := setDeepgramConnection (Some c)
                   (newConnectionState connectionId sock p now)]> (heap w);
        activeStreams := <[connectionId := l]> (activeStreams w);
        listeners := <[sock := l]> (listeners w);
        clients := clients w;
        service :=
          {| backends :=
               <[c := {| readyState := 0; captured := streamingOptions sock p |}]>
                 (backends (service w));
             activeConnections :=
               <[session p :=
                   {| c_connection := c; c_sessionId := session p;
                      c_slackChannel := channel p;
                      c_conversationId := conversation p;
                      c_createdAt := now |}]> (activeConnections (service w)) |} |},
     [Log LInfo "New WebSocket connection";
      DgLive c (orElse (model p) "nova-2") (orElse (language p) "en-US")
        (filter (λ x, nonempty x = true) [session p; conversation p]);
      WsSend sock (MsgConnected connectionId (session p)
                     (js "Connected to transcription service"))]).
Proof.
  intros p l c Hv. unfold onConnection. cbv zeta. fold p. rewrite Hv.
  simpl negb. cbv iota. unfold createStreamingConnection. cbn [fst snd].
  unfold setListeners, setHeap, setService, setActiveStreams. cbn.
  fold l c. f_equal. f_equal. apply map_eq. intros l'.
  rewrite lookup_alter. case_decide; [subst l'|by rewrite !lookup_insert_ne].
  by rewrite !lookup_insert_eq.
Qed.

(** An accepted connection for which the SDK throws: the entry stays
    registered, without handle and without listeners, and the socket is
    closed with code 1011 when it is still open. *)
Lemma onConnection_failed sock connectionId query now w :
  let p := sanitizeConnectionParams query in
  let l : nat := fresh (dom (heap w)) in
  isValid (validateConnectionParams p) = true →
  onConnection sock connectionId query now false w =
    ({| heap := <[l := newConnectionState connectionId sock p now]> (heap w);
        activeStreams := <[connectionId := l]> (activeStreams w);
        listeners := listeners w;
        clients := if bool_decide (clients w !! sock = Some OPEN)
                   then <[sock := 2]> (clients w) else clients w;
        service := service w |},
     [Log LInfo "New WebSocket connection";
      Log LError "Failed to create Deepgram connection:";
      Log LError "Error setting up WebSocket connection:"]
     ++ if bool_decide (clients w !! sock = Some OPEN)
        then [WsClose sock 1011 (js "Internal server error")] else []).
Proof.
  intros p l Hv. unfold onConnection. cbv zeta. fold p. rewrite Hv.
  simpl negb. cbv iota. unfold createStreamingConnection. cbn [fst snd].
  rewrite setupFailed_eq.
  unfold setClients, setHeap, setService, setActiveStreams.
  cbn [clients heap activeStreams listeners service].
  case_bool_decide; cbn; fold l; by destruct (service w).
Qed.

(** ** Well-formedness is kept *)

Lemma evolves_callbacks (B B' : gmap nat Backend) :
  evolves B B' →
  (∀ c b, B !! c = Some b → fromGateway (captured b)) →
  ∀ c b, B' !! c = Some b → fromGateway (captured b).
Proof.
  intros [He Hn] Hc c b' Hb'. destruct (B !! c) as [b|] eqn:E.
  - destruct (He c b E) as (b2 & Hb2 & Hcap & _).
    assert (b2 = b') as -> by congruence. rewrite Hcap. by eapply Hc.
  - by eapply Hn.
Qed.

Lemma evolves_is_Some (B B' : gmap nat Backend) h :
  evolves B B' → is_Some (B !! h) → is_Some (B' !! h).
Proof. intros [He _] [b Hb]. destruct (He h b Hb) as (b' & Hb' & _). by exists b'. Qed.

Lemma wf_setClients c w : wf w → wf (setClients c w).
Proof. by intros []. Qed.

Lemma wf_setService sv w :
  evolves (backends (service w)) (backends sv) → wf w → wf (setService sv w).
Proof.
  intros He [Hc Hh Hs Hi HL]. split; simpl; [|intros l st h Hl Hd|done|done|done].
  - by apply (evolves_callbacks _ _ He).
  - eapply evolves_is_Some; [done|]. by eapply Hh.
Qed.

(** Writing back an object that kept its handle and its [isActive]. *)
Lemma wf_update l st st' w :
  heap w !! l = Some st →
  deepgramConnection st' = deepgramConnection st → isActive st' = isActive st →
  ws st' = ws st →
  wf w → wf (setHeap (<[l := st']> (heap w)) w).
Proof.
  intros Hl Hd Ha Hws [Hc Hh Hs Hi HL]. split; simpl; [done| | |done|].
  - intros l0 st0 h. rewrite lookup_insert. case_decide; [subst l0|by apply Hh].
    intros [= <-] Hd'. apply (Hh l st h Hl). congruence.
  - intros k l0 Hk. destruct (Hs k l0 Hk) as (st0 & Hl0 & Ha0).
    rewrite lookup_insert. case_decide; [subst l0|by exists st0].
    exists st'. split; [done|]. congruence.
  - intros sock l0 Hk. destruct (HL sock l0 Hk) as (st0 & Hl0 & Hws0 & Hd0).
    rewrite lookup_insert. case_decide; [subst l0|by exists st0].
    exists st'. split; [done|]. assert (st0 = st) as -> by congruence.
    split; congruence.
Qed.

(** Registering a new object at a fresh address. *)
Lemma wf_register l st connectionId L C sv w :
  heap w !! l = None → isActive st = true →
  (∀ h, deepgramConnection st = Some h → is_Some (backends sv !! h)) →
  evolves (backends (service w)) (backends sv) →
  (∀ sock l0, L !! sock = Some l0 →
     listeners w !! sock = Some l0
     ∨ (l0 = l ∧ ws st = sock ∧ is_Some (deepgramConnection st))) →
  wf w →
  wf {| heap := <[l := st]> (heap w);
        activeStreams := <[connectionId := l]> (activeStreams w);
        listeners := L; clients := C; service := sv |}.
Proof.
  intros Hl Ha Hd He HL' [Hc Hh Hs Hi HL]. split; simpl.
  - by apply (evolves_callbacks _ _ He).
  - intros l0 st0 h. rewrite lookup_insert. case_decide; [subst l0|].
    + intros [= <-]. apply Hd.
    + intros Hl0 Hd0. eapply evolves_is_Some; [done|]. by eapply Hh.
  - intros k l0. rewrite lookup_insert. case_decide; [subst k|].
    + intros [= <-]. exists st. by rewrite lookup_insert_eq.
    + intros Hk. destruct (Hs k l0 Hk) as (st0 & Hl0 & Ha0). exists st0.
      split; [|done]. rewrite lookup_insert_ne; [done|]. congruence.
  - intros k1 k2 l0. rewrite !lookup_insert.
    repeat case_decide; subst; try done.
    + intros [= <-] Hk. destruct (Hs _ _ Hk) as (? & ? & _). congruence.
    + intros Hk [= <-]. destruct (Hs _ _ Hk) as (? & ? & _). congruence.
    + apply Hi.
  - intros sock l0 Hk. destruct (HL' sock l0 Hk) as [Hold|(-> & Hws & Hd')].
    + destruct (HL sock l0 Hold) as (st0 & Hl0 & Hws0 & Hd0). exists st0.
      split; [|done]. rewrite lookup_insert_ne; [done|]. congruence.
    + exists st. by rewrite lookup_insert_eq.
Qed.

Lemma fresh_heap w : heap w !! fresh (dom (heap w)) = None.
Proof. apply not_elem_of_dom, is_fresh. Qed.

Lemma fresh_backend sv : backends sv !! fresh (dom (backends sv)) = None.
Proof. apply not_elem_of_dom, is_fresh. Qed.

Lemma streamingOptions_fromGateway sock p : fromGateway (streamingOptions sock p).
Proof. by exists sock. Qed.

Lemma onConnection_evolves sock connectionId query now live w :
  evolves (backends (service w))
          (backends (service (onConnection sock connectionId query now live w).1)).
Proof.
  destruct (isValid (validateConnectionParams (sanitizeConnectionParams query))) eqn:Hv.
  - destruct live.
    + rewrite (onConnection_accepted _ _ _ _ _ Hv). simpl.
      apply evolves_insert; [apply fresh_backend|apply streamingOptions_fromGateway].
    + rewrite (onConnection_failed _ _ _ _ _ Hv). apply evolves_refl.
  - rewrite (onConnection_refused _ _ _ _ _ _ Hv).
    case_bool_decide; apply evolves_refl.
Qed.

Lemma onConnection_wf sock connectionId query now live w :
  wf w → wf (onConnection sock connectionId query now live w).1.
Proof.
  intros Hw.
  destruct (isValid (validateConnectionParams (sanitizeConnectionParams query))) eqn:Hv.
  - destruct live.
    + rewrite (onConnection_accepted _ _ _ _ _ Hv). simpl.
      apply wf_register; [apply fresh_heap|done| | | |done].
      * intros h [= <-]. simpl. by rewrite lookup_insert_eq.
      * simpl. apply evolves_insert;
          [apply fresh_backend|apply streamingOptions_fromGateway].
      * intros s l0. rewrite lookup_insert. case_decide; [subst s|by left].
        intros [= <-]. right. by eauto.
    + rewrite (onConnection_failed _ _ _ _ _ Hv). simpl.
      apply wf_register;
        [apply fresh_heap|done|done|apply evolves_refl|by left|done].
  - rewrite (onConnection_refused _ _ _ _ _ _ Hv).
    case_bool_decide; [by apply wf_setClients|done].
Qed.

Lemma onConnection_noForward sock connectionId query now live w :
  forwarded (onConnection sock connectionId query now live w).2 = false.
Proof.
  destruct (isValid (validateConnectionParams (sanitizeConnectionParams query))) eqn:Hv.
  - destruct live.
    + by rewrite (onConnection_accepted _ _ _ _ _ Hv).
    + rewrite (onConnection_failed _ _ _ _ _ Hv). by case_bool_decide.
  - rewrite (onConnection_refused _ _ _ _ _ _ Hv).
    case_bool_decide; [|done].
    by destruct (fourErrors (sanitizeConnectionParams query)).
Qed.

(** ** Messages of a client *)

Lemma forwarded_elem h a t : DgSend h a ∈ t → forwarded t = true.
Proof.
  intros H. apply existsb_exists. exists (DgSend h a). split; [|done].
  by apply list_elem_of_In.
Qed.

Lemma handleWebSocketMessage_object sv st data :
  deepgramConnection (handleWebSocketMessage sv st data).1.1 = deepgramConnection st
  ∧ isActive (handleWebSocketMessage sv st data).1.1 = isActive st
  ∧ ws (handleWebSocketMessage sv st data).1.1 = ws st.
Proof.
  unfold handleWebSocketMessage. destruct data as [[|type]|audio|].
  - done.
  - by repeat destruct (isType _ _).
  - destruct (negb _); [done|].
    destruct (deepgramConnection st) as [h|] eqn:E; [|done].
    by destruct (isConnected sv h).
  - done.
Qed.

Lemma handleWebSocketMessage_evolves sv st data :
  evolves (backends sv) (backends (handleWebSocketMessage sv st data).1.2).
Proof.
  unfold handleWebSocketMessage. destruct data as [[|type]|audio|].
  - apply evolves_refl.
  - destruct (isType "start" type); [apply evolves_refl|].
    destruct (isType "stop" type).
    + simpl. destruct (deepgramConnection st); [apply close_evolves|apply evolves_refl].
    + destruct (isType "config" type); apply evolves_refl.
  - destruct (negb _); [apply evolves_refl|].
    destruct (deepgramConnection st) as [h|]; [|apply evolves_refl].
    destruct (isConnected sv h); apply evolves_refl.
  - apply evolves_refl.
Qed.

(** A frame is handed to a backend connection only if it is open. *)
Lemma handleWebSocketMessage_forward sv st data h a :
  DgSend h a ∈ (handleWebSocketMessage sv st data).2.1 → isConnected sv h = true.
Proof.
  unfold handleWebSocketMessage. destruct data as [[|type]|audio|].
  - intros H. by apply forwarded_elem in H.
  - destruct (isType "start" type); [intros H; by apply forwarded_elem in H|].
    destruct (isType "stop" type).
    + simpl. intros H. apply forwarded_elem in H.
      by destruct (deepgramConnection st).
    + destruct (isType "config" type); intros H; by apply forwarded_elem in H.
  - destruct (negb _); [intros H; by apply forwarded_elem in H|].
    destruct (deepgramConnection st) as [h'|];
      [|intros H; by apply forwarded_elem in H].
    destruct (isConnected sv h') eqn:E; [|intros H; by apply forwarded_elem in H].
    simpl. unfold sendAudio. destruct (backends sv !! h') as [b|];
      [|intros H; by apply forwarded_elem in H].
    destruct (readyState b =? 1); [|intros H; by apply forwarded_elem in H].
    intros H. apply list_elem_of_singleton in H. by inversion H; subst.
  - intros H. by apply forwarded_elem in H.
Qed.

Lemma onMessage_object sv st data :
  deepgramConnection (onMessage sv st data).1.1 = deepgramConnection st
  ∧ isActive (onMessage sv st data).1.1 = isActive st
  ∧ ws (onMessage sv st data).1.1 = ws st.
Proof.
  unfold onMessage. pose proof (handleWebSocketMessage_object sv st data).
  by destruct (handleWebSocketMessage sv st data).2.2.
Qed.

Lemma onMessage_evolves sv st data :
  evolves (backends sv) (backends (onMessage sv st data).1.2).
Proof.
  unfold onMessage. pose proof (handleWebSocketMessage_evolves sv st data).
  by destruct (handleWebSocketMessage sv st data).2.2.
Qed.

Lemma onMessage_forward sv st data h a :
  DgSend h a ∈ (onMessage sv st data).2 → isConnected sv h = true.
Proof.
  unfold onMessage. pose proof (handleWebSocketMessage_forward sv st data h a) as Hf.
  destruct (handleWebSocketMessage sv st data).2.2; simpl; [done|].
  intros H. apply elem_of_app in H as [H|H]; [auto|]. by apply forwarded_elem in H.
Qed.

(** ** The callbacks of the gateway and the listeners of the service *)

Lemma onTranscriptEvent_noForward o socks now ok data :
  fromGateway o → forwarded (onTranscriptEvent o socks now ok data) = false.
Proof.
  intros (sock & Ht & He). unfold onTranscriptEvent. rewrite Ht, He.
  destruct (d_alternatives data ≫= head) as [alt|]; [|done].
  destruct (negb _); [done|]. unfold transcriptCallback, errorCallback.
  case_bool_decide; simpl; destruct (_ && _); simpl; by destruct ok.
Qed.

Lemma onErrorEvent_noForward o socks :
  fromGateway o → forwarded (onErrorEvent o socks) = false.
Proof.
  intros (sock & Ht & He). unfold onErrorEvent. rewrite He.
  unfold errorCallback. by case_bool_decide.
Qed.

(** ** Steps and runs *)

Lemma setBackend_evolves conn rs w :
  (∀ b, backends (service w) !! conn = Some b → settled (readyState b) → settled rs) →
  evolves (backends (service w)) (backends (service (setBackend conn rs w))).
Proof. intros H. apply (evolves_alter _ conn (λ _, rs)), H. Qed.

Lemma step_evolves w e :
  evolves (backends (service w)) (backends (service (step w e).1)).
Proof.
  destruct e as [sock cid q now live|sock data|sock|sock|now|conn|conn data now ok
                |conn|conn|now]; simpl.
  - apply (onConnection_evolves sock cid q now live (setClients _ w)).
  - destruct (listening w sock) as [[l st]|]; [|apply evolves_refl].
    apply onMessage_evolves.
  - destruct (listening _ sock) as [[l st]|]; [|apply evolves_refl].
    apply (cleanup_evolves (id st) (setClients _ w)).
  - destruct (listening _ sock) as [[l st]|]; [|apply evolves_refl].
    apply cleanup_evolves.
  - apply cleanupInactiveConnections_evolves.
  - destruct (backends (service w) !! conn) as [b|] eqn:E; [|apply evolves_refl].
    destruct (readyState b =? 0) eqn:E0; [|apply evolves_refl].
    apply setBackend_evolves. intros b' Hb' [Hs _].
    apply Z.eqb_eq in E0. congruence.
  - destruct (backends (service w) !! conn); apply evolves_refl.
  - destruct (backends (service w) !! conn) as [b|] eqn:E; [|apply evolves_refl].
    destruct (readyState b =? 3); [apply evolves_refl|].
    apply (setBackend_evolves conn 3 w). intros _ _ _. unfold settled. lia.
  - destruct (backends (service w) !! conn); apply evolves_refl.
  - apply cleanupConnections_evolves.
Qed.

Lemma step_wf w e : wf w → wf (step w e).1.
Proof.
  intros Hw. pose proof (step_evolves w e) as He.
  destruct e as [sock cid q now live|sock data|sock|sock|now|conn|conn data now ok
                |conn|conn|now]; simpl in *.
  - by apply onConnection_wf, wf_setClients.
  - destruct (listening w sock) as [[l st]|] eqn:El; [|done].
    apply listening_Some in El as [_ Hl]. simpl in *.
    destruct (onMessage_object (service w) st (received data)) as (Hd & Ha & Hws).
    apply wf_setService; [done|]. by eapply wf_update.
  - destruct (listening _ sock) as [[l st]|]; simpl;
      [by apply cleanup_wf, wf_setClients|by apply wf_setClients].
  - destruct (listening _ sock) as [[l st]|]; simpl; [by apply cleanup_wf|done].
  - by apply cleanupInactiveConnections_wf.
  - destruct (backends (service w) !! conn) as [b|] eqn:E; [|done].
    destruct (readyState b =? 0); [|done]. by apply (wf_setService _ w).
  - by destruct (backends (service w) !! conn).
  - destruct (backends (service w) !! conn) as [b|] eqn:E; [|done].
    destruct (readyState b =? 3); [done|]. by apply (wf_setService _ w).
  - by destruct (backends (service w) !! conn).
  - by apply wf_setService.
Qed.

(** In a well-formed state, a step hands a frame to a backend connection
    only if that connection is open. *)
Lemma step_forward w e h a :
  wf w → DgSend h a ∈ (step w e).2 → isConnected (service w) h = true.
Proof.
  intros Hw H.
  destruct e as [sock cid q now live|sock data|sock|sock|now|conn|conn data now ok
                |conn|conn|now]; simpl in H.
  - apply forwarded_elem in H. by rewrite onConnection_noForward in H.
  - destruct (listening w sock) as [[l st]|]; [|by apply forwarded_elem in H].
    by eapply onMessage_forward.
  - destruct (listening _ sock) as [[l st]|]; [|by apply forwarded_elem in H].
    apply forwarded_elem in H. simpl in H. by rewrite cleanup_noForward in H.
  - destruct (listening _ sock) as [[l st]|]; [|by apply forwarded_elem in H].
    apply forwarded_elem in H. simpl in H. by rewrite cleanup_noForward in H.
  - apply forwarded_elem in H. by rewrite cleanupInactiveConnections_noForward in H.
  - destruct (backends (service w) !! conn) as [b|]; [|by apply forwarded_elem in H].
    destruct (readyState b =? 0); by apply forwarded_elem in H.
  - destruct (backends (service w) !! conn) as [b|] eqn:E;
      [|by apply forwarded_elem in H].
    apply forwarded_elem in H. simpl in H.
    rewrite onTranscriptEvent_noForward in H; [done|]. by eapply wf_callbacks.
  - destruct (backends (service w) !! conn) as [b|]; [|by apply forwarded_elem in H].
    destruct (readyState b =? 3); by apply forwarded_elem in H.
  - destruct (backends (service w) !! conn) as [b|] eqn:E;
      [|by apply forwarded_elem in H].
    apply forwarded_elem in H.
    change (forwarded (onErrorEvent (captured b) (clients w)) = true) in H.
    rewrite onErrorEvent_noForward in H; [done|]. by eapply wf_callbacks.
  - apply forwarded_elem in H. simpl in H.
    by rewrite cleanupConnections_noForward in H.
Qed.

Lemma wf_emptyWorld : wf emptyWorld.
Proof. split; simpl; intros *; by rewrite ?lookup_empty. Qed.

Lemma run_wf events : ∀ w, wf w → wf (run w events).1.
Proof.
  induction events as [|e events IH]; intros w Hw; simpl; [done|].
  by apply IH, step_wf.
Qed.

Lemma reachable_wf w : reachable w → wf w.
Proof. intros [events <-]. apply run_wf, wf_emptyWorld. Qed.

(** A settled backend connection never receives a frame again. *)
Lemma run_settled events : ∀ w h b a,
  wf w → backends (service w) !! h = Some b → settled (readyState b) →
  DgSend h a ∉ (run w events).2.
Proof.
  induction events as [|e events IH]; intros w h b a Hw Hb Hs; simpl.
  - apply not_elem_of_nil.
  - intros H. apply elem_of_app in H as [H|H].
    + apply (step_forward w e h a Hw) in H. unfold isConnected in H.
      rewrite Hb in H. apply Z.eqb_eq in H. destruct Hs. congruence.
    + destruct (step_evolves w e) as [He _].
      destruct (He h b Hb) as (b' & Hb' & _ & Hs').
      by apply (IH (step w e).1 h b' a (step_wf w e Hw) Hb' (Hs' Hs)).
Qed.

End Gateway.

(* ===================================================================== *)
(** * Stop *)
(* ===================================================================== *)

Section Stop.

(** What [handleWebSocketMessage] does with a parsed [stop] message: the
    branch of the function for a [data] that is a string. *)
Lemma handleWebSocketMessage_stop sv st h :
  deepgramConnection st = Some h →
  handleWebSocketMessage sv st (AsString (Typed (JString (js "stop")))) =
    (st, (close sv h).1,
     ([Log LInfo "Stopping transcription for connection"] ++ (close sv h).2 ++
      [WsSend (ws st) (MsgStatus (js "stopped") (js "Transcription stopped"))],
      Normal)).
Proof.
  intros Hd. unfold handleWebSocketMessage.
  change (isType "start" (JString (js "stop"))) with false.
  change (isType "stop" (JString (js "stop"))) with true.
  cbv iota. by rewrite Hd.
Qed.

End Stop.

(** C4, at the input where the code fails it. The text frame of a [stop]
    message reaches the listener as a [Buffer] of 15 bytes, not as a string:
    on an Active connection it is taken for audio and found too short, a
    warning is logged, the handle is not closed and no [status: stopped] is
    sent; the state is the same afterwards, and a binary frame of 160 bytes
    that follows is handed to the backend connection. *)
Lemma stop_frame_taken_for_audio :
  listening frameWorld 7 = Some (0%nat, frameState)
  ∧ deepgramConnection frameState = Some 0%nat
  ∧ step frameWorld (Message 7 stopFrame)
    = (frameWorld, [Log LWarn "Invalid audio data"])
  ∧ (run frameWorld [Message 7 stopFrame; Message 7 (Binary (repeat x00 160))]).2
    = [Log LWarn "Invalid audio data"; DgSend 0 (repeat x00 160)].
Proof. repeat split; vm_compute; reflexivity. Qed.

(* ===================================================================== *)
(** * The sweep *)
(* ===================================================================== *)

Section Sweep.

Variable now : Z.

Lemma cleanup_expired k w l l' :
  activeStreams w !! k = Some l → expired now w l = true →
  expired now (cleanup k w).1 l' = expired now w l'.
Proof.
  intros Hk He. unfold expired in *.
  destruct (cleanup_heap k w l') as [->|(st & Hst & Hk' & ->)]; [done|].
  assert (l' = l) as -> by congruence. by rewrite Hst in *.
Qed.

Lemma visit_expired w t k l l' :
  activeStreams w !! k = Some l →
  expired now (visit now (w, t) (k, l)).1 l' = expired now w l'.
Proof.
  intros Hk. unfold visit. simpl.
  destruct (heap w !! l) as [st|] eqn:E; [|done].
  destruct (_ || _) eqn:Ec; [|done]. simpl.
  apply (cleanup_expired k w l l' Hk). unfold expired. by rewrite E.
Qed.

Lemma visit_activeStreams w t k l :
  activeStreams w !! k = Some l →
  activeStreams (visit now (w, t) (k, l)).1
  = if expired now w l then delete k (activeStreams w) else activeStreams w.
Proof.
  intros Hk. unfold visit, expired. simpl.
  destruct (heap w !! l) as [st|] eqn:E; [|done].
  destruct (_ || _); [|done]. simpl. apply cleanup_activeStreams.
Qed.

Lemma sweep_loop entries : ∀ acc,
  NoDup entries.*1 →
  (∀ k l, (k, l) ∈ entries → activeStreams acc.1 !! k = Some l) →
  (∀ l, expired now (foldl (visit now) acc entries).1 l = expired now acc.1 l)
  ∧ (∀ k, activeStreams (foldl (visit now) acc entries).1 !! k =
          match activeStreams acc.1 !! k with
          | Some l =>
              if bool_decide (k ∈ entries.*1) && expired now acc.1 l
              then None else Some l
          | None => None
          end).
Proof.
  induction entries as [|[k l] entries IH]; intros [w t] Hnd Hin.
  - split; [done|]. intros k. simpl. by destruct (activeStreams w !! k).
  - rewrite fmap_cons in *. cbn [foldl fst snd] in *.
    apply NoDup_cons in Hnd as [Hk Hnd].
    assert (Hkl : activeStreams w !! k = Some l) by (apply Hin; left).
    pose proof (visit_activeStreams w t k l Hkl) as Hm.
    pose proof (visit_expired w t k l) as Hx.
    destruct (IH (visit now (w, t) (k, l)) Hnd) as [IH1 IH2].
    { intros k' l' Hin'. rewrite Hm.
      assert (k' ≠ k).
      { intros ->. apply Hk. apply list_elem_of_fmap. by exists (k, l'). }
      destruct (expired now w l); [rewrite lookup_delete_ne by done|];
        apply Hin; by right. }
    split.
    + intros l'. rewrite IH1. by apply Hx.
    + intros k'. rewrite IH2, Hm.
      destruct (decide (k' = k)) as [->|Hne].
      * rewrite Hkl. rewrite (bool_decide_eq_true_2 (k ∈ k :: entries.*1)) by left.
        simpl. destruct (expired now w l) eqn:E.
        -- by rewrite lookup_delete_eq.
        -- rewrite Hkl. rewrite (bool_decide_eq_false_2 (k ∈ entries.*1)) by done.
           done.
      * assert (Heq : (if expired now w l then delete k (activeStreams w)
                       else activeStreams w) !! k' = activeStreams w !! k').
        { destruct (expired now w l); [by rewrite lookup_delete_ne|done]. }
        rewrite Heq. destruct (activeStreams w !! k') as [l'|]; [|done].
        rewrite (Hx l' Hkl).
        assert (Hiff : bool_decide (k' ∈ entries.*1)
                       = bool_decide (k' ∈ k :: entries.*1)).
        { apply bool_decide_ext. rewrite elem_of_cons. split; [by right|by intros [?|?]]. }
        by rewrite Hiff.
Qed.

(** After the sweep, the map holds the entries it held before whose object
    does not pass the test. *)
Lemma cleanupInactiveConnections_activeStreams w k :
  activeStreams (cleanupInactiveConnections now w).1 !! k =
  match activeStreams w !! k with
  | Some l => if expired now w l then None else Some l
  | None => None
  end.
Proof.
  unfold cleanupInactiveConnections.
  destruct (sweep_loop (map_to_list (activeStreams w)) (w, [])) as [_ H].
  - apply NoDup_fst_map_to_list.
  - intros k' l' Hin. by apply elem_of_map_to_list in Hin.
  - rewrite H. simpl. destruct (activeStreams w !! k) as [l|] eqn:E; [|done].
    rewrite bool_decide_eq_true_2; [done|].
    apply list_elem_of_fmap. exists (k, l). split; [done|].
    by apply elem_of_map_to_list.
Qed.


End Sweep.




(* ===================================================================== *)
(** * Sessions with the same identifier *)
(* ===================================================================== *)

(** C1, as stated, fails. In [frameWorld] the session [abc-123] is registered
    for the connection [c1]. A second connection with the same session is
    accepted: it gets its acknowledgement, the service's entry for the session
    is replaced by the new backend connection, and the gateway then holds two
    active entries with that session. *)
Lemma duplicate_session_accepted :
  activeConnections (service frameWorld) !! js "abc-123"
  = Some {| c_connection := 0; c_sessionId := js "abc-123";
            c_slackChannel := js "#test"; c_conversationId := [];
            c_createdAt := 1000 |}
  ∧ (step frameWorld (Connection 8 (js "c2") frameQuery 2000 true)).2
    = [Log LInfo "New WebSocket connection";
       DgLive 1 (js "nova-2") (js "en-US") [js "abc-123"];
       WsSend 8 (MsgConnected (js "c2") (js "abc-123")
                   (js "Connected to transcription service"))]
  ∧ activeConnections
      (service (step frameWorld (Connection 8 (js "c2") frameQuery 2000 true)).1)
      !! js "abc-123"
    = Some {| c_connection := 1; c_sessionId := js "abc-123";
              c_slackChannel := js "#test"; c_conversationId := [];
              c_createdAt := 2000 |}
  ∧ (λ w, (l ← activeStreams w !! js "c1"; st ← heap w !! l;
           Some (session (params st), isActive st),
           l ← activeStreams w !! js "c2"; st ← heap w !! l;
           Some (session (params st), isActive st)))
      (step frameWorld (Connection 8 (js "c2") frameQuery 2000 true)).1
    = (Some (js "abc-123", true), Some (js "abc-123", true)).
Proof. repeat split; vm_compute; reflexivity. Qed.

(** C1, amended. A connection with valid parameters for which the SDK hands
    out a backend connection is always accepted, also when its session is
    registered already: no socket is closed and the acknowledgement is sent;
    the service's map, keyed by the session, gets the entry of the new backend
    connection in place of a former one and keeps its other entries; the
    gateway's map, keyed by the connection identifier, gets an entry for a
    new object and keeps its other entries; the objects that existed are
    untouched. The new connection becomes Active: its socket stays open and
    gets the listeners for the new object, which is marked active and holds
    the handle of the new backend connection. *)
Theorem duplicate_session_replaces w sock connectionId query now :
  isValid (validateConnectionParams (sanitizeConnectionParams query)) = true →
  ∃ l c,
    heap w !! l = None ∧ backends (service w) !! c = None
    ∧ existsb isClientClose
        (step w (Connection sock connectionId query now true)).2 = false
    ∧ WsSend sock (MsgConnected connectionId
                     (session (sanitizeConnectionParams query))
                     (js "Connected to transcription service"))
      ∈ (step w (Connection sock connectionId query now true)).2
    ∧ activeConnections
        (service (step w (Connection sock connectionId query now true)).1)
        !! session (sanitizeConnectionParams query)
      = Some {| c_connection := c;
                c_sessionId := session (sanitizeConnectionParams query);
                c_slackChannel := channel (sanitizeConnectionParams query);
                c_conversationId := conversation (sanitizeConnectionParams query);
                c_createdAt := now |}
    ∧ (∀ sid, sid ≠ session (sanitizeConnectionParams query) →
         activeConnections
           (service (step w (Connection sock connectionId query now true)).1) !! sid
         = activeConnections (service w) !! sid)
    ∧ activeStreams (step w (Connection sock connectionId query now true)).1
        !! connectionId = Some l
    ∧ heap (step w (Connection sock connectionId query now true)).1 !! l
      = Some (setDeepgramConnection (Some c)
                (newConnectionState connectionId sock
                   (sanitizeConnectionParams query) now))
    ∧ (∀ k, k ≠ connectionId →
         activeStreams (step w (Connection sock connectionId query now true)).1 !! k
         = activeStreams w !! k)
    ∧ (∀ l' st, heap w !! l' = Some st →
         heap (step w (Connection sock connectionId query now true)).1 !! l'
         = Some st)
    ∧ clients (step w (Connection sock connectionId query now true)).1 !! sock
      = Some OPEN
    ∧ listening (step w (Connection sock connectionId query now true)).1 sock
      = Some (l, setDeepgramConnection (Some c)
                   (newConnectionState connectionId sock
                      (sanitizeConnectionParams query) now))
    ∧ isActive (setDeepgramConnection (Some c)
                  (newConnectionState connectionId sock
                     (sanitizeConnectionParams query) now)) = true
    ∧ deepgramConnection (setDeepgramConnection (Some c)
                            (newConnectionState connectionId sock
                               (sanitizeConnectionParams query) now)) = Some c.
Proof.
  intros Hv. unfold step.
  rewrite (onConnection_accepted sock connectionId query now _ Hv).
  unfold listening.
  cbn [fst snd heap activeStreams service backends activeConnections setClients
       listeners clients].
  exists (fresh (dom (heap w))), (fresh (dom (backends (service w)))).
  split; [apply fresh_heap|]. split; [apply fresh_backend|].
  split; [done|]. split; [set_solver|].
  split; [by rewrite lookup_insert_eq|].
  split; [by intros; rewrite lookup_insert_ne|].
  split; [by rewrite lookup_insert_eq|].
  split; [by rewrite lookup_insert_eq|].
  split; [by intros; rewrite lookup_insert_ne|].
  split.
  { intros l' st Hl'. rewrite lookup_insert_ne; [done|].
    intros <-. by rewrite fresh_heap in Hl'. }
  split; [by rewrite lookup_insert_eq|].
  rewrite !lookup_insert_eq. cbn [mbind option_bind].
  by rewrite lookup_insert_eq.
Qed.

Lemma duplicate_session_replaces_witness :
  ∃ l c,
    heap frameWorld !! l = None ∧ backends (service frameWorld) !! c = None
    ∧ existsb isClientClose
        (step frameWorld (Connection 8 (js "c2") frameQuery 2000 true)).2 = false
    ∧ WsSend 8 (MsgConnected (js "c2")
                     (session (sanitizeConnectionParams frameQuery))
                     (js "Connected to transcription service"))
      ∈ (step frameWorld (Connection 8 (js "c2") frameQuery 2000 true)).2
    ∧ activeConnections
        (service (step frameWorld (Connection 8 (js "c2") frameQuery 2000 true)).1)
        !! session (sanitizeConnectionParams frameQuery)
      = Some {| c_connection := c;
                c_sessionId := session (sanitizeConnectionParams frameQuery);
                c_slackChannel := channel (sanitizeConnectionParams frameQuery);
                c_conversationId := conversation (sanitizeConnectionParams frameQuery);
                c_createdAt := 2000 |}
    ∧ (∀ sid, sid ≠ session (sanitizeConnectionParams frameQuery) →
         activeConnections
           (service (step frameWorld (Connection 8 (js "c2") frameQuery 2000 true)).1)
           !! sid
         = activeConnections (service frameWorld) !! sid)
    ∧ activeStreams (step frameWorld (Connection 8 (js "c2") frameQuery 2000 true)).1
        !! js "c2" = Some l
    ∧ heap (step frameWorld (Connection 8 (js "c2") frameQuery 2000 true)).1 !! l
      = Some (setDeepgramConnection (Some c)
                (newConnectionState (js "c2") 8
                   (sanitizeConnectionParams frameQuery) 2000))
    ∧ (∀ k, k ≠ js "c2" →
         activeStreams (step frameWorld (Connection 8 (js "c2") frameQuery 2000 true)).1
           !! k
         = activeStreams frameWorld !! k)
    ∧ (∀ l' st, heap frameWorld !! l' = Some st →
         heap (step frameWorld (Connection 8 (js "c2") frameQuery 2000 true)).1 !! l'
         = Some st)
    ∧ clients (step frameWorld (Connection 8 (js "c2") frameQuery 2000 true)).1
        !! 8%nat
      = Some OPEN
    ∧ listening (step frameWorld (Connection 8 (js "c2") frameQuery 2000 true)).1 8
      = Some (l, setDeepgramConnection (Some c)
                   (newConnectionState (js "c2") 8
                      (sanitizeConnectionParams frameQuery) 2000))
    ∧ isActive (setDeepgramConnection (Some c)
                  (newConnectionState (js "c2") 8
                     (sanitizeConnectionParams frameQuery) 2000)) = true
    ∧ deepgramConnection (setDeepgramConnection (Some c)
                            (newConnectionState (js "c2") 8
                               (sanitizeConnectionParams frameQuery) 2000)) = Some c.
Proof.
  apply (duplicate_session_replaces frameWorld 8 (js "c2") frameQuery 2000).
  vm_compute. reflexivity.
Defined.

(* ===================================================================== *)
(** * The rate limiter *)
(* ===================================================================== *)

Section RateLimiting.

Import RateLimiter.

Implicit Types (clients : gmap jsstring Client) (c : Client).

Lemma filter_all {A} (P : A → Prop) `{∀ x, Decision (P x)} (l : list A) :
  Forall P l → filter P l = l.
Proof.
  induction 1 as [|x l Hx _ IH]; [done|].
  by rewrite filter_cons_True, IH.
Qed.

Lemma filter_none {A} (P : A → Prop) `{∀ x, Decision (P x)} (l : list A) :
  Forall (λ x, ¬ P x) l → filter P l = [].
Proof.
  induction 1 as [|x l Hx _ IH]; [done|].
  by rewrite filter_cons_False.
Qed.

Lemma replicate_snoc {A} (j : nat) (x : A) :
  replicate j x ++ [x] = replicate (S j) x.
Proof. induction j as [|j IH]; [done|]. simpl. by rewrite IH. Qed.

(** A client that is blocked, with its requests of the instant [now]. *)
Lemma verdicts_blocked_now clientId maxRequests windowMs now n : ∀ clients c,
  0 < windowMs →
  clients !! clientId = Some c → blocked c = true → blockedAt c = Some now →
  Forall (λ t, now - t < windowMs) (requests c) →
  verdicts clientId maxRequests windowMs (replicate n now) clients
  = replicate n true.
Proof.
  induction n as [|n IH]; intros clients c Hw Hc Hb Hat Hreq; [done|].
  assert (Hd : default newClient (clients !! clientId) = c) by (by rewrite Hc).
  cbn [replicate verdicts]. unfold isRateLimited at 1 2.
  rewrite Hd, Hb, Hat.
  replace (now - now <? windowMs * 2) with true by (symmetry; apply Z.ltb_lt; lia).
  cbn [andb fst snd]. f_equal.
  eapply IH; [done|by rewrite lookup_alter_eq, Hc|done|done|].
  cbn [requests]. by rewrite filter_all.
Qed.

(** After [j] admitted calls at the instant [now]. *)
Lemma verdicts_burst clientId maxRequests windowMs now n : ∀ (j : nat) clients,
  0 < windowMs → 0 ≤ maxRequests →
  (j ≤ Z.to_nat maxRequests)%nat →
  requests (default newClient (clients !! clientId)) = replicate j now →
  blocked (default newClient (clients !! clientId)) = false →
  verdicts clientId maxRequests windowMs (replicate n now) clients
  = replicate (n `min` (Z.to_nat maxRequests - j)) false
    ++ replicate (n - (Z.to_nat maxRequests - j)) true.
Proof.
  induction n as [|n IH]; intros j clients Hw Hm Hj Hreq Hb; [done|].
  cbn [replicate verdicts]. unfold isRateLimited at 1 2.
  rewrite Hb, Hreq. cbn [andb].
  rewrite filter_all by (apply Forall_replicate; lia).
  rewrite length_replicate.
  destruct (Z.of_nat j >=? maxRequests) eqn:E; cbn [fst snd].
  - assert (j = Z.to_nat maxRequests) as Hjm by lia.
    replace (Z.to_nat maxRequests - j)%nat with 0%nat by lia.
    rewrite Nat.min_0_r, Nat.sub_0_r. cbn [replicate app]. f_equal.
    eapply verdicts_blocked_now; [done|by rewrite lookup_insert_eq|done|done|].
    cbn [requests]. apply Forall_replicate. lia.
  - assert (j < Z.to_nat maxRequests)%nat as Hlt by lia.
    rewrite (IH (S j)); [|done|done|lia| |].
    + replace (Z.to_nat maxRequests - j)%nat
        with (S (Z.to_nat maxRequests - S j)) by lia.
      rewrite <- Nat.succ_min_distr. done.
    + rewrite lookup_insert_eq. simpl. apply replicate_snoc.
    + rewrite lookup_insert_eq. reflexivity.
Qed.

Lemma foldl_delete_lookup {V} (P : jsstring → V → bool) (entries : list (jsstring * V)) :
  ∀ (acc : gmap jsstring V) k,
  foldl (λ a e, if P e.1 e.2 then delete e.1 a else a) acc entries !! k
  = if existsb (λ e, bool_decide (e.1 = k) && P e.1 e.2) entries
    then None else acc !! k.
Proof.
  induction entries as [|[k0 v0] entries IH]; intros acc k; cbn [foldl existsb fst snd];
    [done|].
  rewrite IH. destruct (existsb _ entries); [by rewrite orb_true_r|].
  rewrite orb_false_r. case_bool_decide as Hk; cbn [andb].
  - subst k0. destruct (P k v0); [by rewrite lookup_delete_eq|done].
  - destruct (P k0 v0); [by rewrite lookup_delete_ne|done].
Qed.

Lemma sweep_delete_lookup {V} (P : jsstring → V → bool) (m : gmap jsstring V) k :
  foldl (λ a e, if P e.1 e.2 then delete e.1 a else a) m (map_to_list m) !! k
  = match m !! k with
    | Some v => if P k v then None else Some v
    | None => None
    end.
Proof.
  rewrite foldl_delete_lookup.
  destruct (existsb _ (map_to_list m)) eqn:E.
  - apply existsb_exists in E as ([k0 v0] & Hin & Hp). cbn [fst snd] in Hp.
    apply andb_true_iff in Hp as [Hk Hp]. apply bool_decide_eq_true in Hk. subst k0.
    apply list_elem_of_In, elem_of_map_to_list in Hin. by rewrite Hin, Hp.
  - destruct (m !! k) as [v|] eqn:Hm; [|done].
    destruct (P k v) eqn:Hp; [|done].
    assert (existsb (λ e, bool_decide (e.1 = k) && P e.1 e.2) (map_to_list m) = true)
      as Hex; [|congruence].
    apply existsb_exists. exists (k, v). split.
    + by apply list_elem_of_In, elem_of_map_to_list.
    + cbn [fst snd]. by rewrite bool_decide_eq_true_2, Hp.
Qed.

Lemma lastRequest_ge c t : t ∈ requests c → t ≤ lastRequest c.
Proof.
  unfold lastRequest. generalize (default 0 (blockedAt c)) as z.
  induction (requests c) as [|x l IH]; intros z Hin; [by apply elem_of_nil in Hin|].
  apply elem_of_cons in Hin as [->|Hin]; cbn [foldr]; [lia|].
  specialize (IH z Hin). lia.
Qed.

End RateLimiting.

(** X1. A burst: of [n] calls for a client without entry, all made at the
    same instant with a positive window, the first [maxRequests] are admitted
    and all the others are refused. *)
Theorem rate_limiter_burst clientId maxRequests windowMs now (n : nat) clients :
  clients !! clientId = None → 0 < windowMs → 0 ≤ maxRequests →
  RateLimiter.verdicts clientId maxRequests windowMs (replicate n now) clients
  = replicate (n `min` Z.to_nat maxRequests) false
    ++ replicate (n - Z.to_nat maxRequests) true.
Proof.
  intros Hc Hw Hm.
  rewrite (verdicts_burst clientId maxRequests windowMs now n 0 clients);
    [by rewrite Nat.sub_0_r|done|done|lia| |]; by rewrite Hc.
Qed.

Lemma rate_limiter_burst_witness :
  RateLimiter.verdicts (js "10.0.0.1") 2 60000 (replicate 4 5000) ∅
  = replicate (4 `min` Z.to_nat 2) false ++ replicate (4 - Z.to_nat 2) true.
Proof.
  apply (rate_limiter_burst (js "10.0.0.1") 2 60000 5000 4 ∅); [reflexivity|lia|lia].
Defined.

(** X2. A client blocked at [t0] is refused at every call made less than two
    windows after [t0], whatever [maxRequests] is and however few requests
    it has made since; the block and its instant stay as they are in the
    state that the calls leave, and the entries of the other clients too. *)
Theorem rate_limiter_block_lasts clientId maxRequests windowMs times :
  ∀ clients c t0,
  clients !! clientId = Some c →
  RateLimiter.blocked c = true → RateLimiter.blockedAt c = Some t0 →
  Forall (λ now, now - t0 < windowMs * 2) times →
  RateLimiter.verdicts clientId maxRequests windowMs times clients
  = replicate (length times) true
  ∧ (∃ c', RateLimiter.served clientId maxRequests windowMs times clients
             !! clientId = Some c'
           ∧ RateLimiter.blocked c' = true
           ∧ RateLimiter.blockedAt c' = Some t0)
  ∧ (∀ k, k ≠ clientId →
       RateLimiter.served clientId maxRequests windowMs times clients !! k
       = clients !! k).
Proof.
  induction times as [|now times IH]; intros clients c t0 Hc Hb Hat Ht.
  { split; [done|]. split; [by exists c|done]. }
  apply Forall_cons in Ht as [Hnow Ht].
  assert (Hd : default RateLimiter.newClient (clients !! clientId) = c)
    by (by rewrite Hc).
  cbn [RateLimiter.verdicts RateLimiter.served length replicate].
  unfold RateLimiter.isRateLimited at 1 2 3 4. rewrite Hd, Hb, Hat.
  replace (now - t0 <? windowMs * 2) with true by (symmetry; apply Z.ltb_lt; lia).
  cbn [andb fst snd].
  edestruct (IH (alter (λ c0, {| RateLimiter.requests :=
                                   filter (λ time, now - time < windowMs)
                                     (RateLimiter.requests c);
                                 RateLimiter.blocked := RateLimiter.blocked c0;
                                 RateLimiter.blockedAt := RateLimiter.blockedAt c0 |})
                   clientId clients)) as (Hv & Hs & Ho);
    [by rewrite lookup_alter_eq, Hc|done|done|done|].
  split; [by f_equal|]. split; [done|].
  intros k Hk. rewrite (Ho k Hk). by rewrite lookup_alter_ne.
Qed.

Lemma rate_limiter_block_lasts_witness :
  RateLimiter.verdicts (js "10.0.0.1") 100 60000 [1000; 50000; 119999]
    {[ js "10.0.0.1" := {| RateLimiter.requests := [];
                           RateLimiter.blocked := true;
                           RateLimiter.blockedAt := Some 0 |} ]}
  = replicate (length [1000; 50000; 119999]) true
  ∧ ∃ c', RateLimiter.served (js "10.0.0.1") 100 60000 [1000; 50000; 119999]
            {[ js "10.0.0.1" := {| RateLimiter.requests := [];
                                   RateLimiter.blocked := true;
                                   RateLimiter.blockedAt := Some 0 |} ]}
            !! js "10.0.0.1" = Some c'
          ∧ RateLimiter.blocked c' = true
          ∧ RateLimiter.blockedAt c' = Some 0.
Proof.
  edestruct (rate_limiter_block_lasts (js "10.0.0.1") 100 60000
               [1000; 50000; 119999]
               {[ js "10.0.0.1" := {| RateLimiter.requests := [];
                                      RateLimiter.blocked := true;
                                      RateLimiter.blockedAt := Some 0 |} ]}
               {| RateLimiter.requests := []; RateLimiter.blocked := true;
                  RateLimiter.blockedAt := Some 0 |} 0) as (Hv & Hs & _).
  - apply lookup_singleton_eq.
  - reflexivity.
  - reflexivity.
  - repeat constructor.
  - exact (conj Hv Hs).
Defined.

(** X3. Two windows after the block, a call whose earlier requests are all
    out of the window is admitted when [maxRequests] is at least 1: the
    client is unblocked and holds this one request. *)
Theorem rate_limiter_unblocks clientId maxRequests windowMs now clients c t0 :
  clients !! clientId = Some c → RateLimiter.blockedAt c = Some t0 →
  windowMs * 2 ≤ now - t0 →
  Forall (λ t, windowMs ≤ now - t) (RateLimiter.requests c) →
  1 ≤ maxRequests →
  RateLimiter.isRateLimited clientId maxRequests windowMs now clients
  = (<[clientId := {| RateLimiter.requests := [now];
                      RateLimiter.blocked := false;
                      RateLimiter.blockedAt := Some t0 |}]> clients,
     false).
Proof.
  intros Hc Hat Ht Hreq Hm.
  assert (Hd : default RateLimiter.newClient (clients !! clientId) = c)
    by (by rewrite Hc).
  unfold RateLimiter.isRateLimited. rewrite Hd, Hat.
  replace (now - t0 <? windowMs * 2) with false by (symmetry; apply Z.ltb_ge; lia).
  rewrite andb_false_r.
  rewrite filter_none by (eapply Forall_impl; [done|]; cbn; lia).
  cbn [length app].
  destruct (Z.of_nat 0 >=? maxRequests) eqn:E; [|done].
  apply Z.geb_le in E. simpl in E. lia.
Qed.

Lemma rate_limiter_unblocks_witness :
  RateLimiter.isRateLimited (js "10.0.0.1") 100 60000 120000
    {[ js "10.0.0.1" := {| RateLimiter.requests := [10; 20];
                           RateLimiter.blocked := true;
                           RateLimiter.blockedAt := Some 0 |} ]}
  = (<[js "10.0.0.1" := {| RateLimiter.requests := [120000];
                           RateLimiter.blocked := false;
                           RateLimiter.blockedAt := Some 0 |}]>
       {[ js "10.0.0.1" := {| RateLimiter.requests := [10; 20];
                              RateLimiter.blocked := true;
                              RateLimiter.blockedAt := Some 0 |} ]},
     false).
Proof.
  eapply rate_limiter_unblocks.
  - apply lookup_singleton_eq.
  - reflexivity.
  - lia.
  - repeat constructor; cbn; lia.
  - lia.
Defined.

(** X4. The periodic clean-up of the rate limiter deletes exactly the clients
    whose latest instant (a request or the block) is more than two hours old;
    in particular a client with a stored request at most two hours old is
    kept, unchanged. *)
Theorem rate_limiter_cleanup now clients :
  (∀ k, RateLimiter.cleanup now clients !! k
        = match clients !! k with
          | Some c => if now - RateLimiter.lastRequest c >? 7200000 then None else Some c
          | None => None
          end)
  ∧ (∀ k c t, clients !! k = Some c → t ∈ RateLimiter.requests c →
              now - t ≤ 7200000 →
              RateLimiter.cleanup now clients !! k = Some c).
Proof.
  assert (H : ∀ k, RateLimiter.cleanup now clients !! k
        = match clients !! k with
          | Some c => if now - RateLimiter.lastRequest c >? 7200000 then None else Some c
          | None => None
          end).
  { intros k. unfold RateLimiter.cleanup.
    apply (sweep_delete_lookup
             (λ _ c, now - RateLimiter.lastRequest c >? RateLimiter.maxAge)). }
  split; [done|]. intros k c t Hc Hin Ht. rewrite H, Hc.
  pose proof (lastRequest_ge c t Hin).
  destruct (now - RateLimiter.lastRequest c >? 7200000) eqn:E; [exfalso; lia|done].
Qed.

Lemma rate_limiter_cleanup_witness :
  RateLimiter.cleanup 7200500
    {[ js "a" := {| RateLimiter.requests := [100; 600];
                    RateLimiter.blocked := false;
                    RateLimiter.blockedAt := None |} ]} !! js "a"
  = Some {| RateLimiter.requests := [100; 600]; RateLimiter.blocked := false;
            RateLimiter.blockedAt := None |}.
Proof.
  apply (proj2 (rate_limiter_cleanup 7200500 _) (js "a") _ 600).
  - apply lookup_singleton_eq.
  - cbn. set_solver.
  - lia.
Defined.

(* ===================================================================== *)
(** * The service's map of sessions *)
(* ===================================================================== *)

(** X5. Round trip of the service's map: after [createStreamingConnection]
    has succeeded, [getConnection] of its session returns the new entry and
    the other sessions are as before; [closeConnection] of that session then
    closes exactly the backend connection of the entry, after which
    [getConnection] returns [null] and the other sessions are still as they
    were at the start. *)
Theorem service_session_round_trip sv o now :
  ∃ c,
    (createStreamingConnection sv o now true).1.2 = Some c
    ∧ backends sv !! c = None
    ∧ Queries.getConnection (sessionId o) (createStreamingConnection sv o now true).1.1
      = Some {| c_connection := c; c_sessionId := sessionId o;
                c_slackChannel := slackChannel o;
                c_conversationId := conversationId o; c_createdAt := now |}
    ∧ (∀ sid, sid ≠ sessionId o →
         Queries.getConnection sid (createStreamingConnection sv o now true).1.1
         = Queries.getConnection sid sv)
    ∧ (closeConnection (sessionId o) (createStreamingConnection sv o now true).1.1).2
      = [DgClose c; Log LInfo "Closed connection for session"]
    ∧ Queries.getConnection (sessionId o)
        (closeConnection (sessionId o)
           (createStreamingConnection sv o now true).1.1).1 = None
    ∧ (∀ sid, sid ≠ sessionId o →
         Queries.getConnection sid
           (closeConnection (sessionId o)
              (createStreamingConnection sv o now true).1.1).1
         = Queries.getConnection sid sv)
    ∧ readyState <$>
        backends (closeConnection (sessionId o)
                    (createStreamingConnection sv o now true).1.1).1 !! c
      = Some 2.
Proof.
  exists (fresh (dom (backends sv))). unfold Queries.getConnection.
  unfold createStreamingConnection. cbn [fst snd backends activeConnections].
  split; [done|]. split; [apply fresh_backend|].
  split; [by rewrite lookup_insert_eq|].
  split; [by intros; rewrite lookup_insert_ne|].
  unfold closeConnection. cbn [activeConnections].
  rewrite lookup_insert_eq. cbn [c_connection close fst snd backends activeConnections app].
  split; [done|]. split; [by rewrite lookup_delete_eq|].
  split; [intros; by rewrite lookup_delete_ne, lookup_insert_ne|].
  by rewrite lookup_alter_eq, lookup_insert_eq.
Qed.

Section ServiceSweep.

Variable now : Z.

(** The test of the service's sweep on an entry. *)
Let old (entry : option ConnectionData) : bool :=
  match entry with
  | Some cd => now - c_createdAt cd >? Deepgram.maxAge
  | None => false
  end.

Let body (acc : Service * list Effect) (sid : jsstring) : Service * list Effect :=
  match activeConnections acc.1 !! sid with
  | Some connectionData =>
      if now - c_createdAt connectionData >? Deepgram.maxAge
      then
        let r := closeConnection sid acc.1 in
        (r.1, acc.2 ++ [Log LInfo "Cleaning up inactive connection"] ++ r.2)
      else acc
  | None => acc
  end.

Lemma body_activeConnections acc sid :
  activeConnections (body acc sid).1
  = if old (activeConnections acc.1 !! sid)
    then delete sid (activeConnections acc.1) else activeConnections acc.1.
Proof.
  unfold body, old. destruct (activeConnections acc.1 !! sid) as [cd|] eqn:E; [|done].
  destruct (_ >? _); [|done]. unfold closeConnection. by rewrite E.
Qed.

Lemma cleanupConnections_loop ids : ∀ acc k,
  activeConnections (foldl body acc ids).1 !! k
  = if bool_decide (k ∈ ids) && old (activeConnections acc.1 !! k)
    then None else activeConnections acc.1 !! k.
Proof.
  induction ids as [|sid ids IH]; intros acc k; cbn [foldl].
  - by rewrite bool_decide_eq_false_2 by apply not_elem_of_nil.
  - rewrite IH, body_activeConnections.
    destruct (decide (k = sid)) as [->|Hne].
    + rewrite (bool_decide_eq_true_2 (sid ∈ sid :: ids)) by left. cbn [andb].
      destruct (old (activeConnections acc.1 !! sid)) eqn:E.
      * rewrite lookup_delete_eq. by rewrite andb_false_r.
      * by rewrite E, andb_false_r.
    + assert (Heq : (if old (activeConnections acc.1 !! sid)
                     then delete sid (activeConnections acc.1)
                     else activeConnections acc.1) !! k = activeConnections acc.1 !! k).
      { destruct (old _); [by rewrite lookup_delete_ne|done]. }
      rewrite Heq.
      assert (Hiff : bool_decide (k ∈ ids) = bool_decide (k ∈ sid :: ids)).
      { apply bool_decide_ext. rewrite elem_of_cons. split; [by right|by intros [?|?]]. }
      by rewrite Hiff.
Qed.

Lemma cleanupConnections_activeConnections sv k :
  activeConnections (cleanupConnections now sv).1 !! k
  = if old (activeConnections sv !! k) then None else activeConnections sv !! k.
Proof.
  unfold cleanupConnections. fold body. rewrite cleanupConnections_loop. cbn [fst].
  destruct (activeConnections sv !! k) as [cd|] eqn:E; [|by rewrite andb_false_r].
  rewrite bool_decide_eq_true_2; [done|].
  apply list_elem_of_fmap. exists (k, cd). split; [done|].
  by apply elem_of_map_to_list.
Qed.

End ServiceSweep.

Section ServiceSweepCloses.

Implicit Types (sv : Service).

(** The entries of the service's map are only ever deleted by the sweep, and
    the backend connection of a deleted entry has been closed. *)
Lemma cleanupConnections_closes now sv :
  ∀ sid cd b,
    activeConnections sv !! sid = Some cd →
    activeConnections (cleanupConnections now sv).1 !! sid = None →
    backends sv !! c_connection cd = Some b →
    ∃ b', backends (cleanupConnections now sv).1 !! c_connection cd = Some b'
          ∧ settled (readyState b').
Proof.
  apply (cleanupConnections_invariant
    (λ sv' _,
       evolves (backends sv) (backends sv')
       ∧ (∀ sid cd, activeConnections sv' !! sid = Some cd →
                    activeConnections sv !! sid = Some cd)
       ∧ (∀ sid cd b,
            activeConnections sv !! sid = Some cd →
            activeConnections sv' !! sid = None →
            backends sv !! c_connection cd = Some b →
            ∃ b', backends sv' !! c_connection cd = Some b'
                  ∧ settled (readyState b')))).
  - split; [apply evolves_refl|]. split; [done|]. intros sid cd b H1 H2. congruence.
  - intros sid' sv' _ (He & Hsub & Hclosed).
    split; [eapply evolves_trans; [done|apply closeConnection_evolves]|].
    unfold closeConnection.
    destruct (activeConnections sv' !! sid') as [cd'|] eqn:E; cbn [fst];
      [|by split].
    cbn [backends activeConnections close fst].
    split.
    + intros sid cd. rewrite lookup_delete. case_decide; [done|]. apply Hsub.
    + intros sid cd b Hcd Hnone Hb. rewrite lookup_delete in Hnone.
      destruct He as [He _]. destruct (He _ _ Hb) as (b1 & Hb1 & _ & Hs1).
      case_decide as Hsid.
      * subst sid'. apply Hsub in E. assert (cd' = cd) as -> by congruence.
        rewrite lookup_alter_eq, Hb1. eexists. split; [done|]. apply settled_closing.
      * destruct (Hclosed sid cd b Hcd Hnone Hb) as (b2 & Hb2 & Hs2).
        rewrite lookup_alter. case_decide as Hsame; [|by eauto].
        rewrite Hsame, Hb2. eexists. split; [done|]. apply settled_closing.
Qed.

End ServiceSweepCloses.

(** X6. The sweep of the service removes exactly the sessions created more
    than 30 minutes (1 800 000 ms) before and keeps the entries of the others
    as they are; the backend connection of every removed session has been
    closed; no frame is handed to a backend connection, and a backend
    connection that was settled stays so. *)
Theorem service_sweep_removes_old now sv :
  (∀ sid, Queries.getConnection sid (cleanupConnections now sv).1
          = match Queries.getConnection sid sv with
            | Some cd => if now - c_createdAt cd >? 1800000 then None else Some cd
            | None => None
            end)
  ∧ (∀ sid cd b,
       Queries.getConnection sid sv = Some cd → 1800000 < now - c_createdAt cd →
       backends sv !! c_connection cd = Some b →
       ∃ b', backends (cleanupConnections now sv).1 !! c_connection cd = Some b'
             ∧ settled (readyState b'))
  ∧ forwarded (cleanupConnections now sv).2 = false
  ∧ evolves (backends sv) (backends (cleanupConnections now sv).1).
Proof.
  assert (H : ∀ sid, Queries.getConnection sid (cleanupConnections now sv).1
          = match Queries.getConnection sid sv with
            | Some cd => if now - c_createdAt cd >? 1800000 then None else Some cd
            | None => None
            end).
  { intros sid. unfold Queries.getConnection.
    rewrite cleanupConnections_activeConnections.
    destruct (activeConnections sv !! sid) as [cd|]; [|done].
    change Deepgram.maxAge with 1800000. by destruct (_ >? _). }
  split; [done|].
  split; [|split; [apply cleanupConnections_noForward|apply cleanupConnections_evolves]].
  intros sid cd b Hcd Hold Hb.
  apply (cleanupConnections_closes now sv sid cd b); [done| |done].
  specialize (H sid). unfold Queries.getConnection in *. rewrite H, Hcd.
  destruct (_ >? _) eqn:E; [done|lia].
Qed.

Lemma service_sweep_removes_old_witness :
  ∃ b', backends (cleanupConnections 1802000 (service frameWorld)).1 !! 0%nat = Some b'
        ∧ settled (readyState b').
Proof.
  assert (Hcd : ∃ cd, Queries.getConnection (js "abc-123") (service frameWorld) = Some cd
                      ∧ c_connection cd = 0%nat ∧ c_createdAt cd = 1000)
    by (eexists; split; [|split]; vm_compute; reflexivity).
  destruct Hcd as (cd & Hcd & Hc & Hat).
  assert (Hb : ∃ b, backends (service frameWorld) !! 0%nat = Some b)
    by (eexists; vm_compute; reflexivity).
  destruct Hb as (b & Hb).
  rewrite <- Hc.
  apply (proj1 (proj2 (service_sweep_removes_old 1802000 (service frameWorld)))
           (js "abc-123") cd b); [done|rewrite Hat; lia|by rewrite Hc].
Defined.

(** X7. The [close] listener of a backend connection deletes the service's
    entry of its session whichever connection that entry holds: when the
    entry belongs to another, newer connection with the same session, it is
    deleted all the same, and that other connection is left as it is. *)
Theorem backend_close_drops_session_entry w conn b cd :
  backends (service w) !! conn = Some b → readyState b ≠ 3 →
  Queries.getConnection (sessionId (captured b)) (service w) = Some cd →
  c_connection cd ≠ conn →
  Queries.getConnection (sessionId (captured b))
    (service (step w (BackendClosed conn)).1) = None
  ∧ backends (service (step w (BackendClosed conn)).1) !! c_connection cd
    = backends (service w) !! c_connection cd
  ∧ (step w (BackendClosed conn)).2
    = [Log LInfo "Deepgram connection closed for session"].
Proof.
  intros Hb Hrs Hcd Hne. unfold Queries.getConnection in *. cbn [step].
  rewrite Hb. destruct (readyState b =? 3) eqn:E; [apply Z.eqb_eq in E; done|].
  cbn [fst snd onCloseEvent setService setBackend service backends
       Deepgram.activeConnections].
  split; [by rewrite lookup_delete_eq|]. split; [|done].
  by rewrite lookup_alter_ne.
Qed.

Lemma backend_close_drops_session_entry_witness :
  Queries.getConnection (js "abc-123") (service (step twinWorld (BackendClosed 0)).1)
  = None
  ∧ backends (service (step twinWorld (BackendClosed 0)).1) !! 1%nat
    = backends (service twinWorld) !! 1%nat.
Proof.
  assert (Hb : ∃ b, backends (service twinWorld) !! 0%nat = Some b
                    ∧ readyState b = 1 ∧ sessionId (captured b) = js "abc-123")
    by (eexists; split; [|split]; vm_compute; reflexivity).
  destruct Hb as (b & Hb & Hrs & Hsid).
  assert (Hcd : ∃ cd, Queries.getConnection (js "abc-123") (service twinWorld) = Some cd
                      ∧ c_connection cd = 1%nat)
    by (eexists; split; vm_compute; reflexivity).
  destruct Hcd as (cd & Hcd & Hc).
  rewrite <- Hsid, <- Hc.
  destruct (backend_close_drops_session_entry twinWorld 0 b cd) as (H1 & H2 & _);
    [done|lia|by rewrite Hsid|by rewrite Hc|].
  by split.
Defined.

(* ===================================================================== *)
(** * Events of the gateway *)
(* ===================================================================== *)

Section GatewayEvents.

Lemma setService_setHeap_id w l st :
  heap w !! l = Some st →
  setService (service w) (setHeap (<[l := st]> (heap w)) w) = w.
Proof. apply setHeap_id. Qed.

Lemma listening_setClients c w sock :
  listening (setClients c w) sock = listening w sock.
Proof. done. Qed.

(** What [cleanup] does for a registered object with a handle. *)
Lemma cleanup_registered k w l st h :
  activeStreams w !! k = Some l → heap w !! l = Some st →
  deepgramConnection st = Some h →
  cleanup k w =
    ({| heap := <[l := setIsActive false st]> (heap w);
        activeStreams := delete k (activeStreams w);
        listeners := listeners w; clients := clients w;
        service := (close (service w) h).1 |},
     [DgClose h; Log LInfo "Cleaned up connection"]).
Proof.
  intros Hk Hl Hd. unfold cleanup. rewrite Hk, Hl. cbn [mbind option_bind].
  rewrite Hd. unfold setActiveStreams, setHeap, setService.
  cbn [fst snd heap activeStreams listeners clients service app]. f_equal. f_equal.
  apply map_eq. intros l'. rewrite lookup_alter, lookup_insert.
  case_decide; [subst l'; by rewrite Hl|done].
Qed.

End GatewayEvents.



(** X9. When the client socket of a connection with listeners closes or
    fails, in a reachable state, the entry under the identifier of the
    connection is gone from [activeStreams] afterwards. If that entry still
    was the connection's own object, its handle is closed by this event, the
    object is marked inactive, and no frame is handed to its backend
    connection in any later run. *)
Theorem close_event_removes_entry w sock l st e :
  reachable w → listening w sock = Some (l, st) →
  e = Closed sock ∨ e = Failed sock →
  activeStreams (step w e).1 !! id st = None
  ∧ (activeStreams w !! id st = Some l →
     ∃ h, deepgramConnection st = Some h
       ∧ DgClose h ∈ (step w e).2
       ∧ heap (step w e).1 !! l = Some (setIsActive false st)
       ∧ ∀ events a, DgSend h a ∉ (run (step w e).1 events).2).
Proof.
  intros Hr Hl He. pose proof (reachable_wf w Hr) as Hw.
  pose proof (step_wf w e Hw) as Hw'.
  apply listening_Some in Hl as Hl'. destruct Hl' as [HL Hh].
  destruct (wf_listeners w Hw sock l HL) as (st0 & Hst0 & Hws & [h Hd]).
  assert (st0 = st) as -> by congruence.
  destruct (wf_handles w Hw l st h Hh Hd) as [b Hb].
  assert (Hstep : ∃ w1 line,
            heap w1 = heap w ∧ activeStreams w1 = activeStreams w
            ∧ service w1 = service w
            ∧ step w e = ((cleanup (id st) w1).1, line :: (cleanup (id st) w1).2)).
  { destruct He as [-> | ->]; cbn [step].
    - rewrite listening_setClients, Hl. by eexists (setClients _ w), _.
    - rewrite Hl. by exists w, (Log LError "WebSocket error"). }
  destruct Hstep as (w1 & line & H1 & H2 & H3 & Hstep). rewrite Hstep in Hw' |- *.
  cbn [fst snd] in Hw' |- *. split; [apply cleanup_removes|].
  intros Hreg. exists h. split; [done|].
  rewrite <- H2 in Hreg. rewrite <- H1 in Hh.
  rewrite (cleanup_registered (id st) w1 l st h Hreg Hh Hd) in Hw' |- *.
  cbn [fst snd heap] in Hw' |- *.
  split; [rewrite !elem_of_cons; auto|]. split; [by rewrite lookup_insert_eq|].
  intros events a. rewrite <- H3 in Hb.
  destruct (close_settled (service w1) h b Hb) as (b' & Hb' & Hs).
  by apply (run_settled events _ h b' a Hw').
Qed.

Lemma close_event_removes_entry_witness :
  activeStreams (step frameWorld (Closed 7)).1 !! id frameState = None.
Proof.
  refine (proj1 (close_event_removes_entry frameWorld 7 0%nat frameState (Closed 7)
                   _ _ _)).
  - by eexists.
  - vm_compute. reflexivity.
  - by left.
Defined.

(** X10. When the parameters are valid but the SDK throws during the set-up,
    the client socket is closed with code 1011 and no listener is attached,
    yet the entry made before stays in [activeStreams], active and without
    handle: the [close] event of that socket does not remove it, and only
    the sweep does, once the entry is older than 30 minutes. *)
Theorem failed_setup_leaves_entry w sock connectionId query now :
  isValid (validateConnectionParams (sanitizeConnectionParams query)) = true →
  listeners w !! sock = None →
  (run w [Connection sock connectionId query now false; Closed sock]).2
  = [Log LInfo "New WebSocket connection";
     Log LError "Failed to create Deepgram connection:";
     Log LError "Error setting up WebSocket connection:";
     WsClose sock 1011 (js "Internal server error")]
  ∧ activeStreams
      (run w [Connection sock connectionId query now false; Closed sock]).1
      !! connectionId = Some (fresh (dom (heap w)))
  ∧ heap (run w [Connection sock connectionId query now false; Closed sock]).1
      !! fresh (dom (heap w))
    = Some (newConnectionState connectionId sock
              (sanitizeConnectionParams query) now)
  ∧ (∀ now',
       activeStreams
         (cleanupInactiveConnections now'
            (run w [Connection sock connectionId query now false; Closed sock]).1).1
         !! connectionId
       = if now' - now >? 1800000 then None else Some (fresh (dom (heap w)))).
Proof.
  intros Hv HL. cbn [run step].
  rewrite (onConnection_failed sock connectionId query now _ Hv).
  cbn [clients setClients].
  rewrite !bool_decide_eq_true_2 by apply lookup_insert_eq.
  cbn [fst snd]. unfold listening.
  cbn [listeners heap activeStreams setClients clients service].
  rewrite HL. cbn [mbind option_bind fst snd app]. unfold setClients.
  cbn [heap activeStreams].
  split; [done|]. split; [by rewrite lookup_insert_eq|].
  split; [by rewrite lookup_insert_eq|].
  intros now'. rewrite cleanupInactiveConnections_activeStreams.
  cbn [activeStreams]. rewrite lookup_insert_eq. unfold expired. cbn [heap].
  by rewrite lookup_insert_eq.
Qed.

Lemma failed_setup_leaves_entry_witness :
  activeStreams
    (run emptyWorld [Connection 3 (js "c3") frameQuery 100 false; Closed 3]).1
    !! js "c3" = Some (fresh (dom (heap emptyWorld))).
Proof.
  refine (proj1 (proj2 (failed_setup_leaves_entry emptyWorld 3 (js "c3") frameQuery
                          100 _ _))).
  - vm_compute. reflexivity.
  - reflexivity.
Defined.

Section SweepTwice.

Variable now : Z.

Lemma cleanupInactiveConnections_expired w l :
  expired now (cleanupInactiveConnections now w).1 l = expired now w l.
Proof.
  unfold cleanupInactiveConnections.
  destruct (sweep_loop now (map_to_list (activeStreams w)) (w, [])) as [H _];
    [apply NoDup_fst_map_to_list| |apply H].
  intros k' l' Hin. by apply elem_of_map_to_list in Hin.
Qed.

Lemma visit_kept w t k l : expired now w l = false → visit now (w, t) (k, l) = (w, t).
Proof.
  unfold visit, expired. cbn [fst snd]. destruct (heap w !! l) as [st|]; [|done].
  by intros ->.
Qed.

(** When no registered object passes the test, the sweep does nothing. *)
Lemma cleanupInactiveConnections_nothing w :
  (∀ k l, activeStreams w !! k = Some l → expired now w l = false) →
  cleanupInactiveConnections now w = (w, []).
Proof.
  intros H. unfold cleanupInactiveConnections.
  assert (G : ∀ entries,
            (∀ k l, (k, l) ∈ entries → expired now w l = false) →
            foldl (visit now) (w, []) entries = (w, [])).
  { induction entries as [|[k l] entries IH]; intros Hin; [done|].
    cbn [foldl]. rewrite visit_kept by (apply (Hin k); left).
    apply IH. intros k' l' Hin'. apply (Hin k'). by right. }
  apply G. intros k l Hin. apply (H k). by apply elem_of_map_to_list.
Qed.

End SweepTwice.

(** X11. The sweep is idempotent: run again at the same instant, it changes
    nothing and makes no call. More generally it does nothing whenever no
    registered object is inactive or older than the threshold. *)
Theorem sweep_idempotent now w :
  cleanupInactiveConnections now (cleanupInactiveConnections now w).1
  = ((cleanupInactiveConnections now w).1, [])
  ∧ ((∀ k l, activeStreams w !! k = Some l → expired now w l = false) →
     cleanupInactiveConnections now w = (w, [])).
Proof.
  split; [|apply cleanupInactiveConnections_nothing].
  apply cleanupInactiveConnections_nothing. intros k l.
  rewrite cleanupInactiveConnections_activeStreams, cleanupInactiveConnections_expired.
  destruct (activeStreams w !! k) as [l'|]; [|done].
  destruct (expired now w l') eqn:E; [done|]. by intros [= <-].
Qed.

Lemma sweep_idempotent_witness :
  cleanupInactiveConnections 2000 frameWorld = (frameWorld, []).
Proof.
  refine (proj2 (sweep_idempotent 2000 frameWorld) _).
  intros k l Hk. apply elem_of_map_to_list in Hk. vm_compute in Hk.
  inversion Hk as [|? ? ? Hnil]; subst; [|inversion Hnil].
  vm_compute. reflexivity.
Defined.

(* ===================================================================== *)
(** * Events of the backend *)
(* ===================================================================== *)

Section BackendEvents.

(** The trace of the [transcript] listener with the gateway's callback. *)
Lemma onTranscriptEvent_gateway o sock socks now ok data :
  onTranscript o = Some (transcriptCallback sock) →
  onTranscriptEvent o socks now ok data =
  match d_alternatives data ≫= head with
  | None => []
  | Some alt =>
      if nonempty (alt_transcript alt) then
        (if bool_decide (socks !! sock = Some OPEN)
         then [WsSend sock (MsgTranscript (transcriptResult o data alt now))]
         else [])
        ++ (if truthy (d_is_final data) && nonempty (slackChannel o)
               && nonempty (trim (alt_transcript alt))
            then sendToSlack
                   {| s_channel := slackChannel o;
                      s_transcript := alt_transcript alt;
                      s_confidence := alt_confidence alt;
                      s_sessionId := sessionId o;
                      s_conversationId := conversationId o;
                      s_duration := d_duration data |} ok
            else [])
      else []
  end.
Proof.
  intros Ht. unfold onTranscriptEvent. rewrite Ht.
  destruct (d_alternatives data ≫= head) as [alt|]; [|done].
  destruct (nonempty (alt_transcript alt)); [|done]. cbn [negb].
  unfold transcriptCallback. case_bool_decide; cbn [fst snd];
    destruct (_ && _); by rewrite ?app_nil_r.
Qed.

Lemma sendToSlack_no_client_send d ok s m : WsSend s m ∉ sendToSlack d ok.
Proof.
  unfold sendToSlack. intros H.
  destruct ok; repeat (apply elem_of_cons in H as [H|H]; [discriminate|]);
    by apply elem_of_nil in H.
Qed.

End BackendEvents.

(** X12. In a reachable state, a [transcript] event of a backend connection
    sends to a client only the transcript message built from that event, and
    only on a client socket that is open at that moment; conversely, with the
    gateway's callback for an open client socket, every result with a
    non-empty text is sent on it. The event changes no state. *)
Theorem transcript_reaches_open_socket w conn data now ok :
  (reachable w →
   ∀ s m, WsSend s m ∈ (step w (BackendTranscript conn data now ok)).2 →
     clients w !! s = Some OPEN
     ∧ ∃ b alt, backends (service w) !! conn = Some b
         ∧ d_alternatives data ≫= head = Some alt
         ∧ m = MsgTranscript (transcriptResult (captured b) data alt now))
  ∧ (∀ b sock alt,
       backends (service w) !! conn = Some b →
       onTranscript (captured b) = Some (transcriptCallback sock) →
       d_alternatives data ≫= head = Some alt → alt_transcript alt ≠ [] →
       clients w !! sock = Some OPEN →
       WsSend sock (MsgTranscript (transcriptResult (captured b) data alt now))
       ∈ (step w (BackendTranscript conn data now ok)).2)
  ∧ (step w (BackendTranscript conn data now ok)).1 = w.
Proof.
  split; [|split].
  - intros Hr s m. apply reachable_wf in Hr. cbn [step].
    destruct (backends (service w) !! conn) as [b|] eqn:Hb;
      [|intros H; by apply elem_of_nil in H].
    destruct (wf_callbacks w Hr conn b Hb) as (sock & Ht & _).
    cbn [snd]. rewrite (onTranscriptEvent_gateway _ sock _ _ _ _ Ht).
    destruct (d_alternatives data ≫= head) as [alt|];
      [|intros H; by apply elem_of_nil in H].
    destruct (nonempty (alt_transcript alt)); [|intros H; by apply elem_of_nil in H].
    intros H. apply elem_of_app in H as [H|H].
    + case_bool_decide as Hopen; [|by apply elem_of_nil in H].
      apply list_elem_of_singleton in H. inversion H; subst.
      split; [done|]. by exists b, alt.
    + destruct (_ && _); [|by apply elem_of_nil in H].
      by apply sendToSlack_no_client_send in H.
  - intros b sock alt Hb Ht Halt Hne Hopen. cbn [step]. rewrite Hb. cbn [snd].
    rewrite (onTranscriptEvent_gateway _ sock _ _ _ _ Ht), Halt.
    apply nonempty_true in Hne. rewrite Hne.
    rewrite bool_decide_eq_true_2 by done. apply elem_of_app. left.
    by apply list_elem_of_singleton.
  - cbn [step]. by destruct (backends (service w) !! conn).
Qed.

Lemma transcript_reaches_open_socket_witness :
  ∃ b alt,
    backends (service frameWorld) !! 0%nat = Some b
    ∧ d_alternatives (finalData "hello") ≫= head = Some alt
    ∧ WsSend 7 (MsgTranscript (transcriptResult (captured b) (finalData "hello")
                                 alt 5))
      ∈ (step frameWorld (BackendTranscript 0 (finalData "hello") 5 true)).2.
Proof.
  assert (Hb : ∃ b, backends (service frameWorld) !! 0%nat = Some b
                    ∧ onTranscript (captured b) = Some (transcriptCallback 7))
    by (eexists; split; vm_compute; reflexivity).
  destruct Hb as (b & Hb & Ht).
  assert (Ha : ∃ alt, d_alternatives (finalData "hello") ≫= head = Some alt
                      ∧ alt_transcript alt ≠ [])
    by (eexists; split; [reflexivity|vm_compute; discriminate]).
  destruct Ha as (alt & Ha & Hne).
  exists b, alt. split; [exact Hb|]. split; [exact Ha|].
  refine (proj1 (proj2 (transcript_reaches_open_socket frameWorld 0
                          (finalData "hello") 5 true))
            b 7%nat alt Hb Ht Ha Hne _).
  vm_compute. reflexivity.
Defined.

(** X13. An [error] event of a backend connection, in a reachable state,
    changes no state, closes neither the backend connection nor the client
    socket, and sends the client nothing but the message
    [Transcription service error], and that only on an open socket. *)
Theorem backend_error_keeps_connection w conn :
  reachable w →
  (step w (BackendError conn)).1 = w
  ∧ existsb isBackendCall (step w (BackendError conn)).2 = false
  ∧ existsb isClientClose (step w (BackendError conn)).2 = false
  ∧ (∀ s m, WsSend s m ∈ (step w (BackendError conn)).2 →
       clients w !! s = Some OPEN
       ∧ m = MsgError (js "Transcription service error")).
Proof.
  intros Hr. apply reachable_wf in Hr. cbn [step].
  destruct (backends (service w) !! conn) as [b|] eqn:Hb.
  - destruct (wf_callbacks w Hr conn b Hb) as (sock & _ & He).
    cbn [fst snd]. unfold onErrorEvent. rewrite He. unfold errorCallback.
    case_bool_decide as Hopen; cbn [fst].
    + split; [done|]. split; [done|]. split; [done|]. intros s m H.
      apply elem_of_cons in H as [H|H]; [discriminate|].
      apply elem_of_cons in H as [H|H]; [discriminate|].
      apply list_elem_of_singleton in H. by inversion H; subst.
    + split; [done|]. split; [done|]. split; [done|]. intros s m H.
      apply elem_of_cons in H as [H|H]; [discriminate|].
      apply elem_of_cons in H as [H|H]; [discriminate|].
      by apply elem_of_nil in H.
  - cbn [fst snd]. split; [done|]. split; [done|]. split; [done|].
    intros s m H. by apply elem_of_nil in H.
Qed.

Lemma backend_error_keeps_connection_witness :
  (step frameWorld (BackendError 0)).1 = frameWorld.
Proof.
  refine (proj1 (backend_error_keeps_connection frameWorld 0 _)). by eexists.
Defined.


(* ===================================================================== *)
(** * Statistics of the gateway *)
(* ===================================================================== *)

Section Statistics.

Implicit Types (h : gmap nat ConnectionState) (entries : list (jsstring * nat)).

(** The loop of [getConnectionStats] over the objects of the heap [h]. *)
Let loop h (acc : Queries.Stats) entries : Queries.Stats :=
  foldl (λ stats entry,
           match h !! entry.2 with
           | Some st => Queries.account stats entry.1 st
           | None => stats
           end) acc entries.

Lemma stats_totals h entries : ∀ acc,
  Queries.totalConnections (loop h acc entries) = Queries.totalConnections acc
  ∧ Queries.totalAudioChunks (loop h acc entries)
    = Queries.totalAudioChunks acc + tally audioChunks h entries
  ∧ Queries.totalBytes (loop h acc entries)
    = Queries.totalBytes acc + tally totalBytes h entries.
Proof.
  induction entries as [|[k l] entries IH]; intros acc; cbn [loop foldl tally foldr].
  - split; [done|]. split; lia.
  - destruct (IH (match h !! l with
                  | Some st => Queries.account acc k st
                  | None => acc
                  end)) as (H1 & H2 & H3).
    unfold loop in H1, H2, H3. cbn [fst snd]. rewrite H1, H2, H3.
    fold (tally audioChunks h entries). fold (tally totalBytes h entries).
    destruct (h !! l) as [st|]; cbn [Queries.account Queries.totalConnections
      Queries.totalAudioChunks Queries.totalBytes]; repeat split; lia.
Qed.

Lemma stats_active h entries : ∀ acc,
  (∀ k l, (k, l) ∈ entries → ∃ st, h !! l = Some st ∧ isActive st = true) →
  Queries.activeConnections (loop h acc entries)
  = Queries.activeConnections acc + Z.of_nat (length entries)
  ∧ Queries.s_id <$> Queries.connections (loop h acc entries)
    = (Queries.s_id <$> Queries.connections acc) ++ entries.*1
  ∧ (Forall (λ c, Queries.s_isActive c = true) (Queries.connections acc) →
     Forall (λ c, Queries.s_isActive c = true)
       (Queries.connections (loop h acc entries))).
Proof.
  induction entries as [|[k l] entries IH]; intros acc Hall; cbn [loop foldl].
  - rewrite app_nil_r. split; [cbn; lia|done].
  - destruct (Hall k l) as (st & Hst & Hact); [left|]. cbn [fst snd]. rewrite Hst.
    destruct (IH (Queries.account acc k st)) as (H1 & H2 & H3).
    { intros k' l' Hin. apply (Hall k'). by right. }
    unfold loop in H1, H2, H3. rewrite H1, H2.
    cbn [Queries.account Queries.activeConnections Queries.connections].
    rewrite Hact, fmap_app, fmap_cons, <-app_assoc. cbn [length fmap list_fmap app
      Queries.s_id fst].
    split; [lia|]. split; [done|]. intros Hacc. apply H3.
    cbn [Queries.account Queries.connections]. rewrite Hact.
    apply Forall_app. split; [done|]. by apply Forall_singleton.
Qed.

Lemma tally_insert g h l st st' entries :
  h !! l = Some st → NoDup entries.*2 →
  tally g (<[l := st']> h) entries
  = tally g h entries + (if bool_decide (l ∈ entries.*2) then g st' - g st else 0).
Proof.
  intros Hl. induction entries as [|[k l0] entries IH]; intros Hnd;
    cbn [tally foldr snd]; [done|].
  rewrite fmap_cons in Hnd. cbn [snd] in Hnd. apply NoDup_cons in Hnd as [Hnot Hnd].
  fold (tally g (<[l := st']> h) entries). fold (tally g h entries).
  rewrite (IH Hnd), fmap_cons. cbn [snd].
  destruct (decide (l0 = l)) as [->|Hne].
  - rewrite lookup_insert_eq, Hl.
    rewrite (bool_decide_eq_false_2 (l ∈ entries.*2)) by done.
    rewrite bool_decide_eq_true_2 by left. lia.
  - rewrite lookup_insert_ne by done.
    destruct (bool_decide (l ∈ entries.*2)) eqn:E.
    + apply bool_decide_eq_true in E.
      rewrite bool_decide_eq_true_2 by (by right).
      destruct (h !! l0); lia.
    + apply bool_decide_eq_false in E.
      rewrite bool_decide_eq_false_2; [destruct (h !! l0); lia|].
      intros Hin. apply elem_of_cons in Hin as [?|?]; [congruence|done].
Qed.

Lemma loop_insert_unregistered h l st' entries : ∀ acc,
  l ∉ entries.*2 → loop (<[l := st']> h) acc entries = loop h acc entries.
Proof.
  induction entries as [|[k l0] entries IH]; intros acc Hnot; cbn [loop foldl];
    [done|].
  rewrite fmap_cons in Hnot. cbn [snd] in Hnot.
  apply not_elem_of_cons in Hnot as [Hne Hnot]. cbn [fst snd].
  rewrite lookup_insert_ne by done. by apply IH.
Qed.

Lemma getConnectionStats_loop w :
  Queries.getConnectionStats w
  = loop (heap w)
      {| Queries.totalConnections := size (activeStreams w);
         Queries.activeConnections := 0; Queries.totalAudioChunks := 0;
         Queries.totalBytes := 0; Queries.connections := [] |}
      (map_to_list (activeStreams w)).
Proof. done. Qed.

Lemma wf_objects_distinct w : wf w → NoDup (map_to_list (activeStreams w)).*2.
Proof.
  intros Hw. apply NoDup_fmap_2_strong; [|apply NoDup_map_to_list].
  intros [k1 l1] [k2 l2] H1 H2 Heq. cbn [snd] in Heq. subst l2.
  apply elem_of_map_to_list in H1, H2. by rewrite (wf_inj w Hw k1 k2 l1 H1 H2).
Qed.

Lemma registered_elem w l :
  l ∈ (map_to_list (activeStreams w)).*2 ↔ ∃ k, activeStreams w !! k = Some l.
Proof.
  rewrite list_elem_of_fmap. split.
  - intros ([k l'] & -> & Hin). exists k. by apply elem_of_map_to_list.
  - intros (k & Hk). exists (k, l). split; [done|]. by apply elem_of_map_to_list.
Qed.

(** The statistics in a well-formed state. *)
Lemma getConnectionStats_wf w :
  wf w →
  Queries.activeConnections (Queries.getConnectionStats w)
  = Z.of_nat (Queries.totalConnections (Queries.getConnectionStats w))
  ∧ Queries.totalConnections (Queries.getConnectionStats w) = size (activeStreams w)
  ∧ Queries.s_id <$> Queries.connections (Queries.getConnectionStats w)
    = (map_to_list (activeStreams w)).*1
  ∧ Forall (λ c, Queries.s_isActive c = true)
      (Queries.connections (Queries.getConnectionStats w)).
Proof.
  intros Hw. rewrite getConnectionStats_loop.
  destruct (stats_totals (heap w) (map_to_list (activeStreams w))
              {| Queries.totalConnections := size (activeStreams w);
                 Queries.activeConnections := 0; Queries.totalAudioChunks := 0;
                 Queries.totalBytes := 0; Queries.connections := [] |})
    as (H1 & _).
  destruct (stats_active (heap w) (map_to_list (activeStreams w))
              {| Queries.totalConnections := size (activeStreams w);
                 Queries.activeConnections := 0; Queries.totalAudioChunks := 0;
                 Queries.totalBytes := 0; Queries.connections := [] |})
    as (H2 & H3 & H4).
  { intros k l Hin. apply elem_of_map_to_list in Hin.
    apply (wf_streams w Hw k l Hin). }
  rewrite H1, H2, H3. cbn [Queries.totalConnections Queries.activeConnections
    Queries.connections fmap list_fmap app].
  rewrite length_map_to_list. split; [lia|]. split; [done|]. split; [done|].
  by apply H4.
Qed.

(** The statistics after the object at [l] has counted a chunk. *)
Lemma getConnectionStats_countChunk w l st n :
  wf w → heap w !! l = Some st →
  let w' := setHeap (<[l := countChunk st n]> (heap w)) w in
  ((∃ k, activeStreams w !! k = Some l) →
     Queries.totalAudioChunks (Queries.getConnectionStats w')
     = Queries.totalAudioChunks (Queries.getConnectionStats w) + 1
     ∧ Queries.totalBytes (Queries.getConnectionStats w')
       = Queries.totalBytes (Queries.getConnectionStats w) + n)
  ∧ ((∀ k, activeStreams w !! k ≠ Some l) →
     Queries.getConnectionStats w' = Queries.getConnectionStats w).
Proof.
  intros Hw Hl w'. subst w'. rewrite !getConnectionStats_loop.
  assert (Hh : ∀ h, heap (setHeap h w) = h) by (intros; by destruct w).
  assert (Ha : ∀ h, activeStreams (setHeap h w) = activeStreams w)
    by (intros; by destruct w).
  rewrite Hh, Ha. split.
  - intros Hk. apply registered_elem in Hk.
    pose proof (wf_objects_distinct w Hw) as Hnd.
    set (init := {| Queries.totalConnections := size (activeStreams w);
                    Queries.activeConnections := 0; Queries.totalAudioChunks := 0;
                    Queries.totalBytes := 0; Queries.connections := [] |}).
    destruct (stats_totals (<[l := countChunk st n]> (heap w))
                (map_to_list (activeStreams w)) init) as (_ & H1 & H2).
    destruct (stats_totals (heap w) (map_to_list (activeStreams w)) init)
      as (_ & H3 & H4).
    rewrite H1, H2, H3, H4.
    rewrite !(tally_insert _ (heap w) l st (countChunk st n) _ Hl Hnd).
    rewrite bool_decide_eq_true_2 by done.
    cbn [countChunk audioChunks totalBytes]. split; lia.
  - intros Hk. apply loop_insert_unregistered. rewrite registered_elem.
    intros (k & Hk'). by apply (Hk k).
Qed.

End Statistics.

(** X14. In every reachable state the statistics of the gateway count every
    registered connection as active: [activeConnections] equals
    [totalConnections], the size of [activeStreams]; the list [connections]
    has one element for each entry, under its [connectionId], and each one
    has [isActive] true. *)
Theorem stats_count_all_active w :
  reachable w →
  Queries.activeConnections (Queries.getConnectionStats w)
  = Z.of_nat (Queries.totalConnections (Queries.getConnectionStats w))
  ∧ Queries.totalConnections (Queries.getConnectionStats w) = size (activeStreams w)
  ∧ Queries.s_id <$> Queries.connections (Queries.getConnectionStats w)
    = (map_to_list (activeStreams w)).*1
  ∧ Forall (λ c, Queries.s_isActive c = true)
      (Queries.connections (Queries.getConnectionStats w)).
Proof. intros Hr. apply getConnectionStats_wf. by apply reachable_wf. Qed.

Lemma stats_count_all_active_witness :
  Queries.activeConnections (Queries.getConnectionStats twinWorld)
  = Z.of_nat (Queries.totalConnections (Queries.getConnectionStats twinWorld)).
Proof.
  refine (proj1 (stats_count_all_active twinWorld _)).
  exists [Connection 7 (js "c1") frameQuery 1000 true; BackendOpen 0;
          Connection 8 (js "c2") frameQuery 2000 true; BackendOpen 1].
  vm_compute. reflexivity.
Defined.

(** X15. In a reachable state, a frame within the bounds that arrives on a
    listening socket adds 1 to [totalAudioChunks] and its length to
    [totalBytes] of the statistics when the connection's object is still
    registered in [activeStreams]; when it is registered no more (its entry
    was removed, but its listeners remain), the statistics do not change. *)
Theorem frame_updates_stats w sock l st audio :
  reachable w → listening w sock = Some (l, st) → inBounds audio →
  ((∃ k, activeStreams w !! k = Some l) →
     Queries.totalAudioChunks
       (Queries.getConnectionStats (step w (Message sock (Binary audio))).1)
     = Queries.totalAudioChunks (Queries.getConnectionStats w) + 1
     ∧ Queries.totalBytes
         (Queries.getConnectionStats (step w (Message sock (Binary audio))).1)
       = Queries.totalBytes (Queries.getConnectionStats w)
         + Z.of_nat (length audio))
  ∧ ((∀ k, activeStreams w !! k ≠ Some l) →
     Queries.getConnectionStats (step w (Message sock (Binary audio))).1
     = Queries.getConnectionStats w).
Proof.
  intros Hr Hl Hb. apply reachable_wf in Hr.
  rewrite (step_frame_accepted w sock l st audio Hl Hb). cbn [fst].
  apply listening_Some in Hl as [_ Hh].
  apply (getConnectionStats_countChunk w l st _ Hr Hh).
Qed.

Lemma frame_updates_stats_witness :
  Queries.totalAudioChunks
    (Queries.getConnectionStats
       (step frameWorld (Message 7 (Binary (repeat x01 200)))).1)
  = Queries.totalAudioChunks (Queries.getConnectionStats frameWorld) + 1.
Proof.
  assert (Hl : listening frameWorld 7 = Some (0%nat, frameState))
    by (vm_compute; reflexivity).
  refine (proj1 (proj1 (frame_updates_stats frameWorld 7 0%nat frameState
                          (repeat x01 200) _ Hl _) _)).
  - by eexists.
  - unfold inBounds. vm_compute. split; discriminate.
  - exists (js "c1"). vm_compute. reflexivity.
Defined.


(* ===================================================================== *)
(** * sanitizeInput under any options *)
(* ===================================================================== *)

Section SanitizingLength.

Implicit Types (r : regex) (s rest rep : jsstring).

Lemma suffix_length_le s rest : rest `suffix_of` s → (length rest ≤ length s)%nat.
Proof. intros [pre ->]. rewrite length_app. lia. Qed.

Lemma search_length r s pre rest :
  search r s = Some (pre, rest) → (length pre + length rest ≤ length s)%nat.
Proof.
  revert pre rest. induction s as [|c s IH]; intros pre rest H; simpl in H.
  - destruct (match_here r []) eqn:E; [|done]. inversion H; subst.
    apply match_here_suffix, suffix_length_le in E. simpl in *. lia.
  - destruct (match_here r (c :: s)) eqn:E.
    + inversion H; subst. apply match_here_suffix, suffix_length_le in E.
      simpl in *. lia.
    + destruct (search r s) as [[pre' rest']|] eqn:E'; [|done].
      inversion H; subst. specialize (IH pre' rest eq_refl). simpl. lia.
Qed.

(** Deleting matches never makes a string longer. *)
Lemma replace_first_length r s : (length (replace_first r [] s) ≤ length s)%nat.
Proof.
  unfold replace_first. destruct (search r s) as [[pre rest]|] eqn:E; [|done].
  apply search_length in E. rewrite length_app. simpl. lia.
Qed.

Lemma replace_all_from_length r n : ∀ s,
  (length (replace_all_from n r [] s) ≤ length s)%nat.
Proof.
  induction n as [|n IH]; intros s; simpl; [done|].
  destruct (match_here r s) as [rest|] eqn:E.
  - destruct (length rest <? length s)%nat eqn:El.
    + apply Nat.ltb_lt in El. specialize (IH rest). simpl. lia.
    + destruct s as [|c s]; [done|]. specialize (IH s). simpl. lia.
  - destruct s as [|c s]; [done|]. specialize (IH s). simpl. lia.
Qed.

Lemma replace_all_length r s : (length (replace_all r [] s) ≤ length s)%nat.
Proof. apply replace_all_from_length. Qed.

(** Replacing the code units of a class works unit by unit. *)
Lemma replace_all_from_Chr_flat_map (p : Z → bool) rep n : ∀ s,
  (length s < n)%nat →
  replace_all_from n (Chr p) rep s = flat_map (λ c, if p c then rep else [c]) s.
Proof.
  induction n as [|n IH]; intros s Hn; [lia|]. simpl.
  destruct s as [|c s]; unfold match_here; simpl; [done|].
  destruct (p c) eqn:E; simpl.
  - replace (length s <? S (length s))%nat with true
      by (symmetry; apply Nat.ltb_lt; lia).
    rewrite IH by (simpl in Hn; lia). done.
  - rewrite IH by (simpl in Hn; lia). done.
Qed.

Lemma replace_all_Chr_flat_map (p : Z → bool) rep s :
  replace_all (Chr p) rep s = flat_map (λ c, if p c then rep else [c]) s.
Proof. apply replace_all_from_Chr_flat_map. lia. Qed.

Lemma escapeHtml_app s1 s2 : escapeHtml (s1 ++ s2) = escapeHtml s1 ++ escapeHtml s2.
Proof.
  unfold escapeHtml. rewrite !replace_all_Chr_flat_map.
  by rewrite !flat_map_app.
Qed.

(** One code unit becomes at most six. *)
Lemma escapeHtml_unit (c : Z) : (length (escapeHtml [c]) ≤ 6)%nat.
Proof.
  unfold escapeHtml. rewrite !replace_all_Chr_flat_map. unfold only.
  cbn [flat_map app].
  destruct (c =? 60) eqn:E1; [apply Z.eqb_eq in E1; subst; vm_compute; lia|].
  cbn [flat_map app]. rewrite ?app_nil_r.
  destruct (c =? 62) eqn:E2; [apply Z.eqb_eq in E2; subst; vm_compute; lia|].
  cbn [flat_map app]. rewrite ?app_nil_r.
  destruct (c =? 34) eqn:E3; [apply Z.eqb_eq in E3; subst; vm_compute; lia|].
  cbn [flat_map app]. rewrite ?app_nil_r.
  destruct (c =? 39) eqn:E4; [apply Z.eqb_eq in E4; subst; vm_compute; lia|].
  cbn [flat_map app]. rewrite ?app_nil_r.
  destruct (c =? 47) eqn:E5; [apply Z.eqb_eq in E5; subst; vm_compute; lia|].
  cbn [length]. lia.
Qed.

Lemma escapeHtml_length s : (length (escapeHtml s) ≤ 6 * length s)%nat.
Proof.
  induction s as [|c s IH]; [vm_compute; lia|].
  change (c :: s) with ([c] ++ s). rewrite escapeHtml_app, !length_app.
  pose proof (escapeHtml_unit c). simpl length in *. lia.
Qed.

Lemma sqlPatterns_length (pats : list regex) : ∀ s,
  (length (fold_left (λ acc p, if test p acc then replace_first p [] acc else acc)
             pats s) ≤ length s)%nat.
Proof.
  induction pats as [|p pats IH]; intros s; simpl; [done|].
  etrans; [apply IH|]. destruct (test p s); [apply replace_first_length|done].
Qed.

Lemma scriptPatterns_length (pats : list regex) : ∀ s,
  (length (fold_left (λ acc p, if test p acc then replace_all p [] acc else acc)
             pats s) ≤ length s)%nat.
Proof.
  induction pats as [|p pats IH]; intros s; simpl; [done|].
  etrans; [apply IH|]. destruct (test p s); [apply replace_all_length|done].
Qed.

(** The truncation step. *)
Lemma truncate_length (n : Z) s :
  Z.of_nat (length (if Z.of_nat (length s) >? n then substring0 n s else s))
  ≤ Z.max 0 n.
Proof.
  destruct (Z.of_nat (length s) >? n) eqn:E.
  - unfold substring0. rewrite length_take. lia.
  - lia.
Qed.

End SanitizingLength.

(** X16. Whatever the options, the result of [sanitizeInput] holds no ASCII
    control character; when [allowSpecialChars] is false, it holds only
    letters, digits, white space and the five characters [-], [_], [@], [#]
    and [.]. *)
Theorem sanitizeInput_any_options input o :
  Forall (λ c, isControl c = false) (sanitizeInput input o)
  ∧ (allowSpecialChars o = false →
     Forall (λ c, isLower c || isUpper c || isDigit c || isWhite c
                  || (c =? 45) || (c =? 95) || (c =? 64) || (c =? 35)
                  || (c =? 46) = true)
       (sanitizeInput input o)).
Proof.
  unfold sanitizeInput.
  destruct (negb (truthy input) || negb (typeofString input)); [done|].
  destruct input as [| | | |s|]; try done. cbv zeta. split.
  - apply scriptPatterns_Forall, sqlPatterns_Forall. by apply replace_all_Chr.
  - intros ->. cbn [negb].
    apply scriptPatterns_Forall, sqlPatterns_Forall.
    apply replace_all_Forall; [done|].
    eapply Forall_impl; [apply replace_all_Chr; done|].
    intros c Hc. cbv beta in Hc. by apply negb_false_iff in Hc.
Qed.

Lemma sanitizeInput_any_options_witness :
  Forall (λ c, isLower c || isUpper c || isDigit c || isWhite c
               || (c =? 45) || (c =? 95) || (c =? 64) || (c =? 35)
               || (c =? 46) = true)
    (sanitizeInput (JString (js "<a href=x>R&D; 100%</a>"))
       {| maxLength := 100; allowHtml := false; allowSpecialChars := false |}).
Proof.
  refine (proj2 (sanitizeInput_any_options _ _) _). reflexivity.
Defined.

(** X17. The result of [sanitizeInput] is never longer than six times
    [maxLength] (every escaped character becomes at most six), and never
    longer than [maxLength] when [allowHtml] is true; a negative [maxLength]
    counts as 0. *)
Theorem sanitizeInput_length input o :
  Z.of_nat (length (sanitizeInput input o)) ≤ 6 * Z.max 0 (maxLength o)
  ∧ (allowHtml o = true →
     Z.of_nat (length (sanitizeInput input o)) ≤ Z.max 0 (maxLength o)).
Proof.
  unfold sanitizeInput.
  destruct (negb (truthy input) || negb (typeofString input));
    [simpl; split; intros; lia|].
  destruct input as [| | | |s|]; try (simpl; split; intros; lia). cbv zeta.
  pose proof (truncate_length (maxLength o) (trim s)) as Ht.
  set (s2 := if _ >? _ then _ else _) in *.
  assert (Hrest : ∀ s3 : jsstring,
    (length
       (fold_left (λ acc p, if test p acc then replace_all p [] acc else acc)
          scriptPatterns
          (fold_left (λ acc p, if test p acc then replace_first p [] acc else acc)
             sqlPatterns
             (replace_all reControl []
                (if negb (allowSpecialChars o)
                 then replace_all reSpecial [] s3 else s3)))) ≤ length s3)%nat).
  { intros s3. etrans; [apply scriptPatterns_length|].
    etrans; [apply sqlPatterns_length|]. etrans; [apply replace_all_length|].
    destruct (negb (allowSpecialChars o)); [apply replace_all_length|done]. }
  split.
  - specialize (Hrest (if negb (allowHtml o) then escapeHtml s2 else s2)).
    pose proof (escapeHtml_length s2).
    destruct (negb (allowHtml o)); lia.
  - intros ->. specialize (Hrest s2). cbn [negb]. lia.
Qed.

Lemma sanitizeInput_length_witness :
  Z.of_nat (length (sanitizeInput (JString (js "<<<<<<<<<<"))
                      {| maxLength := 4; allowHtml := true;
                         allowSpecialChars := true |}))
  ≤ Z.max 0 4.
Proof.
  refine (proj2 (sanitizeInput_length _ _) _). reflexivity.
Defined.

(* ===================================================================== *)
(** * validateAudioStream under any options *)
(* ===================================================================== *)

(** X18. For every chunk and every option object, [validateAudioStream]
    reports a valid chunk exactly when the chunk is a Buffer no longer than
    [maxChunkSize] that is either empty with [allowEmpty] set, or non-empty
    and at least [minChunkSize] long; [isValid] is true exactly when
    [errors] is empty, and there are never more than two errors. *)
Theorem validateAudioStream_accepts chunk o :
  (isValid (validateAudioStream chunk o) = true ↔
     isBuffer chunk = true
     ∧ chunkLength chunk ≤ maxChunkSize o
     ∧ (chunkLength chunk = 0 → allowEmpty o = true)
     ∧ (chunkLength chunk ≠ 0 → minChunkSize o ≤ chunkLength chunk))
  ∧ (isValid (validateAudioStream chunk o) = true ↔
       errors (validateAudioStream chunk o) = [])
  ∧ (length (errors (validateAudioStream chunk o)) ≤ 2)%nat.
Proof.
  unfold validateAudioStream, result.
  assert (Hlen : 0 ≤ chunkLength chunk) by (destruct chunk; simpl; lia).
  destruct (isBuffer chunk); cbn [negb]; [|by repeat split; try done; simpl; lia].
  destruct (chunkLength chunk =? 0) eqn:E0; cbn [andb].
  - apply Z.eqb_eq in E0. rewrite E0 in *.
    destruct (allowEmpty o); cbn [negb].
    + cbv zeta. destruct (0 >? maxChunkSize o) eqn:E1;
        destruct (0 <? minChunkSize o); cbn;
        (split; [|split; [done|lia]]); split; try done; try lia;
        intros (_ & ? & _); lia.
    + split; [|split; [done|simpl; lia]]. split; [done|].
      intros (_ & _ & H & _). by specialize (H eq_refl).
  - apply Z.eqb_neq in E0. cbv zeta.
    destruct (chunkLength chunk >? maxChunkSize o) eqn:E1;
      destruct (chunkLength chunk <? minChunkSize o) eqn:E2;
      destruct (chunkLength chunk >? 0) eqn:E3; cbn;
      (split; [|split; [done|lia]]); split; try done; try lia;
      try (intros (_ & ? & _ & ?); lia).
Qed.


(* ===================================================================== *)
(** * Audio buffers and audio files *)
(* ===================================================================== *)

Example parseInt_ex :
  map Std.parseInt
    [js "50MB"; js "  -12px"; js "0x1F"; js "MB"; js ""; js "undefined"; js "007";
     js "0XB"; js "9007199254740992"; js "9007199254740993";
     js "-9007199254740995"; js "0x20000000000003"]
  = [Some 50; Some (-12); Some 31; None; None; None; Some 7; Some 11;
     Some 9007199254740992; Some 9007199254740992; Some (-9007199254740996);
     Some 9007199254740996].
Proof. vm_compute. reflexivity. Qed.

(** A numeral of 309 digits is read as a finite Number or as Infinity, and
    one of 310 digits as Infinity. *)
Example parseInt_infinite :
  Std.parseInt (js "1" ++ repeat 48 308) = Some (5010420900022432 * 2 ^ 971)
  ∧ Std.parseInt (js "2" ++ repeat 48 308) = Some Std.infinity
  ∧ Std.parseInt (js "-1" ++ repeat 48 309) = Some (- Std.infinity).
Proof. repeat split; vm_compute; reflexivity. Qed.

Example split_ex :
  Std.split 44 (js "wav,mp3,,flac") = [js "wav"; js "mp3"; []; js "flac"].
Proof. vm_compute. reflexivity. Qed.

Example parseFileSize_ex :
  map Upload.parseFileSize
    [js "50MB"; js "2GB"; js "10"; js "7TB"; js "1kb"; js "9007199254740993B"]
  = [Some 52428800; Some 2147483648; Some 52428800; Some 7; Some 52428800;
     Some 9007199254740992].
Proof. vm_compute. reflexivity. Qed.

Section AudioBuffers.

Import AudioFiles.

Implicit Types (bytes header rest : list byte).

Lemma every_lookup bytes header :
  every bytes header = true ↔ ∀ i b, header !! i = Some b → bytes !! i = Some b.
Proof.
  unfold every. rewrite forallb_forall. split.
  - intros H i b Hi.
    specialize (H (match bytes !! i with Some x => Byte.eqb x b | None => false end)).
    destruct (bytes !! i) as [x|] eqn:E.
    + assert (Hx : Byte.eqb x b = true).
      { apply H. apply list_elem_of_In, elem_of_lookup_imap. exists i, b.
        by rewrite E. }
      apply Byte.byte_dec_bl in Hx. by subst.
    + exfalso. assert (false = true); [|done].
      apply H. apply list_elem_of_In, elem_of_lookup_imap. exists i, b.
      by rewrite E.
  - intros H x Hx. apply list_elem_of_In, elem_of_lookup_imap in Hx
      as (i & b & -> & Hi).
    rewrite (H i b Hi). by apply Byte.byte_dec_lb.
Qed.

Lemma lookup_prefix bytes header :
  (∀ i b, header !! i = Some b → bytes !! i = Some b) ↔ header `prefix_of` bytes.
Proof.
  split.
  - revert bytes. induction header as [|h header IH]; intros bytes H;
      [apply prefix_nil|].
    destruct bytes as [|x bytes]; [by specialize (H 0%nat h eq_refl)|].
    specialize (H 0%nat h eq_refl) as H0. injection H0 as ->.
    apply prefix_cons, IH. intros i b Hi. by apply (H (S i) b).
  - intros Hp i b Hi. by eapply prefix_lookup_Some.
Qed.

Lemma knownHeader_prefix bytes :
  knownHeader bytes = true ↔ ∃ header, header ∈ headers ∧ header `prefix_of` bytes.
Proof.
  unfold knownHeader. rewrite existsb_exists. split.
  - intros (header & Hin & H). apply andb_true_iff in H as [_ H].
    exists header. split; [by apply list_elem_of_In|].
    by apply lookup_prefix, every_lookup.
  - intros (header & Hin & Hp). exists header. split; [by apply list_elem_of_In|].
    apply andb_true_iff. split.
    + apply Nat.leb_le. by apply prefix_length.
    + by apply every_lookup, lookup_prefix.
Qed.

Lemma validateAudioBuffer_errors b :
  isValid (validateAudioBuffer b) = false → errors (validateAudioBuffer b) ≠ [].
Proof.
  unfold validateAudioBuffer. destruct b as [bytes|]; [|done].
  destruct (length bytes =? 0)%nat; [done|]. cbv zeta. apply result_invalid.
Qed.

End AudioBuffers.

(** X19. [validateAudioBuffer] accepts a Buffer exactly when it starts with
    one of the five known headers, or is at least 8 bytes long with bytes 4
    to 7 equal to [ftyp] once their highest bit is unset; an accepted
    buffer has at least 2 bytes; and the result depends on the first 8
    bytes only. *)
Theorem validateAudioBuffer_signature bytes :
  (isValid (AudioFiles.validateAudioBuffer (Buffer bytes)) = true ↔
     (∃ header, header ∈ AudioFiles.headers ∧ header `prefix_of` bytes)
     ∨ ((8 ≤ length bytes)%nat ∧ AudioFiles.asciiSlice 4 8 bytes = js "ftyp"))
  ∧ (isValid (AudioFiles.validateAudioBuffer (Buffer bytes)) = true →
     (2 ≤ length bytes)%nat)
  ∧ (∀ rest, (8 ≤ length bytes)%nat →
       AudioFiles.validateAudioBuffer (Buffer (bytes ++ rest))
       = AudioFiles.validateAudioBuffer (Buffer bytes)).
Proof.
  assert (Hiff :
    isValid (AudioFiles.validateAudioBuffer (Buffer bytes)) = true ↔
      (∃ header, header ∈ AudioFiles.headers ∧ header `prefix_of` bytes)
      ∨ ((8 ≤ length bytes)%nat ∧ AudioFiles.asciiSlice 4 8 bytes = js "ftyp")).
  { unfold AudioFiles.validateAudioBuffer. rewrite <-knownHeader_prefix.
    destruct (length bytes =? 0)%nat eqn:E0.
    - apply Nat.eqb_eq in E0. destruct bytes; [|done]. cbn [isValid].
      split; [done|]. intros [H|[H _]]; [by vm_compute in H|simpl in H; lia].
    - cbv zeta. destruct (AudioFiles.knownHeader bytes); cbn [negb andb].
      + split; [by left|done].
      + destruct (8 <=? length bytes)%nat eqn:E8.
        * apply Nat.leb_le in E8. case_bool_decide as Hf; cbn.
          -- split; [by right|done].
          -- split; [done|]. by intros [?|[_ ?]].
        * apply Nat.leb_gt in E8. cbn. split; [done|].
          intros [?|[? _]]; [done|lia]. }
  split; [exact Hiff|]. split.
  - intros H. apply Hiff in H as [(header & Hin & Hp)|[H _]]; [|lia].
    apply prefix_length in Hp. unfold AudioFiles.headers in Hin.
    repeat (apply elem_of_cons in Hin as [->|Hin]; [simpl in Hp; lia|]).
    by apply elem_of_nil in Hin.
  - intros rest H8.
    do 8 (destruct bytes as [|? bytes]; [simpl in H8; lia|]). reflexivity.
Qed.

Section FileSizes.

Import Std AudioFiles Upload.

Implicit Types (s size unit : jsstring).

Lemma isDigit_not_white c : isDigit c = true → isWhite c = false.
Proof. unfold isDigit, isWhite, between. lia. Qed.

Lemma digitValue_digit c : isDigit c = true → digitValue 10 c = Some (c - 48).
Proof.
  intros H. unfold digitValue. rewrite H.
  unfold isDigit, between in H. destruct (c - 48 <? 10) eqn:E; [done|lia].
Qed.

Lemma digitValue_upper c : isUpper c = true → digitValue 10 c = None.
Proof.
  intros H. unfold digitValue.
  replace (isDigit c) with false by (unfold isDigit, isUpper, between in *; lia).
  replace (isLower c) with false by (unfold isLower, isUpper, between in *; lia).
  rewrite H. unfold isUpper, between in H. destruct (c - 55 <? 10) eqn:E; [lia|done].
Qed.

(** The digits of a decimal numeral followed by capital letters. *)
Lemma digits_numeral size unit : ∀ acc,
  forallb isDigit size = true → forallb isUpper unit = true →
  digits 10 acc (size ++ unit) = digits 10 acc size.
Proof.
  induction size as [|c size IH]; intros acc Hs Hu.
  - destruct unit as [|u unit]; [done|]. simpl in Hu.
    apply andb_true_iff in Hu as [Hu _]. simpl. by rewrite digitValue_upper.
  - simpl in Hs. apply andb_true_iff in Hs as [Hc Hs]. simpl.
    rewrite digitValue_digit by done. by apply IH.
Qed.

Lemma digits_is_Some size : ∀ acc,
  forallb isDigit size = true → (size ≠ [] ∨ is_Some acc) →
  is_Some (digits 10 acc size).
Proof.
  induction size as [|c size IH]; intros acc Hs Hne.
  - destruct Hne as [?|?]; done.
  - simpl in Hs. apply andb_true_iff in Hs as [Hc Hs]. simpl.
    rewrite digitValue_digit by done. apply IH; [done|]. by right.
Qed.

(** A digit has a value that is not negative, and so has a numeral. *)
Lemma digitValue_nonneg radix c d : digitValue radix c = Some d → 0 ≤ d.
Proof.
  unfold digitValue, isDigit, isLower, isUpper, between.
  destruct ((48 <=? c) && (c <=? 57)) eqn:E1;
    [|destruct ((97 <=? c) && (c <=? 122)) eqn:E2;
      [|destruct ((65 <=? c) && (c <=? 90)) eqn:E3; [|done]]];
    match goal with |- context [?x <? radix] => destruct (x <? radix) end;
    intros [= <-]; lia.
Qed.

Lemma digits_nonneg radix s : ∀ acc n,
  0 ≤ radix → (∀ a, acc = Some a → 0 ≤ a) →
  digits radix acc s = Some n → 0 ≤ n.
Proof.
  induction s as [|c s IH]; intros acc n Hr Hacc; cbn [digits]; [by apply Hacc|].
  destruct (digitValue radix c) as [d|] eqn:Ed; [|by apply Hacc].
  apply IH; [done|]. intros a [= <-]. apply digitValue_nonneg in Ed.
  destruct acc as [a0|]; simpl; [specialize (Hacc a0 eq_refl); nia|lia].
Qed.

(** An integer below 2^53 is a Number. *)
Lemma double_small n : Z.abs n < 2 ^ 53 → double n = n.
Proof.
  intros Hn. unfold double, nearest.
  assert (Hlog : Z.log2 (Z.abs n) - 52 ≤ 0).
  { destruct (decide (Z.abs n = 0)) as [->|Hz]; [done|].
    assert (Z.log2 (Z.abs n) < 53) by (apply Z.log2_lt_pow2; lia). lia. }
  replace (Z.log2 (Z.abs n) - 52 <=? 0) with true by lia.
  unfold infinity.
  assert (2 ^ 53 < 2 ^ 1024) by (by apply Z.pow_lt_mono_r).
  destruct (2 ^ 1024 <=? Z.abs n) eqn:E; [lia|done].
Qed.

(** The Number value of an integer that is not negative is not negative. *)
Lemma double_nonneg n : 0 ≤ n → 0 ≤ double n.
Proof.
  intros Hn. unfold double.
  assert (Hnear : 0 ≤ nearest n).
  { unfold nearest. destruct (Z.log2 (Z.abs n) - 52 <=? 0) eqn:E; [done|].
    apply Z.leb_gt in E. cbv zeta.
    assert (0 < 2 ^ (Z.log2 (Z.abs n) - 52)) by (apply Z.pow_pos_nonneg; lia).
    assert (0 ≤ Z.abs n / 2 ^ (Z.log2 (Z.abs n) - 52))
      by (apply Z.div_pos; lia).
    assert (0 ≤ Z.sgn n) by lia.
    apply Z.mul_nonneg_nonneg; [done|].
    apply Z.mul_nonneg_nonneg; [|lia].
    destruct (_ || _); lia. }
  assert (0 < infinity) by done.
  destruct (infinity <=? Z.abs (nearest n)); [nia|done].
Qed.

(** [parseInt] of a decimal numeral followed by capital letters reads the
    numeral, unless the text starts with [0X]. *)
Lemma parseInt_numeral size unit :
  size ≠ [] → forallb isDigit size = true → forallb isUpper unit = true →
  ¬ (size = js "0" ∧ head unit = Some 88) →
  parseInt (size ++ unit) = option_map double (digits 10 None size).
Proof.
  intros Hne Hs Hu Hx. destruct size as [|c size]; [done|].
  pose proof Hs as Hs'. simpl in Hs'. apply andb_true_iff in Hs' as [Hc Hs'].
  unfold parseInt. cbn [app trimStart]. rewrite (isDigit_not_white c Hc).
  assert (Hsign : c ≠ 45 ∧ c ≠ 43) by (unfold isDigit, between in Hc; lia).
  assert (Hgo : (let '(radix, s0) :=
                   match c :: size ++ unit with
                   | 48 :: x :: s' =>
                       if (x =? 120) || (x =? 88) then (16, s') else (10, c :: size ++ unit)
                   | _ => (10, c :: size ++ unit)
                   end in option_map (λ n, double (1 * n)) (digits radix None s0))
                = option_map double (digits 10 None (c :: size))).
  { assert (Hd : option_map (λ n, double (1 * n))
                   (digits 10 None (c :: size ++ unit))
                 = option_map double (digits 10 None (c :: size))).
    { change (c :: size ++ unit) with ((c :: size) ++ unit).
      rewrite digits_numeral by done.
      destruct (digits 10 None (c :: size)) as [n|]; simpl; [|done].
      by rewrite Z.mul_1_l. }
    destruct (decide (c = 48)) as [->|Hc0].
    - destruct size as [|x size].
      + destruct unit as [|u unit]; [exact Hd|]. cbn [app].
        simpl in Hu. apply andb_true_iff in Hu as [Hu0 _].
        assert (u ≠ 120) by (unfold isUpper, between in Hu0; lia).
        assert (u ≠ 88) by (intros ->; by apply Hx).
        replace ((u =? 120) || (u =? 88)) with false by lia. exact Hd.
      + cbn [app]. simpl in Hs'. apply andb_true_iff in Hs' as [Hx0 _].
        replace ((x =? 120) || (x =? 88)) with false
          by (unfold isDigit, between in Hx0; lia).
        exact Hd.
    - destruct c as [|p|p]; try exact Hd.
      do 6 (destruct p as [p|p|]; try exact Hd). done. }
  destruct c as [|p|p]; try exact Hgo.
  do 6 (destruct p as [p|p|]; try exact Hgo); lia.
Qed.

(** The number that [parseInt] reads in a decimal numeral is not
    negative. *)
Lemma parseInt_numeral_nonneg size n :
  size ≠ [] → forallb isDigit size = true → parseInt size = Some n → 0 ≤ n.
Proof.
  intros Hne Hd. rewrite <-(app_nil_r size) at 1.
  rewrite (parseInt_numeral size [] Hne Hd eq_refl) by (by intros [_ ?]).
  destruct (digits 10 None size) as [m|] eqn:Em; [|done]. intros [= <-].
  apply double_nonneg. by apply (digits_nonneg 10 size None m).
Qed.

Lemma span_app p s : (span p s).1 ++ (span p s).2 = s.
Proof.
  induction s as [|c s IH]; [done|]. simpl. destruct (p c); [|done].
  destruct (span p s) as [a b]. simpl in *. by rewrite IH.
Qed.

Lemma span_forallb p s : forallb p (span p s).1 = true.
Proof.
  induction s as [|c s IH]; [done|]. simpl. destruct (p c) eqn:E; [|done].
  destruct (span p s) as [a b]. simpl in *. by rewrite E, IH.
Qed.

Lemma sizeMatch_Some s size unit :
  sizeMatch s = Some (size, unit) →
  s = size ++ unit ∧ size ≠ [] ∧ forallb isDigit size = true
  ∧ forallb isUpper unit = true.
Proof.
  unfold sizeMatch. pose proof (span_app isDigit s) as Happ.
  pose proof (span_forallb isDigit s) as Hd.
  destruct (span isDigit s) as [a b]. simpl in *.
  destruct (nonempty a && _ && forallb isUpper b) eqn:E; [|done].
  intros [= <- <-]. apply andb_true_iff in E as [E Hu].
  apply andb_true_iff in E as [E _]. apply nonempty_true in E. done.
Qed.

(** The groups of the model are those of the pattern: the pattern matches
    exactly when [sizeMatch] finds its groups. *)
Lemma star_digits (k : jsstring → option jsstring) :
  (∀ c s, isDigit c = true → k (c :: s) = None) →
  ∀ n s, (length s ≤ n)%nat →
    star true (rmatch (Chr isDigit)) k n s = k (span isDigit s).2.
Proof.
  intros Hk. induction n as [|n IH]; intros s Hn.
  - destruct s; [|simpl in Hn; lia]. simpl. done.
  - destruct s as [|c s]; [done|]. cbn [star rmatch span].
    destruct (isDigit c) eqn:Ec.
    + replace (length s <? length (c :: s))%nat with true
        by (symmetry; apply Nat.ltb_lt; simpl; lia).
      rewrite IH by (simpl in Hn; lia).
      destruct (span isDigit s) as [a b]. cbn [snd].
      destruct (k b); [done|]. by apply Hk.
    + done.
Qed.

Lemma sizeMatch_pattern s :
  match_whole reSize s = true ↔ is_Some (sizeMatch s).
Proof.
  unfold match_whole, reSize, Plus, Opt, sizeMatch. cbn [rmatch].
  destruct s as [|c s]; [split; [done|by intros [? ?]]|].
  cbn [span]. destruct (isDigit c) eqn:Ec;
    [|cbn; split; [done|by intros [? ?]]].
  rewrite star_digits; [| |done].
  - destruct (span isDigit s) as [a b]. cbn [snd nonempty andb].
    destruct b as [|u1 [|u2 [|u3 b]]]; cbn.
    + split; [done|by intros [? ?]].
    + destruct (isUpper u1); cbn; split; try done; by intros [? ?].
    + destruct (isUpper u1); cbn; [|split; [done|by intros [? ?]]].
      destruct (isUpper u2); cbn; split; try done; by intros [? ?].
    + destruct (isUpper u1); cbn; [|split; [done|by intros [? ?]]].
      destruct (isUpper u2); cbn; split; try done; by intros [? ?].
  - intros d s' Hd.
    replace (isUpper d) with false
      by (unfold isDigit, isUpper, between in *; lia).
    done.
Qed.

Lemma result_valid_nil {E} (errs : list E) : isValid (result errs) = true → errs = [].
Proof. by destruct errs. Qed.

End FileSizes.

(** X20. The upload route and the file validator read the same setting
    [MAX_FILE_SIZE] differently. For a setting made of a decimal numeral and
    a unit of one or two capital letters (other than a text that starts
    with [0X]), where [n] is the Number that [parseInt] reads in the
    numeral, [validateAudioFile] takes [n] alone as its limit in bytes (or
    50 MB when [n] is 0), while [parseFileSize] returns the Number value of
    the product of [n] and the factor of the unit, which is that product
    when it is below 2^53. *)
Theorem size_limit_ignores_unit env sizeStr size unit n :
  AudioFiles.MAX_FILE_SIZE env = Some sizeStr →
  Upload.sizeMatch sizeStr = Some (size, unit) →
  ¬ (size = js "0" ∧ head unit = Some 88) →
  Std.parseInt size = Some n →
  0 ≤ n
  ∧ Upload.parseFileSize sizeStr = Some (Std.double (n * Upload.unitFactor unit))
  ∧ (n * Upload.unitFactor unit < 2 ^ 53 →
     Upload.parseFileSize sizeStr = Some (n * Upload.unitFactor unit))
  ∧ AudioFiles.maxSize env = (if n =? 0 then 52428800 else n).
Proof.
  intros Henv Hm Hx Hn.
  assert (Hp : Upload.parseFileSize sizeStr
               = Some (Std.double (n * Upload.unitFactor unit)))
    by (unfold Upload.parseFileSize; by rewrite Hm, Hn).
  apply sizeMatch_Some in Hm as (-> & Hne & Hd & Hu).
  pose proof (parseInt_numeral_nonneg size n Hne Hd Hn) as Hpos.
  split; [done|]. split; [done|]. split.
  - intros Hb. rewrite Hp. f_equal. apply double_small.
    assert (0 ≤ Upload.unitFactor unit)
      by (unfold Upload.unitFactor; repeat case_bool_decide; lia).
    rewrite Z.abs_eq by nia. done.
  - unfold AudioFiles.maxSize. rewrite Henv. cbn [default]. unfold Datatypes.id.
    rewrite (parseInt_numeral size unit Hne Hd Hu Hx).
    rewrite <-(parseInt_numeral size [] Hne Hd eq_refl), app_nil_r, Hn; [done|].
    by intros [_ ?].
Qed.

Lemma size_limit_ignores_unit_witness :
  Upload.parseFileSize (js "50MB") = Some (50 * Upload.unitFactor (js "MB"))
  ∧ AudioFiles.maxSize
      {| AudioFiles.MAX_FILE_SIZE := Some (js "50MB");
         AudioFiles.SUPPORTED_FORMATS := None |}
    = (if 50 =? 0 then 52428800 else 50).
Proof.
  destruct (size_limit_ignores_unit
              {| AudioFiles.MAX_FILE_SIZE := Some (js "50MB");
                 AudioFiles.SUPPORTED_FORMATS := None |}
              (js "50MB") (js "50") (js "MB") 50) as (_ & _ & Hp & Hmax).
  - reflexivity.
  - vm_compute. reflexivity.
  - intros [H _]. vm_compute in H. discriminate.
  - vm_compute. reflexivity.
  - split; [|exact Hmax]. apply Hp. vm_compute. reflexivity.
Defined.

(** X21. A file that [validateAudioFile] accepts is at least 1024 bytes and
    at most the limit long, has an allowed MIME type, a name of 1 to 255
    code units that none of the patterns matches, and a buffer, if any, that
    [validateAudioBuffer] accepts. Hence, when the limit is below 1024 (as
    with the setting [50MB], read as 50 bytes), no file at all is
    accepted. *)
Theorem validateAudioFile_accepts env file :
  (isValid (AudioFiles.validateAudioFile env (Some file)) = true →
     1024 ≤ AudioFiles.size file ≤ AudioFiles.maxSize env
     ∧ AudioFiles.mimetype file ∈ AudioFiles.allowedMimeTypes env
     ∧ (1 ≤ length (AudioFiles.originalname file) ≤ 255)%nat
     ∧ existsb (λ pattern, pattern (AudioFiles.originalname file))
         AudioFiles.dangerousPatterns = false
     ∧ (∀ b, AudioFiles.buffer file = Some b →
          isValid (AudioFiles.validateAudioBuffer b) = true))
  ∧ (AudioFiles.maxSize env < 1024 →
     isValid (AudioFiles.validateAudioFile env (Some file)) = false).
Proof.
  assert (Hsound :
    isValid (AudioFiles.validateAudioFile env (Some file)) = true →
     1024 ≤ AudioFiles.size file ≤ AudioFiles.maxSize env
     ∧ AudioFiles.mimetype file ∈ AudioFiles.allowedMimeTypes env
     ∧ (1 ≤ length (AudioFiles.originalname file) ≤ 255)%nat
     ∧ existsb (λ pattern, pattern (AudioFiles.originalname file))
         AudioFiles.dangerousPatterns = false
     ∧ (∀ b, AudioFiles.buffer file = Some b →
          isValid (AudioFiles.validateAudioBuffer b) = true)).
  { unfold AudioFiles.validateAudioFile. cbv zeta. intros H.
    apply result_valid_nil in H.
    destruct (AudioFiles.size file >? AudioFiles.maxSize env) eqn:E1.
    { destruct (AudioFiles.buffer file) as [b|];
        [destruct (negb (isValid (AudioFiles.validateAudioBuffer b)))|];
        repeat match type of H with
               | context [if ?c then _ else _] => destruct c
               end;
        apply (f_equal length) in H; rewrite ?length_app in H; simpl in H; lia. }
    destruct (AudioFiles.size file <? 1024) eqn:E2.
    { destruct (AudioFiles.buffer file) as [b|];
        [destruct (negb (isValid (AudioFiles.validateAudioBuffer b)))|];
        repeat match type of H with
               | context [if ?c then _ else _] => destruct c
               end;
        apply (f_equal length) in H; rewrite ?length_app in H; simpl in H; lia. }
    destruct (negb (bool_decide (AudioFiles.mimetype file
                                 ∈ AudioFiles.allowedMimeTypes env))) eqn:E3.
    { destruct (AudioFiles.buffer file) as [b|];
        [destruct (negb (isValid (AudioFiles.validateAudioBuffer b)))|];
        repeat match type of H with
               | context [if ?c then _ else _] => destruct c
               end;
        apply (f_equal length) in H; rewrite ?length_app in H; simpl in H; lia. }
    destruct (negb (nonempty (AudioFiles.originalname file))
              || (Z.of_nat (length (AudioFiles.originalname file)) >? 255)) eqn:E4.
    { destruct (AudioFiles.buffer file) as [b|];
        [destruct (negb (isValid (AudioFiles.validateAudioBuffer b)))|];
        repeat match type of H with
               | context [if ?c then _ else _] => destruct c
               end;
        apply (f_equal length) in H; rewrite ?length_app in H; simpl in H; lia. }
    destruct (existsb (λ pattern, pattern (AudioFiles.originalname file))
                AudioFiles.dangerousPatterns) eqn:E5.
    { destruct (AudioFiles.buffer file) as [b|];
        [destruct (negb (isValid (AudioFiles.validateAudioBuffer b)))|];
        apply (f_equal length) in H; rewrite ?length_app in H; simpl in H; lia. }
    apply negb_false_iff, bool_decide_eq_true in E3.
    apply orb_false_iff in E4 as [E4 E4']. apply negb_false_iff, nonempty_true in E4.
    split; [lia|]. split; [done|]. split.
    { assert (length (AudioFiles.originalname file) ≠ 0%nat)
        by (by destruct (AudioFiles.originalname file)).
      lia. }
    split; [done|]. intros b Hb. rewrite Hb in H.
    destruct (isValid (AudioFiles.validateAudioBuffer b)) eqn:Eb; [done|].
    cbn [negb app] in H. apply fmap_nil_inv in H.
    by apply validateAudioBuffer_errors in Eb. }
  split; [exact Hsound|]. intros Hmax.
  apply not_true_is_false. intros E. apply Hsound in E as [? _]. lia.
Qed.

Lemma validateAudioFile_accepts_witness :
  isValid
    (AudioFiles.validateAudioFile
       {| AudioFiles.MAX_FILE_SIZE := Some (js "50MB");
          AudioFiles.SUPPORTED_FORMATS := None |}
       (Some {| AudioFiles.size := 4096; AudioFiles.mimetype := js "audio/wav";
                AudioFiles.originalname := js "a.wav";
                AudioFiles.buffer := None |}))
  = false.
Proof.
  refine (proj2 (validateAudioFile_accepts _ _) _). vm_compute. reflexivity.
Defined.


(* ===================================================================== *)
(** * The three validators of the connection parameters *)
(* ===================================================================== *)

Section ParamValidators.

(** A list of errors that holds an entry is not empty. *)
Local Ltac too_long H :=
  repeat match type of H with
         | context [if ?c then _ else _] => destruct c
         end;
  apply (f_equal length) in H; rewrite ?length_app in H; simpl in H; lia.

Lemma validLanguages_format l :
  l ∈ Params.validLanguages → match_whole reLanguage l = true.
Proof.
  assert (H : forallb (match_whole reLanguage) Params.validLanguages = true)
    by (vm_compute; reflexivity).
  intros Hin. apply list_elem_of_In in Hin.
  by apply (proj1 (forallb_forall _ _) H).
Qed.

Lemma library_models m :
  m ∈ Params.validModels ↔ m ∈ Handler.validModels ∨ m = js "whisper".
Proof.
  unfold Params.validModels, Handler.validModels.
  rewrite !elem_of_cons, !elem_of_nil. tauto.
Qed.

Lemma whisper_not_gateway : js "whisper" ∉ Handler.validModels.
Proof.
  unfold Handler.validModels. rewrite !elem_of_cons, elem_of_nil.
  intros [H|[H|[H|[H|H]]]]; by vm_compute in H.
Qed.

Lemma truthy_JString (s : jsstring) : truthy (JString s) = nonempty s.
Proof. done. Qed.

(** The errors of an inner validation are added when it failed. *)
Lemma result_guard {E} (pre errs : list E) :
  (if negb (Validation.isValid (result errs))
   then pre ++ Validation.errors (result errs) else pre) = [] →
  pre = [] ∧ errs = [].
Proof.
  destruct errs as [|e errs]; cbn; [done|]. intros H.
  apply (f_equal length) in H. rewrite length_app in H. simpl in H. lia.
Qed.

(** What [validateWebSocketParams] of validation.js accepts, for strings. *)
Lemma library_accepts p :
  Validation.isValid (Params.validateWebSocketParams (Params.ofParams p)) = true →
  nonempty (channel p) = true ∧ match_whole reChannel (channel p) = true
  ∧ nonempty (session p) = true
  ∧ 3 ≤ Z.of_nat (length (session p)) ≤ 100
  ∧ match_whole Params.reId (session p) = true
  ∧ (nonempty (language p) = true → language p ∈ Params.validLanguages)
  ∧ (nonempty (model p) = true → model p ∈ Params.validModels).
Proof.
  unfold Params.validateWebSocketParams, Params.validateTranscriptionParams,
    Params.ofParams, Params.includes.
  cbn [Params.language Params.model Params.channel Params.session
       Params.conversation].
  rewrite !truthy_JString. cbv zeta. intros H. apply result_valid_nil in H.
  apply result_guard in H as [Hpre He]. cbv beta iota in He.
  destruct (nonempty (channel p)) eqn:E1; cbn [negb] in Hpre; [|too_long Hpre].
  destruct (nonempty (session p)) eqn:E2; cbn [negb] in Hpre; [|too_long Hpre].
  clear Hpre.
  destruct (nonempty (language p)
            && negb (bool_decide (language p ∈ Params.validLanguages))) eqn:E3.
  { too_long He. }
  destruct (nonempty (model p)
            && negb (bool_decide (model p ∈ Params.validModels))) eqn:E4.
  { too_long He. }
  destruct (negb (match_whole reChannel (channel p))) eqn:E5.
  { too_long He. }
  destruct ((Z.of_nat (length (session p)) >? 100)
            || (Z.of_nat (length (session p)) <? 3)) eqn:E6.
  { too_long He. }
  destruct (negb (match_whole Params.reId (session p))) eqn:E7.
  { too_long He. }
  apply negb_false_iff in E5, E7. apply orb_false_iff in E6 as [E6 E6'].
  repeat split; try done; try lia.
  - intros Hl. rewrite Hl in E3. cbn [andb] in E3.
    by apply negb_false_iff, bool_decide_eq_true in E3.
  - intros Hm. rewrite Hm in E4. cbn [andb] in E4.
    by apply negb_false_iff, bool_decide_eq_true in E4.
Qed.

End ParamValidators.

(** X22. The validator of validation.js and the one of the gateway,
    applied to the same strings: what [validateWebSocketParams] accepts has
    a session of 3 to 100 letters, digits, [_] and [-], and the gateway's
    [validateConnectionParams] accepts it too, except for the model
    [whisper], which the former allows and the gateway refuses. *)
Theorem library_validator_stricter p :
  Validation.isValid (Params.validateWebSocketParams (Params.ofParams p)) = true →
  3 ≤ Z.of_nat (length (session p)) ≤ 100
  ∧ match_whole Params.reId (session p) = true
  ∧ (model p ≠ js "whisper" →
     Validation.isValid (validateConnectionParams p) = true)
  ∧ (model p = js "whisper" →
     Validation.isValid (validateConnectionParams p) = false).
Proof.
  intros H. apply library_accepts in H as (Hc & Hc' & Hs & Hlen & Hid & Hl & Hm).
  split; [done|]. split; [done|].
  rewrite validateConnectionParams_isValid, Hc, Hc', Hs. cbn [negb andb orb].
  assert (Hlang : nonempty (language p)
                  && negb (match_whole reLanguage (language p)) = false).
  { destruct (nonempty (language p)); [|done].
    by rewrite (validLanguages_format _ (Hl eq_refl)). }
  rewrite Hlang. cbn [orb]. split.
  - intros Hw. destruct (nonempty (model p)); [|done]. cbn [andb].
    apply library_models in Hm as [Hm|Hm]; [|done|done].
    by rewrite bool_decide_eq_true_2.
  - intros ->. cbn [nonempty andb].
    rewrite bool_decide_eq_false_2 by apply whisper_not_gateway. done.
Qed.

Lemma library_validator_stricter_witness :
  Validation.isValid
    (validateConnectionParams
       {| channel := js "#test"; session := js "abc-123"; conversation := [];
          user := []; language := js "fr-FR"; model := js "whisper" |})
  = false.
Proof.
  refine (proj2 (proj2 (proj2 (library_validator_stricter
            {| channel := js "#test"; session := js "abc-123"; conversation := [];
               user := []; language := js "fr-FR"; model := js "whisper" |} _)))
            _).
  - vm_compute. reflexivity.
  - reflexivity.
Defined.

(** X23. The validator of the middleware tests for a missing parameter
    before sanitising it and the formats after: a channel and a session
    that are truthy but sanitise to the empty string (a text of white space,
    an array) pass it, with empty sanitised values, when language and model
    are absent; the gateway, which sanitises first, refuses the same
    query. *)
Theorem middleware_accepts_blank q :
  truthy (q_channel q) = true → truthy (q_session q) = true →
  sanitizeInput (q_channel q) (withMaxLength 100) = [] →
  sanitizeInput (q_session q) (withMaxLength 100) = [] →
  truthy (q_language q) = false → truthy (q_model q) = false →
  Middleware.isValid (Middleware.validateWebSocketParams q) = true
  ∧ Middleware.channel (Middleware.sanitized (Middleware.validateWebSocketParams q))
    = Some []
  ∧ Middleware.session (Middleware.sanitized (Middleware.validateWebSocketParams q))
    = Some []
  ∧ Validation.isValid (validateConnectionParams (sanitizeConnectionParams q))
    = false.
Proof.
  intros Hc Hs Hc' Hs' Hl Hm.
  assert (Hg : Validation.isValid
                 (validateConnectionParams (sanitizeConnectionParams q)) = false).
  { rewrite validateConnectionParams_isValid. unfold sanitizeConnectionParams.
    cbn [channel]. by rewrite Hc'. }
  rewrite Hg.
  unfold Middleware.validateWebSocketParams, Middleware.store. cbv zeta.
  cbn [Middleware.isValid Middleware.sanitized Middleware.channel
       Middleware.session Middleware.language Middleware.model].
  by rewrite Hc, Hs, Hl, Hm, Hc', Hs'.
Qed.

Lemma middleware_accepts_blank_witness :
  Middleware.isValid
    (Middleware.validateWebSocketParams
       {| q_channel := JString (js "   "); q_session := JObject;
          q_conversation := JUndefined; q_user := JUndefined;
          q_language := JUndefined; q_model := JUndefined |})
  = true.
Proof.
  refine (proj1 (middleware_accepts_blank _ _ _ _ _ _ _)); reflexivity.
Defined.

(** X24. What the validator of the middleware accepts: channel and session
    are truthy, and each sanitised value is either empty or of its format
    (for the model: one of the gateway's four). *)
Theorem middleware_accepts q :
  Middleware.isValid (Middleware.validateWebSocketParams q) = true →
  truthy (q_channel q) = true ∧ truthy (q_session q) = true
  ∧ (∀ c, Middleware.channel
            (Middleware.sanitized (Middleware.validateWebSocketParams q)) = Some c →
          c = [] ∨ match_whole reChannel c = true)
  ∧ (∀ s, Middleware.session
            (Middleware.sanitized (Middleware.validateWebSocketParams q)) = Some s →
          s = [] ∨ match_whole Params.reId s = true)
  ∧ (∀ l, Middleware.language
            (Middleware.sanitized (Middleware.validateWebSocketParams q)) = Some l →
          l = [] ∨ match_whole reLanguage l = true)
  ∧ (∀ m, Middleware.model
            (Middleware.sanitized (Middleware.validateWebSocketParams q)) = Some m →
          m = [] ∨ m ∈ Handler.validModels).
Proof.
  unfold Middleware.validateWebSocketParams. cbv zeta.
  cbn [Middleware.isValid Middleware.sanitized Middleware.channel
       Middleware.session Middleware.language Middleware.model].
  intros H. apply Nat.eqb_eq, length_zero_iff_nil in H.
  assert (Hfails : ∀ x ok, Middleware.fails x ok = false →
            ∀ s : jsstring, x = Some s → s = [] ∨ ok s = true).
  { intros x ok Hf s ->. cbn in Hf. destruct s; [by left|]. right.
    cbn in Hf. by apply negb_false_iff in Hf. }
  destruct (truthy (q_channel q)) eqn:E1; cbn [negb] in H;
    [|repeat match type of H with
             | context [if ?c then _ else _] => destruct c
             end;
      apply (f_equal length) in H; rewrite ?length_app in H; simpl in H; lia].
  destruct (truthy (q_session q)) eqn:E2; cbn [negb] in H;
    [|repeat match type of H with
             | context [if ?c then _ else _] => destruct c
             end;
      apply (f_equal length) in H; rewrite ?length_app in H; simpl in H; lia].
  destruct (Middleware.fails (Middleware.store (q_channel q)) _) eqn:E3;
    [repeat match type of H with
            | context [if ?c then _ else _] => destruct c
            end;
      apply (f_equal length) in H; rewrite ?length_app in H; simpl in H; lia|].
  destruct (Middleware.fails (Middleware.store (q_session q)) _) eqn:E4;
    [repeat match type of H with
            | context [if ?c then _ else _] => destruct c
            end;
      apply (f_equal length) in H; rewrite ?length_app in H; simpl in H; lia|].
  destruct (Middleware.fails (Middleware.store (q_language q)) _) eqn:E5;
    [repeat match type of H with
            | context [if ?c then _ else _] => destruct c
            end;
      apply (f_equal length) in H; rewrite ?length_app in H; simpl in H; lia|].
  destruct (Middleware.fails (Middleware.store (q_model q)) _) eqn:E6;
    [apply (f_equal length) in H; rewrite ?length_app in H; simpl in H; lia|].
  split; [done|]. split; [done|].
  split; [exact (Hfails _ _ E3)|]. split; [exact (Hfails _ _ E4)|].
  split; [exact (Hfails _ _ E5)|].
  intros m Hm. destruct (Hfails _ _ E6 m Hm) as [?|Hin]; [by left|].
  right. by apply bool_decide_eq_true in Hin.
Qed.

Lemma middleware_accepts_witness :
  truthy (q_channel frameQuery) = true ∧ truthy (q_session frameQuery) = true.
Proof.
  destruct (middleware_accepts frameQuery) as (H1 & H2 & _);
    [vm_compute; reflexivity|].
  exact (conj H1 H2).
Defined.


(* ===================================================================== *)
(** * The URL that the Slack commands hand out *)
(* ===================================================================== *)

Example parseCommandParams_ex :
  map_to_list (Slack.parseCommandParams (js "session=s1 b lang= =x a=b=c"))
  = map_to_list ({[ js "session" := js "s1"; js "a" := js "b" ]}
                 : gmap jsstring jsstring).
Proof. vm_compute. reflexivity. Qed.

Section SlackUrls.

Import Slack.

Local Ltac keys := let H := fresh in intros H; vm_compute in H; discriminate H.

Lemma split_nonempty sep s : Std.split sep s ≠ [].
Proof.
  induction s as [|c s IH]; simpl; [done|].
  destruct (c =? sep); [done|]. by destruct (Std.split sep s).
Qed.

(** Joining the parts gives the text back. *)
Lemma join_split sep s : join [sep] (Std.split sep s) = s.
Proof.
  induction s as [|c s IH]; [done|]. simpl.
  pose proof (split_nonempty sep s) as Hne.
  destruct (c =? sep) eqn:E.
  - apply Z.eqb_eq in E. subst c.
    destruct (Std.split sep s) as [|x l]; [done|]. simpl in *. by rewrite IH.
  - destruct (Std.split sep s) as [|x l]; [done|].
    destruct l as [|y l]; simpl in *; by rewrite <-IH.
Qed.

Lemma split_no_sep sep s x : x ∈ Std.split sep s → sep ∉ x.
Proof.
  revert x. induction s as [|c s IH]; intros x; simpl.
  - intros Hx. apply list_elem_of_singleton in Hx. subst. apply not_elem_of_nil.
  - pose proof (split_nonempty sep s) as Hne. destruct (c =? sep) eqn:E.
    + intros Hx. apply elem_of_cons in Hx as [->|Hx]; [apply not_elem_of_nil|].
      by apply IH.
    + apply Z.eqb_neq in E. destruct (Std.split sep s) as [|y l]; [done|].
      intros Hx. apply elem_of_cons in Hx as [->|Hx].
      * apply not_elem_of_cons. split; [done|]. apply IH. by left.
      * apply IH. by right.
Qed.

Lemma split_first_two sep s key value rest :
  Std.split sep s = key :: value :: rest → (key ++ [sep] ++ value) `prefix_of` s.
Proof.
  intros H. rewrite <-(join_split sep s), H.
  destruct rest as [|z rest]; simpl.
  - done.
  - exists ([sep] ++ join [sep] (z :: rest)). by rewrite <-!app_assoc.
Qed.

Lemma sub_no_sep (sep : Z) (x pair : jsstring) pre post :
  pair = pre ++ x ++ post → sep ∉ pair → sep ∉ x.
Proof. intros -> H Hx. apply H. rewrite !elem_of_app. auto. Qed.

Lemma foldl_invariant_elem {A X} (Q : A → Prop) (f : A → X → A) (xs : list X) :
  (∀ acc x, x ∈ xs → Q acc → Q (f acc x)) → ∀ acc, Q acc → Q (foldl f acc xs).
Proof.
  induction xs as [|x xs IH]; intros Hf acc H; simpl; [done|].
  apply IH; [|apply Hf; [left|done]].
  intros acc' x' Hx'. apply Hf. by right.
Qed.

(** The language and the model in the query of the slash command. *)
Lemma slash_language text channelId userId generated :
  queryValue (slashCommandUrlParams text channelId userId generated) "language"
  = JString (toText (prop (parseCommandParams text) "language")).
Proof.
  unfold queryValue, slashCommandUrlParams. cbv zeta.
  do 4 (rewrite lookup_insert_ne by keys). by rewrite lookup_insert_eq.
Qed.

Lemma slash_model text channelId userId generated :
  queryValue (slashCommandUrlParams text channelId userId generated) "model"
  = JString (toText (prop (parseCommandParams text) "model")).
Proof.
  unfold queryValue, slashCommandUrlParams. cbv zeta.
  do 5 (rewrite lookup_insert_ne by keys). by rewrite lookup_singleton_eq.
Qed.

(** The entry for a language, and for a model, that fails its test. *)
Lemma language_error p :
  nonempty (language p) && negb (match_whole reLanguage (language p)) = true →
  js "invalid language format" ∈ Validation.errors (validateConnectionParams p).
Proof.
  intros H. unfold validateConnectionParams. cbv zeta. rewrite H.
  unfold result. cbn [Validation.errors].
  destruct (nonempty (model p) && _);
    rewrite ?elem_of_app, ?list_elem_of_singleton; auto.
Qed.

Lemma model_error p :
  nonempty (model p) && negb (bool_decide (model p ∈ Handler.validModels)) = true →
  js "invalid model specified" ∈ Validation.errors (validateConnectionParams p).
Proof.
  intros H. unfold validateConnectionParams. cbv zeta. rewrite H.
  unfold result. cbn [Validation.errors].
  rewrite ?elem_of_app, ?list_elem_of_singleton; auto.
Qed.

End SlackUrls.

(** X25. The URL that the slash command of routes/slack.js hands out names
    every property of its object, an absent one as the text [undefined]:
    when the command text gives no language, or no model, the gateway takes
    [undefined] for it and refuses the connection, for an invalid language
    format or model, registering nothing. The refusal is the close with
    code 1008 whenever the channel is not empty after sanitising, as the
    identifier of a Slack channel is; with an empty channel and an empty
    session, and neither language nor model, the reason is too long and no
    close frame is sent. *)
Theorem slash_command_url_refused text channelId userId generated
    w sock connectionId now live :
  Slack.parseCommandParams text !! js "language" = None
  ∨ Slack.parseCommandParams text !! js "model" = None →
  (step w (Connection sock connectionId
             (Slack.gatewayQuery
                (Slack.slashCommandUrlParams text channelId userId generated))
             now live)).2
  = (if fourErrors
          (sanitizeConnectionParams
             (Slack.gatewayQuery
                (Slack.slashCommandUrlParams text channelId userId generated)))
     then [Log LError "Error setting up WebSocket connection:"]
     else [WsClose sock 1008
             (js "Invalid parameters: "
              ++ join (js ", ")
                   (Validation.errors
                      (validateConnectionParams
                         (sanitizeConnectionParams
                            (Slack.gatewayQuery
                               (Slack.slashCommandUrlParams text channelId userId
                                  generated))))))])
  ∧ (channel
       (sanitizeConnectionParams
          (Slack.gatewayQuery
             (Slack.slashCommandUrlParams text channelId userId generated))) ≠ [] →
     (step w (Connection sock connectionId
                (Slack.gatewayQuery
                   (Slack.slashCommandUrlParams text channelId userId generated))
                now live)).2
     = [WsClose sock 1008
          (js "Invalid parameters: "
           ++ join (js ", ")
                (Validation.errors
                   (validateConnectionParams
                      (sanitizeConnectionParams
                         (Slack.gatewayQuery
                            (Slack.slashCommandUrlParams text channelId userId
                               generated))))))])
  ∧ (Slack.parseCommandParams text !! js "language" = None →
     js "invalid language format"
     ∈ Validation.errors
         (validateConnectionParams
            (sanitizeConnectionParams
               (Slack.gatewayQuery
                  (Slack.slashCommandUrlParams text channelId userId generated)))))
  ∧ (Slack.parseCommandParams text !! js "model" = None →
     js "invalid model specified"
     ∈ Validation.errors
         (validateConnectionParams
            (sanitizeConnectionParams
               (Slack.gatewayQuery
                  (Slack.slashCommandUrlParams text channelId userId generated)))))
  ∧ activeStreams
      (step w (Connection sock connectionId
                 (Slack.gatewayQuery
                    (Slack.slashCommandUrlParams text channelId userId generated))
                 now live)).1
    = activeStreams w
  ∧ service
      (step w (Connection sock connectionId
                 (Slack.gatewayQuery
                    (Slack.slashCommandUrlParams text channelId userId generated))
                 now live)).1
    = service w.
Proof.
  intros H.
  set (q := Slack.gatewayQuery
              (Slack.slashCommandUrlParams text channelId userId generated)).
  assert (Hl : Slack.parseCommandParams text !! js "language" = None →
               nonempty (language (sanitizeConnectionParams q))
               && negb (match_whole reLanguage
                          (language (sanitizeConnectionParams q))) = true).
  { intros Hl. unfold sanitizeConnectionParams, q, Slack.gatewayQuery.
    cbn [language q_language]. rewrite slash_language.
    unfold Slack.prop. rewrite Hl. vm_compute. reflexivity. }
  assert (Hm : Slack.parseCommandParams text !! js "model" = None →
               nonempty (model (sanitizeConnectionParams q))
               && negb (bool_decide (model (sanitizeConnectionParams q)
                                     ∈ Handler.validModels)) = true).
  { intros Hm. unfold sanitizeConnectionParams, q, Slack.gatewayQuery.
    cbn [model q_model]. rewrite slash_model.
    unfold Slack.prop. rewrite Hm. vm_compute. reflexivity. }
  assert (Hinv : Validation.isValid
                   (validateConnectionParams (sanitizeConnectionParams q)) = false).
  { rewrite validateConnectionParams_isValid.
    destruct H as [H|H]; [rewrite (Hl H)|rewrite (Hm H)];
      by rewrite ?orb_true_r. }
  unfold step. rewrite (onConnection_refused _ _ _ _ _ _ Hinv).
  rewrite bool_decide_eq_true_2 by apply lookup_insert_eq. cbn [fst snd].
  split; [done|].
  split.
  { intros Hc. unfold fourErrors.
    destruct (channel (sanitizeConnectionParams q)); [done|]. done. }
  split; [intros ?; by apply language_error, Hl|].
  split; [intros ?; by apply model_error, Hm|]. by destruct w.
Qed.

Lemma slash_command_url_refused_witness :
  (step emptyWorld
     (Connection 7 (js "c1")
        (Slack.gatewayQuery
           (Slack.slashCommandUrlParams (js "session=abc-123 model=nova")
              (js "C024BE91L") (js "U2147483697") (js "session_1_x")))
        1000 true)).2
  = [WsClose 7 1008
       (js "Invalid parameters: "
        ++ join (js ", ")
             (Validation.errors
                (validateConnectionParams
                   (sanitizeConnectionParams
                      (Slack.gatewayQuery
                         (Slack.slashCommandUrlParams
                            (js "session=abc-123 model=nova")
                            (js "C024BE91L") (js "U2147483697")
                            (js "session_1_x")))))))].
Proof.
  refine (proj1 (proj2 (slash_command_url_refused
                          (js "session=abc-123 model=nova")
                          (js "C024BE91L") (js "U2147483697") (js "session_1_x")
                          emptyWorld 7 (js "c1") 1000 true _)) _).
  - left. vm_compute. reflexivity.
  - vm_compute. discriminate.
Defined.

(** X26. The URL that the command of slack-service.js hands out: when the
    command text gives no conversation, the property is [null] and the
    gateway takes the text [null] for the conversation, which it passes on
    as the conversation of the backend connection; and a property that the
    text gives replaces the one of the command, so that the text chooses the
    channel. *)
Theorem command_url_properties text channelId userId generated :
  (Slack.parseCommandParams text !! js "conversation" = None →
   conversation
     (sanitizeConnectionParams
        (Slack.gatewayQuery
           (Slack.commandUrlParams text channelId userId generated)))
   = js "null"
   ∧ ∀ sock,
       conversationId
         (streamingOptions sock
            (sanitizeConnectionParams
               (Slack.gatewayQuery
                  (Slack.commandUrlParams text channelId userId generated))))
       = js "null")
  ∧ (∀ v, Slack.parseCommandParams text !! js "channel" = Some v →
       q_channel
         (Slack.gatewayQuery
            (Slack.commandUrlParams text channelId userId generated))
       = JString v)
  ∧ (Slack.parseCommandParams text !! js "channel" = None →
     q_channel
       (Slack.gatewayQuery (Slack.commandUrlParams text channelId userId generated))
     = JString channelId).
Proof.
  split; [|split].
  - intros H.
    assert (Hc : conversation
                   (sanitizeConnectionParams
                      (Slack.gatewayQuery
                         (Slack.commandUrlParams text channelId userId generated)))
                 = js "null").
    { unfold sanitizeConnectionParams, Slack.gatewayQuery.
      cbn [conversation q_conversation].
      unfold Slack.queryValue, Slack.commandUrlParams. cbv zeta.
      rewrite lookup_union_r by (by rewrite lookup_fmap, H).
      do 2 (rewrite lookup_insert_ne
              by (let E := fresh in intros E; vm_compute in E; discriminate E)).
      rewrite lookup_insert_eq. unfold Slack.propOr, jsstring in *. rewrite H.
      vm_compute. reflexivity. }
    split; [exact Hc|]. intros sock. unfold streamingOptions.
    cbn [conversationId]. exact Hc.
  - intros v H. unfold Slack.gatewayQuery. cbn [q_channel].
    unfold Slack.queryValue, Slack.commandUrlParams. cbv zeta.
    erewrite lookup_union_Some_l; [|by rewrite lookup_fmap, H]. done.
  - intros H. unfold Slack.gatewayQuery. cbn [q_channel].
    unfold Slack.queryValue, Slack.commandUrlParams. cbv zeta.
    rewrite lookup_union_r by (by rewrite lookup_fmap, H).
    by rewrite lookup_insert_eq.
Qed.

Lemma command_url_properties_witness :
  conversation
    (sanitizeConnectionParams
       (Slack.gatewayQuery
          (Slack.commandUrlParams (js "session=abc-123 channel=#other")
             (js "C024BE91L") (js "U2147483697") (js "session_1_x"))))
  = js "null"
  ∧ q_channel
      (Slack.gatewayQuery
         (Slack.commandUrlParams (js "session=abc-123 channel=#other")
            (js "C024BE91L") (js "U2147483697") (js "session_1_x")))
    = JString (js "#other").
Proof.
  split.
  - refine (proj1 (proj1 (command_url_properties _ _ _ _) _)).
    vm_compute. reflexivity.
  - refine (proj1 (proj2 (command_url_properties _ _ _ _)) _ _).
    vm_compute. reflexivity.
Defined.

(** X27. Every property that [parseCommandParams] stores comes from a word
    of the text that starts with [key=value]: key and value are not empty
    and hold neither a space nor an equals sign (of [a=b=c], only [b] is
    kept), and the key is not [__proto__]. *)
Theorem parseCommandParams_stored text key value :
  Slack.parseCommandParams text !! key = Some value →
  key ≠ [] ∧ value ≠ [] ∧ key ≠ js "__proto__"
  ∧ (32 ∉ key) ∧ (61 ∉ key) ∧ (32 ∉ value) ∧ (61 ∉ value)
  ∧ ∃ pair, pair ∈ Std.split 32 text ∧ (key ++ [61] ++ value) `prefix_of` pair.
Proof.
  unfold Slack.parseCommandParams.
  destruct (negb (nonempty text)); [by rewrite lookup_empty|].
  revert key value.
  apply (foldl_invariant_elem
           (λ params : gmap jsstring jsstring, ∀ key value,
              params !! key = Some value →
              key ≠ [] ∧ value ≠ [] ∧ key ≠ js "__proto__"
              ∧ (32 ∉ key) ∧ (61 ∉ key) ∧ (32 ∉ value) ∧ (61 ∉ value)
              ∧ ∃ pair, pair ∈ Std.split 32 text
                        ∧ (key ++ [61] ++ value) `prefix_of` pair));
    [|intros key value H; by rewrite lookup_empty in H].
  intros params pair Hpair IH key value.
  destruct (Std.split 61 pair) as [|k [|v rest]] eqn:Es; [by apply IH..|].
  destruct (nonempty k && nonempty v) eqn:En; [|by apply IH].
  case_bool_decide as Hproto; [by apply IH|].
  destruct (decide (k = key)) as [->|Hne];
    [|rewrite lookup_insert_ne by done; by apply IH].
  rewrite lookup_insert_eq. intros [= ->].
  apply andb_true_iff in En as [Hk Hv]. apply nonempty_true in Hk, Hv.
  pose proof (split_no_sep 32 text pair Hpair) as Hsp.
  pose proof (split_first_two 61 pair key value rest Es) as [post Hpre].
  assert (Hk61 : 61 ∉ key) by (apply (split_no_sep 61 pair); rewrite Es; left).
  assert (Hv61 : 61 ∉ value)
    by (apply (split_no_sep 61 pair); rewrite Es; right; left).
  repeat split; try done.
  - apply (sub_no_sep 32 key pair [] ([61] ++ value ++ post)); [|done].
    rewrite Hpre. by rewrite <-!app_assoc.
  - apply (sub_no_sep 32 value pair (key ++ [61]) post); [|done].
    rewrite Hpre. by rewrite <-!app_assoc.
  - exists pair. split; [done|]. by exists post.
Qed.

Lemma parseCommandParams_stored_witness :
  js "b" ≠ [] ∧ (61 ∉ js "b").
Proof.
  destruct (parseCommandParams_stored (js "x a=b=c") (js "a") (js "b"))
    as (_ & H1 & _ & _ & _ & _ & H2 & _); [vm_compute; reflexivity|].
  exact (conj H1 H2).
Defined.

(* ===================================================================== *)
(** * The request body and the pagination *)
(* ===================================================================== *)

Section Bodies.

Import Middleware.

Lemma sanitizeObjectRecursive_JObj entries depth :
  sanitizeObjectRecursive (JObj entries) depth =
  if depth >? 10 then JObj entries
  else JObj (map (λ entry,
                    match entry with
                    | (key, value) =>
                        (key,
                         match value with
                         | JStr s => JStr (sanitizeInput (JString s)
                                             (withMaxLength 10000))
                         | JObj _ => sanitizeObjectRecursive value (depth + 1)
                         | JArr items =>
                             JArr (map (λ item,
                                          match item with
                                          | JStr s =>
                                              JStr (sanitizeInput (JString s)
                                                      (withMaxLength 1000))
                                          | JObj _ | JArr _ =>
                                              sanitizeObjectRecursive item (depth + 1)
                                          | JOther _ => item
                                          end) items)
                         | JOther _ => value
                         end)
                    end) entries).
Proof. by destruct (depth >? 10) eqn:E; simpl; rewrite E. Qed.

Lemma nest_JObj path entries : ∃ es, nest path (JObj entries) = JObj es.
Proof. destruct path; simpl; eauto. Qed.

Lemma sanitizeObjectRecursive_nest path entries : ∀ depth,
  sanitizeObjectRecursive (nest path (JObj entries)) depth
  = nest path (sanitizeObjectRecursive (JObj entries)
                 (depth + Z.of_nat (length path))).
Proof.
  induction path as [|key path IH]; intros depth.
  - simpl nest. simpl length. by rewrite Z.add_0_r.
  - cbn [nest]. rewrite sanitizeObjectRecursive_JObj.
    destruct (depth >? 10) eqn:E.
    + rewrite (sanitizeObjectRecursive_JObj entries).
      destruct (depth + Z.of_nat (length (key :: path)) >? 10) eqn:E'; [done|].
      exfalso. apply Z.gtb_lt in E. rewrite Z.gtb_ltb in E'.
      apply Z.ltb_ge in E'. lia.
    + cbn [map]. destruct (nest_JObj path entries) as [es Hes].
      rewrite Hes. cbv iota. rewrite <-Hes, IH.
      by replace (depth + 1 + Z.of_nat (length path))
        with (depth + Z.of_nat (length (key :: path))) by (cbn [length]; lia).
Qed.

End Bodies.

(** X28. [sanitizeObjectRecursive] and nesting: an object reached through
    [n] nested objects is treated as at depth [depth + n]. Hence, from depth
    0, the strings of an object nested under 10 objects or fewer are
    sanitised, while an object nested under 11 objects or more is left as it
    is, with its strings unsanitised. *)
Theorem sanitizeObjectRecursive_depth path entries depth :
  Middleware.sanitizeObjectRecursive
    (Middleware.nest path (Middleware.JObj entries)) depth
  = Middleware.nest path
      (Middleware.sanitizeObjectRecursive (Middleware.JObj entries)
         (depth + Z.of_nat (length path)))
  ∧ (10 < depth + Z.of_nat (length path) →
     Middleware.sanitizeObjectRecursive
       (Middleware.nest path (Middleware.JObj entries)) depth
     = Middleware.nest path (Middleware.JObj entries))
  ∧ (depth + Z.of_nat (length path) ≤ 10 →
     ∀ key s,
       Middleware.sanitizeObjectRecursive
         (Middleware.nest path
            (Middleware.JObj [(key, Middleware.JStr s)])) depth
       = Middleware.nest path
           (Middleware.JObj
              [(key, Middleware.JStr
                       (sanitizeInput (JString s) (withMaxLength 10000)))])).
Proof.
  split; [apply sanitizeObjectRecursive_nest|]. split.
  - intros H. rewrite sanitizeObjectRecursive_nest, sanitizeObjectRecursive_JObj.
    destruct (depth + Z.of_nat (length path) >? 10) eqn:E; [done|].
    rewrite Z.gtb_ltb in E. apply Z.ltb_ge in E. lia.
  - intros H key s.
    rewrite sanitizeObjectRecursive_nest, sanitizeObjectRecursive_JObj.
    destruct (depth + Z.of_nat (length path) >? 10) eqn:E; [|done].
    apply Z.gtb_lt in E. lia.
Qed.

Lemma sanitizeObjectRecursive_depth_witness :
  Middleware.sanitizeObjectRecursive
    (Middleware.nest (replicate 11 (js "a"))
       (Middleware.JObj [(js "b", Middleware.JStr (js "<script>"))])) 0
  = Middleware.nest (replicate 11 (js "a"))
      (Middleware.JObj [(js "b", Middleware.JStr (js "<script>"))])
  ∧ Middleware.sanitizeObjectRecursive
      (Middleware.nest (replicate 10 (js "a"))
         (Middleware.JObj [(js "b", Middleware.JStr (js "<script>"))])) 0
    = Middleware.nest (replicate 10 (js "a"))
        (Middleware.JObj
           [(js "b", Middleware.JStr
                       (sanitizeInput (JString (js "<script>"))
                          (withMaxLength 10000)))]).
Proof.
  split.
  - refine (proj1 (proj2 (sanitizeObjectRecursive_depth _ _ _)) _).
    vm_compute. reflexivity.
  - refine (proj2 (proj2 (sanitizeObjectRecursive_depth
                            (replicate 10 (js "a")) [] 0)) _ _ _).
    vm_compute. congruence.
Defined.

(** Beyond 2^53 the page and the offset are rounded. *)
Example validatePagination_ex :
  Middleware.validatePagination
    {| Middleware.maxLimit := 100; Middleware.defaultLimit := 20 |}
    {| Middleware.limit := Some (js "3"); Middleware.offset := None;
       Middleware.page := Some (js "9007199254740993") |}
  = {| Middleware.paged_limit := 3;
       Middleware.paged_offset := 27021597764222972;
       Middleware.paged_page := Some 9007199254740992 |}.
Proof. vm_compute. reflexivity. Qed.

(** X29. Whatever the query and the options, [validatePagination] stores a
    limit of at least 1, which is at most [maxLimit] when that is at least
    1, and an offset that is not negative; when the query names a page, the
    page stored is at least 1 and the offset is the Number value of the
    start of that page, which is the start itself when it is below 2^53;
    otherwise an offset that [parseInt] reads as a positive Number is
    stored as that Number. *)
Theorem validatePagination_bounds o query :
  1 ≤ Middleware.paged_limit (Middleware.validatePagination o query)
  ∧ (1 ≤ Middleware.maxLimit o →
     Middleware.paged_limit (Middleware.validatePagination o query)
     ≤ Middleware.maxLimit o)
  ∧ 0 ≤ Middleware.paged_offset (Middleware.validatePagination o query)
  ∧ (∀ p, Middleware.paged_page (Middleware.validatePagination o query) = Some p →
       1 ≤ p
       ∧ Middleware.paged_offset (Middleware.validatePagination o query)
         = Std.double
             (Std.double (p - 1)
              * Middleware.paged_limit (Middleware.validatePagination o query))
       ∧ ((p - 1) * Middleware.paged_limit (Middleware.validatePagination o query)
          < 2 ^ 53 →
          Middleware.paged_offset (Middleware.validatePagination o query)
          = (p - 1) * Middleware.paged_limit (Middleware.validatePagination o query)))
  ∧ (∀ text n,
       Middleware.page query = None → Middleware.offset query = Some text →
       Std.parseInt text = Some n → 0 < n →
       Middleware.paged_offset (Middleware.validatePagination o query) = n).
Proof.
  unfold Middleware.validatePagination. cbv zeta.
  set (l0 := Middleware.parseIntOr (Middleware.limit query) (Middleware.defaultLimit o)).
  set (o0 := Middleware.parseIntOr (Middleware.offset query) 0).
  set (l1 := if (if l0 >? Middleware.maxLimit o then Middleware.maxLimit o
                 else l0) <? 1
             then 1
             else if l0 >? Middleware.maxLimit o then Middleware.maxLimit o
                  else l0).
  assert (Hl : 1 ≤ l1).
  { subst l1. destruct (l0 >? Middleware.maxLimit o);
      [destruct (Middleware.maxLimit o <? 1) eqn:E|destruct (l0 <? 1) eqn:E]; lia. }
  assert (Hmax : 1 ≤ Middleware.maxLimit o → l1 ≤ Middleware.maxLimit o).
  { intros ?. subst l1. destruct (l0 >? Middleware.maxLimit o) eqn:E0;
      [destruct (Middleware.maxLimit o <? 1) eqn:E|destruct (l0 <? 1) eqn:E]; lia. }
  clearbody l1.
  destruct (Middleware.page query) as [[|c s]|] eqn:Ep;
    cbn [Middleware.paged_limit Middleware.paged_offset Middleware.paged_page].
  - split; [done|]. split; [done|]. split; [destruct (o0 <? 0) eqn:E; lia|].
    split; [done|]. intros text n Hcontra. discriminate Hcontra.
  - split; [done|]. split; [done|].
    set (p0 := Middleware.parseIntOr (Some (c :: s)) 1).
    set (p1 := if p0 <? 1 then 1 else p0).
    assert (Hp1 : 1 ≤ p1) by (subst p1; destruct (p0 <? 1) eqn:E; lia).
    clearbody p1.
    split.
    { apply double_nonneg.
      assert (0 ≤ Std.double (p1 - 1)) by (apply double_nonneg; lia). nia. }
    split; [|intros text n Hcontra; discriminate Hcontra].
    intros p [= <-]. split; [done|]. split; [done|].
    intros Hb.
    assert (Hsmall : Z.abs (p1 - 1) < 2 ^ 53) by (rewrite Z.abs_eq by lia; nia).
    rewrite (double_small (p1 - 1) Hsmall).
    apply double_small. rewrite Z.abs_eq by nia. done.
  - split; [done|]. split; [done|]. split; [destruct (o0 <? 0) eqn:E; lia|].
    split; [done|]. intros text n _ Ho Hn Hpos. subst o0.
    unfold Middleware.parseIntOr. rewrite Ho. cbn [default]. unfold Datatypes.id.
    rewrite Hn. destruct (n =? 0) eqn:E0; [lia|].
    destruct (n <? 0) eqn:E1; lia.
Qed.

Lemma validatePagination_bounds_witness :
  Middleware.paged_limit
    (Middleware.validatePagination
       {| Middleware.maxLimit := 100; Middleware.defaultLimit := 20 |}
       {| Middleware.limit := Some (js "5000"); Middleware.offset := Some (js "-3");
          Middleware.page := None |})
  ≤ 100.
Proof.
  refine (proj1 (proj2 (validatePagination_bounds
            {| Middleware.maxLimit := 100; Middleware.defaultLimit := 20 |} _)) _).
  vm_compute. congruence.
Defined.
